(** * PaperFlow: component tree to IR conversion and asset resolution

    A shallow embedding of the TypeScript sources

      - packages/react/src/tailwind.ts          (the Style Resolver)
      - packages/react/src/components.tsx       (the primitive components)
      - packages/react/src/react-to-ir.ts       (the Tree Converter)
      - packages/core/src/ir/types.ts           (IR data model and helpers)
      - packages/core/src/errors.ts             (the error type)
      - packages/core/src/fonts/loader.ts       (font resolution)
      - packages/core/src/images/loader.ts      (image resolution)
      - packages/engine-satori/src/index.ts     (the elements given to Satori)
      - packages/react/src/render.ts            (the render function)
      - packages/paperflow/src/index.ts         (the client class)

    followed by the properties proved about them.

    Conventions of the embedding.
    - A JavaScript string is a Rocq [string], one character per code unit;
      the case conversions and the whitespace class are those of the ASCII
      range.
    - A JavaScript number is the exact rational its literal denotes ([Q]),
      or NaN, or an infinity; rounding to binary64 is not modelled.
    - A plain object used as a dictionary is a [gmap string _]; a [Map]
      whose iteration order is observable is an association list in
      insertion order.
    - A function that can throw returns [Exception + A]; a function that
      mutates module state threads that state explicitly.
    - A loop or a recursion that may go on for ever takes fuel and gives
      [None] when the fuel does not suffice.
    - [Array.prototype.sort] is stable.  Where the comparison does not
      order the elements consistently the language leaves the result to
      the implementation; it is then the result of V8 on an array of
      fewer than 64 elements.
    - Built-ins of the platform whose results depend on binary64 arithmetic
      or on the outside world ([Number], [parseFloat], [String] of a
      number, [atob], [fetch], the clock) are section variables, and so are
      the components written by the user and the outcome of [loadFont]. *)

From Stdlib Require Import ZArith QArith String Ascii List Bool Lia Lqa.
From Stdlib Require Import Strings.Byte.
From stdpp Require Import base option list gmap strings pretty.

Local Open Scope string_scope.
Local Open Scope list_scope.

(* ===================================================================== *)
(** * JavaScript values and string primitives                              *)
(* ===================================================================== *)

Module JS.

Inductive JSNumber :=
| NaN
| Infinity (negative : bool)
| Fin (q : Q).

(** The values that flow through props, style maps and error contexts. *)
Inductive JSValue :=
| VUndefined
| VNull
| VBool (b : bool)
| VNum (n : JSNumber)
| VStr (s : string)
| VSize (width height : Q)
| VEdges (top right bottom left : option Q)
| VBinary (bytes : list byte)
| VFunction (name : string)
| VInherited (name : string).
(** [VSize] is a page-size object, [VEdges] a margin object with the edges
    it defines, [VBinary] an ArrayBuffer or typed array, [VFunction] a
    callback or deferred source.  [VInherited name] is the member
    [name] of [Object.prototype], which a lookup [TABLE[key]] on an object
    literal reaches when [key] is not an own property of the table. *)

Definition num (q : Q) : JSValue := VNum (Fin q).

(** Equality of values is decidable; it is strict equality on the
    primitives and SameValueZero on numbers. *)
#[global] Instance Q_eq_dec : EqDecision Q.
Proof. solve_decision. Defined.

#[global] Instance byte_eq_decision : EqDecision byte := byte_eq_dec.

#[global] Instance JSNumber_eq_dec : EqDecision JSNumber.
Proof. solve_decision. Defined.

#[global] Instance JSValue_eq_dec : EqDecision JSValue.
Proof. solve_decision. Defined.

(** ToBoolean. *)
Definition truthyNumber (n : JSNumber) : bool :=
  match n with
  | NaN => false
  | Infinity _ => true
  | Fin q => negb (Qeq_bool q 0)
  end.

Definition truthy (v : JSValue) : bool :=
  match v with
  | VUndefined | VNull => false
  | VBool b => b
  | VNum n => truthyNumber n
  | VStr s => negb (String.eqb s "")
  | VSize _ _ | VEdges _ _ _ _ | VBinary _ | VFunction _ | VInherited _ => true
  end.

(** [v !== undefined] and [v ?? d]. *)
Definition isUndefined (v : JSValue) : bool :=
  match v with VUndefined => true | _ => false end.

Definition isNullish (v : JSValue) : bool :=
  match v with VUndefined | VNull => true | _ => false end.

Definition nullish (v d : JSValue) : JSValue :=
  if isNullish v then d else v.

(** Reading a property of an object that may lack it. *)
Definition get (o : gmap string JSValue) (k : string) : JSValue :=
  default VUndefined (o !! k).

(** The members every object literal inherits from [Object.prototype]. *)
Definition objectPrototypeMembers : list string :=
  [ "constructor"; "hasOwnProperty"; "isPrototypeOf"; "propertyIsEnumerable";
    "toLocaleString"; "toString"; "valueOf"; "__proto__";
    "__defineGetter__"; "__defineSetter__"; "__lookupGetter__";
    "__lookupSetter__" ].

Definition isInherited (key : string) : bool :=
  existsb (String.eqb key) objectPrototypeMembers.

(** [TABLE[key]]: the own property, else the inherited member, else
    [undefined]. *)
Definition tableGet (table : gmap string JSValue) (key : string) : JSValue :=
  match table !! key with
  | Some v => v
  | None => if isInherited key then VInherited key else VUndefined
  end.

(** ** Maps in insertion order

    A [Map] keeps its keys in the order of their first insertion; setting
    a key that is present replaces the value where it stands. *)
Fixpoint assocGet {V} (k : string) (m : list (string * V)) : option V :=
  match m with
  | [] => None
  | (k', v) :: rest => if String.eqb k k' then Some v else assocGet k rest
  end.

Fixpoint assocSet {V} (k : string) (v : V) (m : list (string * V)) : list (string * V) :=
  match m with
  | [] => [(k, v)]
  | (k', v') :: rest =>
      if String.eqb k k' then (k, v) :: rest else (k', v') :: assocSet k v rest
  end.

Definition assocHas {V} (k : string) (m : list (string * V)) : bool :=
  match assocGet k m with Some _ => true | None => false end.

(** [set.add(x)] on a [Set], kept in insertion order. *)
Definition setAdd (x : JSValue) (s : list JSValue) : list JSValue :=
  if bool_decide (x ∈ s) then s else s ++ [x].

(** ** Sorting numbers

    [arr.sort((a, b) => a - b)].  The comparison of two elements is the
    difference, read as zero when it is NaN; the sort looks only at
    whether it is negative.  [a - b < 0] is false as soon as an operand
    is not a number or the difference is NaN. *)
Definition numberLt (a b : JSNumber) : bool :=
  match a, b with
  | Fin x, Fin y => negb (Qle_bool y x)
  | Infinity true, Fin _ | Infinity true, Infinity false | Fin _, Infinity false => true
  | _, _ => false
  end.

Definition differenceNegative (a b : JSValue) : bool :=
  match a, b with
  | VNum x, VNum y => numberLt x y
  | _, _ => false
  end.

(** Where the differences order the elements consistently, the language
    fixes the result: the one stable arrangement in ascending order.
    Where they do not, as with a NaN among numbers, the result is left
    to the implementation; the definitions below follow V8, which for an
    array of fewer than 64 elements finds the run the array begins with
    and then places the remaining elements by binary insertion.  (From
    64 elements on V8 merges several such runs, with the same result
    whenever the order is consistent.)

    The rest of a run: how many of the elements after the previous one
    go on in the direction of the run. *)
Fixpoint runRest (isDescending : bool) (previousElement : JSValue) (rest : list JSValue)
  : nat :=
  match rest with
  | [] => 0
  | currentElement :: rest' =>
      if Bool.eqb (differenceNegative currentElement previousElement) isDescending
      then S (runRest isDescending currentElement rest')
      else 0
  end.

(** [CountAndMakeRun]: the length of the run the array begins with, and
    the array with that run reversed when it is a descending one.  A run
    goes up when its second element is not smaller than its first, and
    then as long as no element is smaller than the one before it;
    otherwise it goes down, as long as every element is smaller than the
    one before it. *)
Definition countAndMakeRun (workArray : list JSValue) : list JSValue * nat :=
  match workArray with
  | [] => ([], 0%nat)
  | [x] => ([x], 1%nat)
  | elementHigh :: elementLow :: rest =>
      let isDescending := differenceNegative elementLow elementHigh in
      let runLength := (2 + runRest isDescending elementLow rest)%nat in
      (if isDescending
       then List.rev (take runLength workArray) ++ drop runLength workArray
       else workArray,
       runLength)
  end.

(** The binary search of [BinaryInsertionSort] for the place of the
    pivot between [left] and [right].  Every round makes the interval
    shorter, so its length bounds the number of rounds. *)
Fixpoint insertionPoint (rounds : nat) (pivot : JSValue) (workArray : list JSValue)
         (left right : nat) : nat :=
  match rounds with
  | O => left
  | S rounds' =>
      if (left <? right)%nat then
        let mid := (left + (right - left) / 2)%nat in
        if differenceNegative pivot (default VUndefined (workArray !! mid))
        then insertionPoint rounds' pivot workArray left mid
        else insertionPoint rounds' pivot workArray (mid + 1) right
      else left
  end.

(** [BinaryInsertionSort]: the elements after the sorted part, one by
    one, each put at its insertion point. *)
Fixpoint binaryInsertionSort (sorted rest : list JSValue) : list JSValue :=
  match rest with
  | [] => sorted
  | pivot :: rest' =>
      let left := insertionPoint (length sorted) pivot sorted 0 (length sorted) in
      binaryInsertionSort (take left sorted ++ pivot :: drop left sorted) rest'
  end.

Definition sortDefined (workArray : list JSValue) : list JSValue :=
  let '(workArray, runLength) := countAndMakeRun workArray in
  binaryInsertionSort (take runLength workArray) (drop runLength workArray).

(** The elements that are undefined go to the end without being
    compared; the others are sorted. *)
Definition sortNumeric (l : list JSValue) : list JSValue :=
  sortDefined (List.filter (fun v => negb (isUndefined v)) l)
    ++ List.filter isUndefined l.

(** ** Characters *)

Definition charCode (c : ascii) : N := N_of_ascii c.

(** The ASCII members of the regular-expression class [\s], which are
    also the ASCII characters removed by [trim]. *)
Definition isWhitespace (c : ascii) : bool :=
  let n := charCode c in
  ((9 <=? n) && (n <=? 13) || (n =? 32))%N.

(** The class [\w]: letters, digits and underscore. *)
Definition isWordChar (c : ascii) : bool :=
  let n := charCode c in
  ((48 <=? n) && (n <=? 57) || (65 <=? n) && (n <=? 90)
   || (97 <=? n) && (n <=? 122) || (n =? 95))%N.

(** Line terminators, which [.] does not match. *)
Definition isLineTerminator (c : ascii) : bool :=
  let n := charCode c in ((n =? 10) || (n =? 13))%N.

Definition isQuote (c : ascii) : bool :=
  let n := charCode c in ((n =? 34) || (n =? 39))%N.

Definition isDigit (c : ascii) : bool :=
  let n := charCode c in ((48 <=? n) && (n <=? 57))%N.

Definition lowerChar (c : ascii) : ascii :=
  let n := charCode c in
  if ((65 <=? n) && (n <=? 90))%N then ascii_of_N (n + 32) else c.

Definition upperChar (c : ascii) : ascii :=
  let n := charCode c in
  if ((97 <=? n) && (n <=? 122))%N then ascii_of_N (n - 32) else c.

(** ** Strings *)

Fixpoint mapChars (f : ascii -> ascii) (s : string) : string :=
  match s with
  | EmptyString => EmptyString
  | String c r => String (f c) (mapChars f r)
  end.

Fixpoint filterChars (keep : ascii -> bool) (s : string) : string :=
  match s with
  | EmptyString => EmptyString
  | String c r => if keep c then String c (filterChars keep r) else filterChars keep r
  end.

Fixpoint allChars (p : ascii -> bool) (s : string) : bool :=
  match s with
  | EmptyString => true
  | String c r => p c && allChars p r
  end.

Fixpoint takeWhileChars (p : ascii -> bool) (s : string) : string :=
  match s with
  | EmptyString => EmptyString
  | String c r => if p c then String c (takeWhileChars p r) else EmptyString
  end.

Fixpoint dropWhileChars (p : ascii -> bool) (s : string) : string :=
  match s with
  | EmptyString => EmptyString
  | String c r => if p c then dropWhileChars p r else s
  end.

Fixpoint revAppend (s acc : string) : string :=
  match s with
  | EmptyString => acc
  | String c r => revAppend r (String c acc)
  end.

Definition reverse (s : string) : string := revAppend s EmptyString.

Definition isEmpty (s : string) : bool := String.eqb s "".

(** [s.toLowerCase()], [s.toUpperCase()]. *)
Definition toLowerCase : string -> string := mapChars lowerChar.
Definition toUpperCase : string -> string := mapChars upperChar.

(** [s.startsWith(p)]. *)
Definition startsWith (p s : string) : bool := String.prefix p s.

(** [s.slice(n)] for [0 <= n], and [s.substring(0, n)]. *)
Fixpoint slice (n : nat) (s : string) : string :=
  match n, s with
  | O, _ => s
  | S k, EmptyString => EmptyString
  | S k, String _ r => slice k r
  end.

Fixpoint substring0 (n : nat) (s : string) : string :=
  match n, s with
  | O, _ => EmptyString
  | S k, EmptyString => EmptyString
  | S k, String c r => String c (substring0 k r)
  end.

(** [s.charAt(0)]: the first character as a string, or the empty string. *)
Definition charAt0 (s : string) : string := substring0 1 s.

(** [s.includes(sub)]. *)
Fixpoint includes (sub s : string) : bool :=
  startsWith sub s ||
  match s with
  | EmptyString => false
  | String _ r => includes sub r
  end.

(** [s.trim()]. *)
Definition trimStart (s : string) : string := dropWhileChars isWhitespace s.
Definition trim (s : string) : string :=
  reverse (trimStart (reverse (trimStart s))).

(** [s.replace(re, '')] where [re] is the global pattern matching either
    quote character. *)
Definition removeQuotes (s : string) : string :=
  filterChars (fun c => negb (isQuote c)) s.

(** [s.replace(/\s+/g, '-')]: every maximal run of whitespace becomes one
    hyphen.  [inRun] records that the previous character was whitespace. *)
Fixpoint hyphenateRuns (inRun : bool) (s : string) : string :=
  match s with
  | EmptyString => EmptyString
  | String c r =>
      if isWhitespace c
      then (if inRun then hyphenateRuns true r else String "-" (hyphenateRuns true r))
      else String c (hyphenateRuns false r)
  end.

Definition replaceWhitespaceRuns (s : string) : string := hyphenateRuns false s.

(** [s.split(sep)] for a one-character separator: the fields between the
    occurrences of [sep]; the empty string splits into one empty field. *)
Fixpoint splitAcc (sep : ascii) (cur : string) (s : string) : list string :=
  match s with
  | EmptyString => [reverse cur]
  | String c r =>
      if Ascii.eqb c sep
      then reverse cur :: splitAcc sep EmptyString r
      else splitAcc sep (String c cur) r
  end.

Definition split (sep : ascii) (s : string) : list string :=
  splitAcc sep EmptyString s.

(** [s.split(/\s+/)]: the fields between the maximal runs of whitespace; a
    leading or trailing run leaves an empty first or last field. *)
Fixpoint splitWsAcc (inRun : bool) (cur : string) (s : string) : list string :=
  match s with
  | EmptyString => [reverse cur]
  | String c r =>
      if isWhitespace c
      then (if inRun then splitWsAcc true EmptyString r
            else reverse cur :: splitWsAcc true EmptyString r)
      else splitWsAcc false (String c cur) r
  end.

Definition splitWhitespace (s : string) : list string :=
  splitWsAcc false EmptyString s.

(** [parts.join(sep)]. *)
Fixpoint join (sep : string) (parts : list string) : string :=
  match parts with
  | [] => ""
  | [p] => p
  | p :: rest => p ++ sep ++ join sep rest
  end.

(** ** Numbers and strings *)

(** Decimal digits of a natural number, as in a template literal. *)
Definition showNat (n : nat) : string := pretty n.
Definition showZ (z : Z) : string := pretty z.

(** [parseInt(s, 10)]: leading whitespace, an optional sign, then the
    longest prefix of decimal digits; NaN when there is no digit. *)
Fixpoint digitsValue (acc : Z) (s : string) : Z :=
  match s with
  | String c r =>
      if isDigit c then digitsValue (10 * acc + Z.of_N (charCode c - 48)) r else acc
  | EmptyString => acc
  end.

Definition parseDigits (s : string) : option Z :=
  match s with
  | String c _ => if isDigit c then Some (digitsValue 0 s) else None
  | EmptyString => None
  end.

Definition parseInt10 (s : string) : JSNumber :=
  let t := trimStart s in
  let '(neg, body) :=
    match t with
    | String "-" r => (true, r)
    | String "+" r => (false, r)
    | _ => (false, t)
    end in
  match parseDigits body with
  | Some z => Fin (inject_Z (if neg : bool then - z else z))
  | None => NaN
  end.

End JS.

Import JS.

(* ===================================================================== *)
(** * The error type (packages/core/src/errors.ts)                         *)
(* ===================================================================== *)

Module Errors.

Inductive ErrorCode :=
| FONT_LOAD_FAILED | FONT_NOT_FOUND | INVALID_FONT_FORMAT | FONT_FETCH_ERROR
| IMAGE_LOAD_FAILED | IMAGE_NOT_FOUND | INVALID_IMAGE_FORMAT | IMAGE_FETCH_ERROR
| LOCAL_FILE_NOT_SUPPORTED | INVALID_IMAGE_SOURCE | UNKNOWN_IMAGE_FORMAT
| INVALID_BASE64_IMAGE
| RENDER_FAILED | INVALID_DOCUMENT | NO_PAGES | UNKNOWN_ENGINE
| UNKNOWN_ERROR.

(** [new PaperFlowError(message, code, context)].  The suggestion is a
    function of [code] and [context] and is not stored. *)
Record PaperFlowError := {
  message : string;
  code : ErrorCode;
  context : list (string * JSValue)
}.

(** Whatever a [throw] or a rejected promise carries: a [PaperFlowError],
    or any other error, of which only the message is kept. *)
Inductive Exception :=
| Thrown (e : PaperFlowError)
| OtherError (msg : string).

Definition raise {A} (msg : string) (c : ErrorCode) (ctx : list (string * JSValue))
  : Exception + A :=
  inl (Thrown {| message := msg; code := c; context := ctx |}).

End Errors.

Import Errors.

(* ===================================================================== *)
(** * Image resolution (packages/core/src/images/loader.ts)                *)
(* ===================================================================== *)

Module Images.

Inductive ImageFormat := png | jpeg | webp | gif | svg.

Record LoadedImage := {
  id : string;
  data : list byte;
  format : ImageFormat
}.

Record ImageLoadOptions := {
  optimize : option bool;
  maxWidth : option Q;
  maxHeight : option Q;
  quality : option Q
}.

Definition noOptions : ImageLoadOptions :=
  {| optimize := None; maxWidth := None; maxHeight := None; quality := None |}.

(** The [ImageSource] union of ir/types.ts.  A deferred source is
    represented by what the promise it returns settles to: a source, or a
    rejection.  [SrcOther] is any value outside the union, with its
    [typeof] and [String(src)]. *)
Inductive ImageSource :=
| SrcString (s : string)
| SrcArrayBuffer (bytes : list byte)
| SrcUint8Array (bytes : list byte)
| SrcFunction (resolvedSrc : ImageSource)
| SrcFunctionRejected (e : Exception)
| SrcOther (typeofSrc : string) (asString : string).

(** ** [arr[i] === b] on a byte array: false past the end. *)
Definition byteIs (arr : list byte) (i : nat) (b : byte) : bool :=
  match arr !! i with
  | Some x => Byte.eqb x b
  | None => false
  end.

Definition byteOfChar (c : ascii) : byte := byte_of_ascii c.

Fixpoint bytesOfString (s : string) : list byte :=
  match s with
  | EmptyString => []
  | String c r => byteOfChar c :: bytesOfString r
  end.

(** [text.includes(pattern)] where [text] is the UTF-8 decoding of [arr]
    and [pattern] is ASCII.  The decoder maps every byte below 128 to the
    same character and no other byte sequence to a character below 128, so
    the pattern occurs in the text exactly where its bytes occur in [arr]. *)
Definition bytesPrefix (pat arr : list byte) : bool :=
  forallb (fun '(i, b) => byteIs arr i b) (imap (fun i b => (i, b)) pat).

Fixpoint bytesInclude (pat arr : list byte) : bool :=
  bytesPrefix pat arr ||
  match arr with
  | [] => false
  | _ :: r => bytesInclude pat r
  end.

Definition decodedIncludes (pattern : string) (arr : list byte) : bool :=
  bytesInclude (bytesOfString pattern) arr.

(** [b.toString(16).padStart(2, '0')]. *)
Definition hexDigit (d : N) : ascii :=
  if (d <? 10)%N then ascii_of_N (48 + d) else ascii_of_N (87 + d).

Definition hexByte (b : byte) : string :=
  let n := Byte.to_N b in
  String (hexDigit (n / 16)) (String (hexDigit (n mod 16)) EmptyString).

Definition firstBytesHex (arr : list byte) : string :=
  join " " (map hexByte (take 8 arr)).

(** Detect image format from magic bytes. *)
Definition detectImageFormat (arr : list byte) : Exception + ImageFormat :=
  (* PNG: 89 50 4E 47 *)
  if byteIs arr 0 x89 && byteIs arr 1 x50 && byteIs arr 2 x4e && byteIs arr 3 x47
  then inr png
  (* JPEG: FF D8 FF *)
  else if byteIs arr 0 xff && byteIs arr 1 xd8 && byteIs arr 2 xff
  then inr jpeg
  (* WebP: 52 49 46 46 ... 57 45 42 50 *)
  else if byteIs arr 0 x52 && byteIs arr 1 x49 && byteIs arr 2 x46 && byteIs arr 3 x46
          && byteIs arr 8 x57 && byteIs arr 9 x45 && byteIs arr 10 x42 && byteIs arr 11 x50
  then inr webp
  (* GIF: 47 49 46 38 *)
  else if byteIs arr 0 x47 && byteIs arr 1 x49 && byteIs arr 2 x46 && byteIs arr 3 x38
  then inr gif
  (* SVG: the first 100 bytes, decoded, contain an XML or svg opening *)
  else if decodedIncludes "<?xml" (take 100 arr) || decodedIncludes "<svg" (take 100 arr)
  then inr svg
  else raise "Unknown image format. Supported formats: PNG, JPEG, WebP, GIF, SVG"
             UNKNOWN_IMAGE_FORMAT
             [("firstBytes", VStr (firstBytesHex arr))].

(** Normalize format string. *)
Definition normalizeFormat (fmt : string) : ImageFormat :=
  let normalized := toLowerCase fmt in
  if normalized =? "png" then png
  else if (normalized =? "jpg") || (normalized =? "jpeg") then jpeg
  else if normalized =? "webp" then webp
  else if normalized =? "gif" then gif
  else if (normalized =? "svg") || (normalized =? "svg+xml") then svg
  else png.

(** ** [generateImageId] *)

(** ToInt32: the wrap-around of the bitwise operators. *)
Definition toInt32 (z : Z) : Z :=
  let m := (z mod 2 ^ 32)%Z in
  if (m >=? 2 ^ 31)%Z then (m - 2 ^ 32)%Z else m.

(** One round: [hash = ((hash << 5) - hash) + c; hash = hash & hash]. *)
Definition hashStep (hash c : Z) : Z :=
  toInt32 (toInt32 (Z.shiftl hash 5) - hash + c)%Z.

Definition digit36 (d : N) : ascii :=
  if (d <? 10)%N then ascii_of_N (48 + d) else ascii_of_N (87 + d).

Fixpoint toBase36 (fuel : nat) (n : N) (acc : string) : string :=
  match fuel with
  | O => acc
  | S f =>
      let acc' := String (digit36 (n mod 36)) acc in
      if (n / 36 =? 0)%N then acc' else toBase36 f (n / 36)%N acc'
  end.

(** [n.toString(36)] for a non-negative integer. *)
Definition toString36 (n : N) : string :=
  toBase36 (S (N.to_nat (N.log2 n))) n EmptyString.

Definition hashOfString (s : string) : Z :=
  fold_left hashStep
    (map (fun c => Z.of_N (charCode c)) (list_ascii_of_string (substring0 1000 s))) 0%Z.

Definition hashOfBytes (arr : list byte) : Z :=
  fold_left hashStep (map (fun b => Z.of_N (Byte.to_N b)) (take 100 arr)) 0%Z.

Definition generateImageIdOfString (source : string) : string :=
  "img_" ++ toString36 (Z.to_N (Z.abs (hashOfString source))).

Definition generateImageIdOfBuffer (source : list byte) : string :=
  "img_" ++ toString36 (Z.to_N (Z.abs (hashOfBytes source)))
         ++ "_" ++ showNat (length source).

(** Load image from an ArrayBuffer. *)
Definition loadFromBuffer (buffer : list byte) : Exception + LoadedImage :=
  match detectImageFormat buffer with
  | inl e => inl e
  | inr fmt =>
      inr {| id := generateImageIdOfBuffer buffer; data := buffer; format := fmt |}
  end.

(** The match of the anchored pattern

      data:image/ (\w+) ;base64, (.+)

    against the whole string: the two captured groups.  The first group is
    greedy and is followed by a character outside [\w], so it is the
    longest run of word characters; the second runs to the end of the
    string and may not contain a line terminator. *)
Definition matchDataUri (dataUri : string) : option (string * string) :=
  if startsWith "data:image/" dataUri then
    let rest := slice 11 dataUri in
    let formatStr := takeWhileChars isWordChar rest in
    let afterFormat := dropWhileChars isWordChar rest in
    if negb (isEmpty formatStr) && startsWith ";base64," afterFormat then
      let base64 := slice 8 afterFormat in
      if negb (isEmpty base64) && allChars (fun c => negb (isLineTerminator c)) base64
      then Some (formatStr, base64)
      else None
    else None
  else None.

(** ** The world the loader runs in *)

Record Response := {
  status : Z;
  statusText : string;
  body : list byte
}.

Definition ok (r : Response) : bool := ((200 <=? status r) && (status r <=? 299))%Z.

(** What [await fetch(url)] gives: a rejection or a response. *)
Inductive FetchOutcome :=
| FetchRejected (msg : string)
| FetchResolved (r : Response).

(** The module-level cache, and the requests sent so far (most recent
    first). *)
Record World := {
  imageCache : gmap string LoadedImage;
  fetched : list string
}.

Definition emptyWorld : World := {| imageCache := ∅; fetched := [] |}.

Definition clearImageCache (w : World) : World :=
  {| imageCache := ∅; fetched := fetched w |}.

Section Loader.

(** [fetch] and [atob] of the platform; [atob] gives [None] when it
    throws on its input.  What it throws is an error of the platform, not
    a PaperFlowError; its message is written here as Node words it. *)
Variable fetch : string -> FetchOutcome.
Variable atob : string -> option string.

(** Load image from a base64 data URI. *)
Definition loadFromDataUri (dataUri : string) : Exception + LoadedImage :=
  match matchDataUri dataUri with
  | None =>
      raise "Invalid base64 image data URI. Expected format: data:image/png;base64,<data>"
            INVALID_BASE64_IMAGE
            [("dataUri", VStr (substring0 50 dataUri ++ "..."))]
  | Some (formatStr, base64) =>
      let fmt := normalizeFormat formatStr in
      match atob base64 with
      | None => inl (OtherError "Invalid character")
      | Some binaryString =>
          inr {| id := generateImageIdOfString dataUri;
                 data := bytesOfString binaryString;
                 format := fmt |}
      end
  end.

(** Load image from a URL. *)
Definition loadFromUrl (url : string) (options : ImageLoadOptions) (w : World)
  : (Exception + LoadedImage) * World :=
  (* Check cache *)
  match imageCache w !! url with
  | Some cached => (inr cached, w)
  | None =>
      let w1 := {| imageCache := imageCache w; fetched := url :: fetched w |} in
      let attempt : (Exception + LoadedImage) :=
        match fetch url with
        | FetchRejected msg => inl (OtherError msg)
        | FetchResolved response =>
            if negb (ok response) then
              raise ("Failed to load image from URL: " ++ showZ (status response)
                       ++ " " ++ statusText response)
                    IMAGE_LOAD_FAILED
                    [("url", VStr url); ("status", num (inject_Z (status response)))]
            else
              match detectImageFormat (body response) with
              | inl e => inl e
              | inr fmt =>
                  inr {| id := generateImageIdOfString url;
                         data := body response;
                         format := fmt |}
              end
        end in
      match attempt with
      | inr image =>
          (* Cache the result *)
          (inr image, {| imageCache := <[url := image]> (imageCache w1);
                         fetched := fetched w1 |})
      | inl (Thrown e) => (inl (Thrown e), w1)
      | inl (OtherError msg) =>
          (raise ("Failed to fetch image: " ++ msg) IMAGE_FETCH_ERROR [("url", VStr url)],
           w1)
      end
  end.

(** Load an image from various sources. *)
Fixpoint loadImage (src : ImageSource) (options : ImageLoadOptions) (w : World)
  : (Exception + LoadedImage) * World :=
  match src with
  (* Handle async function source *)
  | SrcFunction resolvedSrc => loadImage resolvedSrc options w
  | SrcFunctionRejected e => (inl e, w)
  (* Handle ArrayBuffer *)
  | SrcArrayBuffer bytes => (loadFromBuffer bytes, w)
  (* Handle Uint8Array: the bytes are copied into a fresh buffer *)
  | SrcUint8Array bytes => (loadFromBuffer bytes, w)
  (* Handle string sources *)
  | SrcString s =>
      if startsWith "data:" s then (loadFromDataUri s, w)
      else if startsWith "http://" s || startsWith "https://" s
      then loadFromUrl s options w
      else
        (raise "Local file paths are not supported. Use a URL instead."
               LOCAL_FILE_NOT_SUPPORTED
               [("src", VStr s);
                ("suggestion",
                 VStr "Upload the image to a CDN (like Cloudinary, S3, or Vercel Blob) and use the URL.")],
         w)
  | SrcOther typeofSrc asString =>
      (raise ("Invalid image source type: " ++ typeofSrc)
             INVALID_IMAGE_SOURCE
             [("src", VStr (substring0 100 asString))],
       w)
  end.

End Loader.

End Images.


(* ===================================================================== *)
(** * The Style Resolver (packages/react/src/tailwind.ts)                  *)
(* ===================================================================== *)

Module Tailwind.

Local Open Scope Q_scope.

(** A style object: [CSSProperties], used as a dictionary. *)
Abbreviation CSSProperties := (gmap string JSValue).

(** ** The scales *)

Definition SPACING : gmap string JSValue :=
  list_to_map [
    ("0", num 0); ("px", num 1); ("0.5", num 2); ("1", num 4);
    ("1.5", num 6); ("2", num 8); ("2.5", num 10); ("3", num 12);
    ("3.5", num 14); ("4", num 16); ("5", num 20); ("6", num 24);
    ("7", num 28); ("8", num 32); ("9", num 36); ("10", num 40);
    ("11", num 44); ("12", num 48); ("14", num 56); ("16", num 64);
    ("20", num 80); ("24", num 96); ("28", num 112); ("32", num 128);
    ("36", num 144); ("40", num 160); ("44", num 176); ("48", num 192);
    ("52", num 208); ("56", num 224); ("60", num 240); ("64", num 256);
    ("72", num 288); ("80", num 320); ("96", num 384)
  ].

Definition FONT_WEIGHTS : gmap string JSValue :=
  list_to_map [
    ("thin", num 100); ("extralight", num 200); ("light", num 300);
    ("normal", num 400); ("medium", num 500); ("semibold", num 600);
    ("bold", num 700); ("extrabold", num 800); ("black", num 900)
  ].

Definition BORDER_RADIUS : gmap string JSValue :=
  list_to_map [
    ("none", num 0); ("sm", num 2); ("", num 4); ("md", num 6);
    ("lg", num 8); ("xl", num 12); ("2xl", num 16); ("3xl", num 24);
    ("full", num 9999)
  ].

Definition BORDER_WIDTH : gmap string JSValue :=
  list_to_map [
    ("", num 1); ("0", num 0); ("2", num 2); ("4", num 4); ("8", num 8)
  ].

Definition OPACITY : gmap string JSValue :=
  list_to_map [
    ("0", num 0); ("5", num 0.05); ("10", num 0.1); ("20", num 0.2);
    ("25", num 0.25); ("30", num 0.3); ("40", num 0.4); ("50", num 0.5);
    ("60", num 0.6); ("70", num 0.7); ("75", num 0.75); ("80", num 0.8);
    ("90", num 0.9); ("95", num 0.95); ("100", num 1)
  ].

Definition COLORS : gmap string JSValue :=
  list_to_map [
    ("transparent", VStr "transparent"); ("current", VStr "currentColor");
    ("black", VStr "#000000"); ("white", VStr "#ffffff");
    ("gray-50", VStr "#f9fafb"); ("gray-100", VStr "#f3f4f6");
    ("gray-200", VStr "#e5e7eb"); ("gray-300", VStr "#d1d5db");
    ("gray-400", VStr "#9ca3af"); ("gray-500", VStr "#6b7280");
    ("gray-600", VStr "#4b5563"); ("gray-700", VStr "#374151");
    ("gray-800", VStr "#1f2937"); ("gray-900", VStr "#111827");
    ("gray-950", VStr "#030712"); ("slate-50", VStr "#f8fafc");
    ("slate-100", VStr "#f1f5f9"); ("slate-200", VStr "#e2e8f0");
    ("slate-300", VStr "#cbd5e1"); ("slate-400", VStr "#94a3b8");
    ("slate-500", VStr "#64748b"); ("slate-600", VStr "#475569");
    ("slate-700", VStr "#334155"); ("slate-800", VStr "#1e293b");
    ("slate-900", VStr "#0f172a"); ("slate-950", VStr "#020617");
    ("red-50", VStr "#fef2f2"); ("red-100", VStr "#fee2e2");
    ("red-200", VStr "#fecaca"); ("red-300", VStr "#fca5a5");
    ("red-400", VStr "#f87171"); ("red-500", VStr "#ef4444");
    ("red-600", VStr "#dc2626"); ("red-700", VStr "#b91c1c");
    ("red-800", VStr "#991b1b"); ("red-900", VStr "#7f1d1d");
    ("red-950", VStr "#450a0a"); ("orange-50", VStr "#fff7ed");
    ("orange-100", VStr "#ffedd5"); ("orange-200", VStr "#fed7aa");
    ("orange-300", VStr "#fdba74"); ("orange-400", VStr "#fb923c");
    ("orange-500", VStr "#f97316"); ("orange-600", VStr "#ea580c");
    ("orange-700", VStr "#c2410c"); ("orange-800", VStr "#9a3412");
    ("orange-900", VStr "#7c2d12"); ("orange-950", VStr "#431407");
    ("yellow-50", VStr "#fefce8"); ("yellow-100", VStr "#fef9c3");
    ("yellow-200", VStr "#fef08a"); ("yellow-300", VStr "#fde047");
    ("yellow-400", VStr "#facc15"); ("yellow-500", VStr "#eab308");
    ("yellow-600", VStr "#ca8a04"); ("yellow-700", VStr "#a16207");
    ("yellow-800", VStr "#854d0e"); ("yellow-900", VStr "#713f12");
    ("yellow-950", VStr "#422006"); ("green-50", VStr "#f0fdf4");
    ("green-100", VStr "#dcfce7"); ("green-200", VStr "#bbf7d0");
    ("green-300", VStr "#86efac"); ("green-400", VStr "#4ade80");
    ("green-500", VStr "#22c55e"); ("green-600", VStr "#16a34a");
    ("green-700", VStr "#15803d"); ("green-800", VStr "#166534");
    ("green-900", VStr "#14532d"); ("green-950", VStr "#052e16");
    ("blue-50", VStr "#eff6ff"); ("blue-100", VStr "#dbeafe");
    ("blue-200", VStr "#bfdbfe"); ("blue-300", VStr "#93c5fd");
    ("blue-400", VStr "#60a5fa"); ("blue-500", VStr "#3b82f6");
    ("blue-600", VStr "#2563eb"); ("blue-700", VStr "#1d4ed8");
    ("blue-800", VStr "#1e40af"); ("blue-900", VStr "#1e3a8a");
    ("blue-950", VStr "#172554"); ("indigo-50", VStr "#eef2ff");
    ("indigo-100", VStr "#e0e7ff"); ("indigo-200", VStr "#c7d2fe");
    ("indigo-300", VStr "#a5b4fc"); ("indigo-400", VStr "#818cf8");
    ("indigo-500", VStr "#6366f1"); ("indigo-600", VStr "#4f46e5");
    ("indigo-700", VStr "#4338ca"); ("indigo-800", VStr "#3730a3");
    ("indigo-900", VStr "#312e81"); ("indigo-950", VStr "#1e1b4b");
    ("purple-50", VStr "#faf5ff"); ("purple-100", VStr "#f3e8ff");
    ("purple-200", VStr "#e9d5ff"); ("purple-300", VStr "#d8b4fe");
    ("purple-400", VStr "#c084fc"); ("purple-500", VStr "#a855f7");
    ("purple-600", VStr "#9333ea"); ("purple-700", VStr "#7e22ce");
    ("purple-800", VStr "#6b21a8"); ("purple-900", VStr "#581c87");
    ("purple-950", VStr "#3b0764"); ("pink-50", VStr "#fdf2f8");
    ("pink-100", VStr "#fce7f3"); ("pink-200", VStr "#fbcfe8");
    ("pink-300", VStr "#f9a8d4"); ("pink-400", VStr "#f472b6");
    ("pink-500", VStr "#ec4899"); ("pink-600", VStr "#db2777");
    ("pink-700", VStr "#be185d"); ("pink-800", VStr "#9d174d");
    ("pink-900", VStr "#831843"); ("pink-950", VStr "#500724")
  ].

Definition FONT_SIZES : gmap string (Q * Q) :=
  list_to_map [
    ("xs", (12, 16)); ("sm", (14, 20)); ("base", (16, 24));
    ("lg", (18, 28)); ("xl", (20, 28)); ("2xl", (24, 32));
    ("3xl", (30, 36)); ("4xl", (36, 40)); ("5xl", (48, 48));
    ("6xl", (60, 60)); ("7xl", (72, 72)); ("8xl", (96, 96));
    ("9xl", (128, 128))
  ].

(** [FONT_SIZES[key]], as the pair of its [fontSize] and [lineHeight]
    members; [None] when the lookup gives [undefined].  An inherited member
    is an object without these two properties. *)
Definition fontSizeGet (key : string) : option (JSValue * JSValue) :=
  match FONT_SIZES !! key with
  | Some (fontSize, lineHeight) => Some (num fontSize, num lineHeight)
  | None => if isInherited key then Some (VUndefined, VUndefined) else None
  end.

(** ** The rules of [parseClass]

    [parseClass(cls, style)] is a sequence of guarded blocks, each ending
    in [return].  A rule is one group of these blocks: it gives the style
    after the block that fired, or [None] when control falls through to
    the next group. *)
Definition Rule := string -> CSSProperties -> option CSSProperties.

(** [if (v !== undefined) { style.k = v }] *)
Definition assignDefined (k : string) (v : JSValue) (style : CSSProperties)
  : CSSProperties :=
  if isUndefined v then style else <[k := v]> style.

Definition displayRule : Rule := fun cls style =>
  if cls =? "flex" then Some (<["display" := VStr "flex"]> style)
  else if cls =? "hidden" then Some (<["display" := VStr "none"]> style)
  else None.

Definition flexDirectionRule : Rule := fun cls style =>
  if cls =? "flex-row" then Some (<["flexDirection" := VStr "row"]> style)
  else if cls =? "flex-row-reverse" then Some (<["flexDirection" := VStr "row-reverse"]> style)
  else if cls =? "flex-col" then Some (<["flexDirection" := VStr "column"]> style)
  else if cls =? "flex-col-reverse" then Some (<["flexDirection" := VStr "column-reverse"]> style)
  else None.

Definition flexWrapRule : Rule := fun cls style =>
  if cls =? "flex-wrap" then Some (<["flexWrap" := VStr "wrap"]> style)
  else if cls =? "flex-wrap-reverse" then Some (<["flexWrap" := VStr "wrap-reverse"]> style)
  else if cls =? "flex-nowrap" then Some (<["flexWrap" := VStr "nowrap"]> style)
  else None.

Definition flexGrowShrinkRule : Rule := fun cls style =>
  if cls =? "flex-1" then Some (<["flex" := VStr "1 1 0%"]> style)
  else if cls =? "flex-auto" then Some (<["flex" := VStr "1 1 auto"]> style)
  else if cls =? "flex-initial" then Some (<["flex" := VStr "0 1 auto"]> style)
  else if cls =? "flex-none" then Some (<["flex" := VStr "none"]> style)
  else if cls =? "grow" then Some (<["flexGrow" := num 1]> style)
  else if cls =? "grow-0" then Some (<["flexGrow" := num 0]> style)
  else if cls =? "shrink" then Some (<["flexShrink" := num 1]> style)
  else if cls =? "shrink-0" then Some (<["flexShrink" := num 0]> style)
  else None.

Definition justifyContentRule : Rule := fun cls style =>
  if cls =? "justify-start" then Some (<["justifyContent" := VStr "flex-start"]> style)
  else if cls =? "justify-end" then Some (<["justifyContent" := VStr "flex-end"]> style)
  else if cls =? "justify-center" then Some (<["justifyContent" := VStr "center"]> style)
  else if cls =? "justify-between" then Some (<["justifyContent" := VStr "space-between"]> style)
  else if cls =? "justify-around" then Some (<["justifyContent" := VStr "space-around"]> style)
  else if cls =? "justify-evenly" then Some (<["justifyContent" := VStr "space-evenly"]> style)
  else None.

Definition alignItemsRule : Rule := fun cls style =>
  if cls =? "items-start" then Some (<["alignItems" := VStr "flex-start"]> style)
  else if cls =? "items-end" then Some (<["alignItems" := VStr "flex-end"]> style)
  else if cls =? "items-center" then Some (<["alignItems" := VStr "center"]> style)
  else if cls =? "items-baseline" then Some (<["alignItems" := VStr "baseline"]> style)
  else if cls =? "items-stretch" then Some (<["alignItems" := VStr "stretch"]> style)
  else None.

Definition alignSelfRule : Rule := fun cls style =>
  if cls =? "self-auto" then Some (<["alignSelf" := VStr "auto"]> style)
  else if cls =? "self-start" then Some (<["alignSelf" := VStr "flex-start"]> style)
  else if cls =? "self-end" then Some (<["alignSelf" := VStr "flex-end"]> style)
  else if cls =? "self-center" then Some (<["alignSelf" := VStr "center"]> style)
  else if cls =? "self-stretch" then Some (<["alignSelf" := VStr "stretch"]> style)
  else None.

Definition gapRule : Rule := fun cls style =>
  if startsWith "gap-" cls then
    Some (assignDefined "gap" (tableGet SPACING (slice 4 cls)) style)
  else if startsWith "gap-x-" cls then
    Some (assignDefined "columnGap" (tableGet SPACING (slice 6 cls)) style)
  else if startsWith "gap-y-" cls then
    Some (assignDefined "rowGap" (tableGet SPACING (slice 6 cls)) style)
  else None.

Definition paddingRule : Rule := fun cls style =>
  if startsWith "p-" cls then
    Some (assignDefined "padding" (tableGet SPACING (slice 2 cls)) style)
  else if startsWith "px-" cls then
    let spacing := tableGet SPACING (slice 3 cls) in
    Some (assignDefined "paddingRight" spacing (assignDefined "paddingLeft" spacing style))
  else if startsWith "py-" cls then
    let spacing := tableGet SPACING (slice 3 cls) in
    Some (assignDefined "paddingBottom" spacing (assignDefined "paddingTop" spacing style))
  else if startsWith "pt-" cls then
    Some (assignDefined "paddingTop" (tableGet SPACING (slice 3 cls)) style)
  else if startsWith "pr-" cls then
    Some (assignDefined "paddingRight" (tableGet SPACING (slice 3 cls)) style)
  else if startsWith "pb-" cls then
    Some (assignDefined "paddingBottom" (tableGet SPACING (slice 3 cls)) style)
  else if startsWith "pl-" cls then
    Some (assignDefined "paddingLeft" (tableGet SPACING (slice 3 cls)) style)
  else None.

(** One margin block: the value [auto] is written as such, any other
    value goes through the spacing scale. *)
Definition marginBlock (keys : list string) (value : string) (style : CSSProperties)
  : CSSProperties :=
  if value =? "auto"
  then fold_left (fun st k => <[k := VStr "auto"]> st) keys style
  else fold_left (fun st k => assignDefined k (tableGet SPACING value) st) keys style.

Definition marginRule : Rule := fun cls style =>
  if startsWith "m-" cls then Some (marginBlock ["margin"] (slice 2 cls) style)
  else if startsWith "mx-" cls then
    Some (marginBlock ["marginLeft"; "marginRight"] (slice 3 cls) style)
  else if startsWith "my-" cls then
    Some (marginBlock ["marginTop"; "marginBottom"] (slice 3 cls) style)
  else if startsWith "mt-" cls then Some (marginBlock ["marginTop"] (slice 3 cls) style)
  else if startsWith "mr-" cls then Some (marginBlock ["marginRight"] (slice 3 cls) style)
  else if startsWith "mb-" cls then Some (marginBlock ["marginBottom"] (slice 3 cls) style)
  else if startsWith "ml-" cls then Some (marginBlock ["marginLeft"] (slice 3 cls) style)
  else None.

Section Parser.

(** [Number(s)], and the string the template literal

      ${(num / den) * 100}%

    evaluates to. *)
Variable Number_ : string -> JSNumber.
Variable percentOf : JSNumber -> JSNumber -> string.

Definition widthRule : Rule := fun cls style =>
  if startsWith "w-" cls then
    let value := slice 2 cls in
    if value =? "full" then Some (<["width" := VStr "100%"]> style)
    else if value =? "screen" then Some (<["width" := VStr "100vw"]> style)
    else if value =? "auto" then Some (<["width" := VStr "auto"]> style)
    else if includes "/" value then
      (* Fraction like w-1/2 *)
      match map Number_ (split "/" value) with
      | n :: d :: _ =>
          if truthyNumber n && truthyNumber d
          then Some (<["width" := VStr (percentOf n d)]> style)
          else Some style
      | _ => Some style
      end
    else Some (assignDefined "width" (tableGet SPACING value) style)
  else None.

Definition minMaxWidthRule : Rule := fun cls style =>
  if startsWith "min-w-" cls then
    let value := slice 6 cls in
    if value =? "full" then Some (<["minWidth" := VStr "100%"]> style)
    else Some (assignDefined "minWidth" (tableGet SPACING value) style)
  else if startsWith "max-w-" cls then
    let value := slice 6 cls in
    if value =? "full" then Some (<["maxWidth" := VStr "100%"]> style)
    else if value =? "none" then Some (<["maxWidth" := VStr "none"]> style)
    else Some (assignDefined "maxWidth" (tableGet SPACING value) style)
  else None.

Definition heightRule : Rule := fun cls style =>
  if startsWith "h-" cls then
    let value := slice 2 cls in
    if value =? "full" then Some (<["height" := VStr "100%"]> style)
    else if value =? "screen" then Some (<["height" := VStr "100vh"]> style)
    else if value =? "auto" then Some (<["height" := VStr "auto"]> style)
    else Some (assignDefined "height" (tableGet SPACING value) style)
  else None.

Definition fontSizeRule : Rule := fun cls style =>
  if startsWith "text-" cls then
    match fontSizeGet (slice 5 cls) with
    | Some (size, leading) =>
        Some (<["lineHeight" := leading]> (<["fontSize" := size]> style))
    | None => None
    end
  else None.

Definition fontWeightRule : Rule := fun cls style =>
  if startsWith "font-" cls && negb (isUndefined (tableGet FONT_WEIGHTS (slice 5 cls)))
  then Some (<["fontWeight" := tableGet FONT_WEIGHTS (slice 5 cls)]> style)
  else None.

Definition fontStyleRule : Rule := fun cls style =>
  if cls =? "italic" then Some (<["fontStyle" := VStr "italic"]> style)
  else if cls =? "not-italic" then Some (<["fontStyle" := VStr "normal"]> style)
  else None.

(** Kebab-case to title case: the first character of every
    hyphen-separated word in upper case. *)
Definition titleCase (fontName : string) : string :=
  join " " (map (fun word => toUpperCase (charAt0 word) ++ slice 1 word)%string
                (split "-" fontName)).

Definition fontFamilyRule : Rule := fun cls style =>
  if cls =? "font-sans"
  then Some (<["fontFamily" := VStr "Inter, system-ui, sans-serif"]> style)
  else if cls =? "font-serif" then Some (<["fontFamily" := VStr "Georgia, serif"]> style)
  else if cls =? "font-mono"
  then Some (<["fontFamily" := VStr "JetBrains Mono, monospace"]> style)
  (* Custom font families like font-inter *)
  else if startsWith "font-" cls && negb (truthy (tableGet FONT_WEIGHTS (slice 5 cls)))
  then
    let fontName := slice 5 cls in
    if existsb (String.eqb fontName) ["sans"; "serif"; "mono"]
    then Some style
    else Some (<["fontFamily" := VStr (titleCase fontName)]> style)
  else None.

Definition textColorRule : Rule := fun cls style =>
  if startsWith "text-" cls && truthy (tableGet COLORS (slice 5 cls))
  then Some (<["color" := tableGet COLORS (slice 5 cls)]> style)
  else None.

Definition textAlignRule : Rule := fun cls style =>
  if cls =? "text-left" then Some (<["textAlign" := VStr "left"]> style)
  else if cls =? "text-center" then Some (<["textAlign" := VStr "center"]> style)
  else if cls =? "text-right" then Some (<["textAlign" := VStr "right"]> style)
  else if cls =? "text-justify" then Some (<["textAlign" := VStr "justify"]> style)
  else None.

Definition textDecorationRule : Rule := fun cls style =>
  if cls =? "underline" then Some (<["textDecoration" := VStr "underline"]> style)
  else if cls =? "line-through" then Some (<["textDecoration" := VStr "line-through"]> style)
  else if cls =? "no-underline" then Some (<["textDecoration" := VStr "none"]> style)
  else None.

Definition textTransformRule : Rule := fun cls style =>
  if cls =? "uppercase" then Some (<["textTransform" := VStr "uppercase"]> style)
  else if cls =? "lowercase" then Some (<["textTransform" := VStr "lowercase"]> style)
  else if cls =? "capitalize" then Some (<["textTransform" := VStr "capitalize"]> style)
  else if cls =? "normal-case" then Some (<["textTransform" := VStr "none"]> style)
  else None.

Definition letterSpacingRule : Rule := fun cls style =>
  if cls =? "tracking-tighter" then Some (<["letterSpacing" := num (-0.8)]> style)
  else if cls =? "tracking-tight" then Some (<["letterSpacing" := num (-0.4)]> style)
  else if cls =? "tracking-normal" then Some (<["letterSpacing" := num 0]> style)
  else if cls =? "tracking-wide" then Some (<["letterSpacing" := num 0.4]> style)
  else if cls =? "tracking-wider" then Some (<["letterSpacing" := num 0.8]> style)
  else if cls =? "tracking-widest" then Some (<["letterSpacing" := num 1.6]> style)
  else None.

Definition lineHeightRule : Rule := fun cls style =>
  if cls =? "leading-none" then Some (<["lineHeight" := num 1]> style)
  else if cls =? "leading-tight" then Some (<["lineHeight" := num 1.25]> style)
  else if cls =? "leading-snug" then Some (<["lineHeight" := num 1.375]> style)
  else if cls =? "leading-normal" then Some (<["lineHeight" := num 1.5]> style)
  else if cls =? "leading-relaxed" then Some (<["lineHeight" := num 1.625]> style)
  else if cls =? "leading-loose" then Some (<["lineHeight" := num 2]> style)
  else None.

Definition backgroundColorRule : Rule := fun cls style =>
  if startsWith "bg-" cls && truthy (tableGet COLORS (slice 3 cls))
  then Some (<["backgroundColor" := tableGet COLORS (slice 3 cls)]> style)
  else None.

Definition borderRadiusRule : Rule := fun cls style =>
  if cls =? "rounded"
  then Some (<["borderRadius" := tableGet BORDER_RADIUS ""]> style)
  else if startsWith "rounded-" cls
  then Some (assignDefined "borderRadius" (tableGet BORDER_RADIUS (slice 8 cls)) style)
  else None.

Definition borderWidthRule : Rule := fun cls style =>
  if cls =? "border" then
    Some (<["borderColor" := tableGet COLORS "gray-200"]>
            (<["borderStyle" := VStr "solid"]>
               (<["borderWidth" := tableGet BORDER_WIDTH ""]> style)))
  else if startsWith "border-" cls
          && negb (isUndefined (tableGet BORDER_WIDTH (slice 7 cls)))
  then
    Some (<["borderStyle" := VStr "solid"]>
            (<["borderWidth" := tableGet BORDER_WIDTH (slice 7 cls)]> style))
  else if cls =? "border-t" then
    Some (<["borderStyle" := VStr "solid"]> (<["borderTopWidth" := num 1]> style))
  else if cls =? "border-r" then
    Some (<["borderStyle" := VStr "solid"]> (<["borderRightWidth" := num 1]> style))
  else if cls =? "border-b" then
    Some (<["borderStyle" := VStr "solid"]> (<["borderBottomWidth" := num 1]> style))
  else if cls =? "border-l" then
    Some (<["borderStyle" := VStr "solid"]> (<["borderLeftWidth" := num 1]> style))
  else None.

Definition borderColorRule : Rule := fun cls style =>
  if startsWith "border-" cls && truthy (tableGet COLORS (slice 7 cls))
  then Some (<["borderColor" := tableGet COLORS (slice 7 cls)]> style)
  else None.

Definition borderStyleRule : Rule := fun cls style =>
  if cls =? "border-solid" then Some (<["borderStyle" := VStr "solid"]> style)
  else if cls =? "border-dashed" then Some (<["borderStyle" := VStr "dashed"]> style)
  else if cls =? "border-dotted" then Some (<["borderStyle" := VStr "dotted"]> style)
  else if cls =? "border-none" then Some (<["borderStyle" := VStr "none"]> style)
  else None.

Definition opacityRule : Rule := fun cls style =>
  if startsWith "opacity-" cls
  then Some (assignDefined "opacity" (tableGet OPACITY (slice 8 cls)) style)
  else None.

Definition overflowRule : Rule := fun cls style =>
  if cls =? "overflow-hidden" then Some (<["overflow" := VStr "hidden"]> style)
  else if cls =? "overflow-visible" then Some (<["overflow" := VStr "visible"]> style)
  else None.

Definition positionRule : Rule := fun cls style =>
  if cls =? "relative" then Some (<["position" := VStr "relative"]> style)
  else if cls =? "absolute" then Some (<["position" := VStr "absolute"]> style)
  else None.

Definition positionValuesRule : Rule := fun cls style =>
  if startsWith "top-" cls
  then Some (assignDefined "top" (tableGet SPACING (slice 4 cls)) style)
  else if startsWith "right-" cls
  then Some (assignDefined "right" (tableGet SPACING (slice 6 cls)) style)
  else if startsWith "bottom-" cls
  then Some (assignDefined "bottom" (tableGet SPACING (slice 7 cls)) style)
  else if startsWith "left-" cls
  then Some (assignDefined "left" (tableGet SPACING (slice 5 cls)) style)
  else None.

Definition zIndexRule : Rule := fun cls style =>
  if startsWith "z-" cls then
    match parseInt10 (slice 2 cls) with
    | NaN => Some style
    | value => Some (<["zIndex" := VNum value]> style)
    end
  else None.

Definition objectFitRule : Rule := fun cls style =>
  if cls =? "object-contain" then Some (<["objectFit" := VStr "contain"]> style)
  else if cls =? "object-cover" then Some (<["objectFit" := VStr "cover"]> style)
  else if cls =? "object-fill" then Some (<["objectFit" := VStr "fill"]> style)
  else if cls =? "object-none" then Some (<["objectFit" := VStr "none"]> style)
  else None.

(** The groups in the order of the source. *)
Definition rules : list Rule :=
  [ displayRule; flexDirectionRule; flexWrapRule; flexGrowShrinkRule; justifyContentRule;
    alignItemsRule; alignSelfRule; gapRule; paddingRule; marginRule; widthRule; minMaxWidthRule; heightRule;
    fontSizeRule; fontWeightRule; fontStyleRule; fontFamilyRule; textColorRule; textAlignRule;
    textDecorationRule; textTransformRule; letterSpacingRule; lineHeightRule;
    backgroundColorRule; borderRadiusRule; borderWidthRule; borderColorRule; borderStyleRule;
    opacityRule; overflowRule; positionRule; positionValuesRule; zIndexRule; objectFitRule ].

Fixpoint firstMatch (rs : list Rule) (cls : string) (style : CSSProperties)
  : option CSSProperties :=
  match rs with
  | [] => None
  | r :: rest =>
      match r cls style with
      | Some style' => Some style'
      | None => firstMatch rest cls style
      end
  end.

(** Parse a single Tailwind class: the style after the call.  A class no
    block recognizes leaves the style as it is. *)
Definition parseClass (cls : string) (style : CSSProperties) : CSSProperties :=
  default style (firstMatch rules cls style).

(** Parse Tailwind classes into CSSProperties. *)
Definition parseTailwindClasses (className : string) : CSSProperties :=
  if isEmpty className then ∅
  else
    let classes := List.filter (fun c => negb (isEmpty c)) (splitWhitespace className) in
    fold_left (fun style cls => parseClass cls style) classes ∅.

(** Helper function for inline usage. *)
Definition tw (className : string) : CSSProperties := parseTailwindClasses className.

End Parser.

End Tailwind.

Import Tailwind.

(* ===================================================================== *)
(** * The Intermediate Representation (packages/core/src/ir/types.ts)      *)
(* ===================================================================== *)

Module IR.

Inductive IRNodeType := document | page | view | text | image | link.

#[global] Instance IRNodeType_eq_dec : EqDecision IRNodeType.
Proof. solve_decision. Defined.

(** An IR node: its type, its property bag, its flattened style and its
    children. *)
Inductive IRNode :=
| Node (type : IRNodeType) (props : gmap string JSValue)
       (style : gmap string JSValue) (children : list IRNode).

Definition nodeType (n : IRNode) : IRNodeType := let 'Node t _ _ _ := n in t.
Definition nodeProps (n : IRNode) : gmap string JSValue := let 'Node _ p _ _ := n in p.
Definition nodeStyle (n : IRNode) : gmap string JSValue := let 'Node _ _ s _ := n in s.
Definition nodeChildren (n : IRNode) : list IRNode := let 'Node _ _ _ c := n in c.

Record PageSize := { width : Q; height : Q }.

Record Margin := { top : JSNumber; right : JSNumber; bottom : JSNumber; left : JSNumber }.

Record IRPage := {
  size : PageSize;
  margin : Margin;
  children : list IRNode
}.

Record IRFontUsage := {
  family : string;
  weights : list JSValue;
  styles : list JSValue
}.

Record IRImageUsage := {
  id : string;
  src : string;
  originalSrc : JSValue
}.

Record IRDocumentMetadata := {
  title : JSValue;
  author : JSValue;
  subject : JSValue;
  creator : string;
  creationDate : Z
}.

Record IRDocument := {
  version : Z;
  pages : list IRPage;
  fonts : list IRFontUsage;
  images : list IRImageUsage;
  metadata : option IRDocumentMetadata
}.

(** Standard page sizes in points. *)
Definition A4 : PageSize := {| width := 595.28; height := 841.89 |}.

Definition PageSizes : list (string * PageSize) :=
  [ ("A4", A4);
    ("A3", {| width := 841.89; height := 1190.55 |});
    ("A5", {| width := 419.53; height := 595.28 |});
    ("Letter", {| width := 612; height := 792 |});
    ("Legal", {| width := 612; height := 1008 |});
    ("Tabloid", {| width := 792; height := 1224 |}) ].

(** Resolve a page size from name or dimensions.  The argument has type
    [PageSizeName | PageSize | undefined].  A value that type excludes,
    which the code would hand back as it is, and a name that is not one
    of the six are read as A4; the one such value whose use throws, null
    on a page to be turned, is dealt with where the page is built. *)
Definition resolvePageSize (size : JSValue) : PageSize :=
  match size with
  | VUndefined => A4
  | VStr name => default A4 (assocGet name PageSizes)
  | VSize w h => {| width := w; height := h |}
  | _ => A4
  end.

Definition uniformMargin (n : JSNumber) : Margin :=
  {| top := n; right := n; bottom := n; left := n |}.

Definition edge (e : option Q) : JSNumber := Fin (default 0%Q e).

Section Margins.

(** [parseFloat] of the platform. *)
Variable parseFloat_ : string -> JSNumber.

(** Convert a margin value to a Margin object.  A string of one, two or
    four parts is read as CSS does; any other value is read through its
    [top], [right], [bottom] and [left] members, zero where undefined.
    Null has no members: reading [top] of it throws a TypeError. *)
Definition normalizeMargin (margin : JSValue) : Exception + Margin :=
  match margin with
  | VUndefined => inr (uniformMargin (Fin 0))
  | VNum n => inr (uniformMargin n)
  | VStr s =>
      inr match map parseFloat_ (splitWhitespace s) with
          | [val] => uniformMargin val
          | [vertical; horizontal] =>
              {| top := vertical; right := horizontal;
                 bottom := vertical; left := horizontal |}
          | [t; r; b; l] => {| top := t; right := r; bottom := b; left := l |}
          | _ => uniformMargin (Fin 0)
          end
  | VEdges t r b l =>
      inr {| top := edge t; right := edge r; bottom := edge b; left := edge l |}
  | VNull => inl (OtherError "Cannot read properties of null (reading 'top')")
  | _ => inr (uniformMargin (Fin 0))
  end.

End Margins.

End IR.

(* ===================================================================== *)
(** * Font resolution (packages/core/src/fonts/loader.ts)                  *)
(* ===================================================================== *)

Module Fonts.

Import IR.

Record LoadedFont := {
  fontFamily : string;
  fontWeight : JSValue;
  fontStyle : JSValue;
  fontData : list byte
}.

(** Default font to use if none specified. *)
Definition DEFAULT_FONT : string := "Inter".

(** Normalize font family name for consistent lookup: remove quotes, lower
    the case, trim, and turn every run of whitespace into a hyphen. *)
Definition normalizeFamily (family : string) : string :=
  replaceWhitespaceRuns (trim (toLowerCase (removeQuotes family))).

Definition weightMap : gmap string JSValue :=
  list_to_map [
    ("thin", num 100); ("hairline", num 100); ("extralight", num 200);
    ("ultralight", num 200); ("light", num 300); ("normal", num 400);
    ("regular", num 400); ("medium", num 500); ("semibold", num 600);
    ("demibold", num 600); ("bold", num 700); ("extrabold", num 800);
    ("ultrabold", num 800); ("black", num 900); ("heavy", num 900)
  ].

(** [table[weight.toLowerCase()] ?? (parseInt(weight, 10) || 400)] *)
Definition weightOfString (table : gmap string JSValue) (weight : string) : JSValue :=
  nullish (tableGet table (toLowerCase weight))
          (let parsed := parseInt10 weight in
           if truthyNumber parsed then VNum parsed else num 400).

(** A TypeError of the platform, with its message. *)
Definition typeError {A} (msg : string) : Exception + A :=
  inl (OtherError msg).

(** Normalize font weight to a number.  A value that is neither undefined,
    a number nor a string has no [toLowerCase] method. *)
Definition normalizeWeight (weight : JSValue) : Exception + JSValue :=
  match weight with
  | VUndefined => inr VUndefined
  | VNum n => inr (VNum n)
  | VStr s => inr (weightOfString weightMap s)
  | _ => typeError "weight.toLowerCase is not a function"
  end.

(** The font map of [detectFontsFromIR]: family to (weights, styles). *)
Abbreviation FontMap := (list (string * (list JSValue * list JSValue))).

(** The body of [walk] for one node, before the recursion. *)
Definition visit (style : gmap string JSValue) (fontMap : FontMap)
  : Exception + FontMap :=
  let family := get style "fontFamily" in
  if truthy family then
    match family with
    | VStr familyName =>
        let normalizedFamily := normalizeFamily familyName in
        match normalizeWeight (get style "fontWeight") with
        | inl e => inl e
        | inr w =>
            let weight := nullish w (num 400) in
            let fontStyle := nullish (get style "fontStyle") (VStr "normal") in
            let fontMap1 :=
              if assocHas normalizedFamily fontMap then fontMap
              else assocSet normalizedFamily ([], []) fontMap in
            match assocGet normalizedFamily fontMap1 with
            | Some (ws, ss) =>
                inr (assocSet normalizedFamily (setAdd weight ws, setAdd fontStyle ss)
                              fontMap1)
            | None => inr fontMap1
            end
        end
    | _ => typeError "family.replace is not a function"
    end
  else inr fontMap.

Fixpoint walk (node : IRNode) (fontMap : FontMap) : Exception + FontMap :=
  match node with
  | Node _ _ style children =>
      match visit style fontMap with
      | inl e => inl e
      | inr fontMap1 =>
          (* Recurse into children *)
          (fix walkAll (nodes : list IRNode) (m : FontMap) : Exception + FontMap :=
             match nodes with
             | [] => inr m
             | child :: rest =>
                 match walk child m with
                 | inl e => inl e
                 | inr m' => walkAll rest m'
                 end
             end) children fontMap1
      end
  end.

Fixpoint walkNodes (nodes : list IRNode) (m : FontMap) : Exception + FontMap :=
  match nodes with
  | [] => inr m
  | child :: rest =>
      match walk child m with
      | inl e => inl e
      | inr m' => walkNodes rest m'
      end
  end.

Fixpoint walkPages (ps : list IRPage) (m : FontMap) : Exception + FontMap :=
  match ps with
  | [] => inr m
  | p :: rest =>
      match walkNodes (children p) m with
      | inl e => inl e
      | inr m' => walkPages rest m'
      end
  end.

Definition usageOfEntry (entry : string * (list JSValue * list JSValue)) : IRFontUsage :=
  let '(fam, (ws, ss)) := entry in
  {| family := fam; weights := sortNumeric ws; styles := ss |}.

(** Detect all fonts used in an IR document. *)
Definition detectFontsFromIR (ir : IRDocument) : Exception + list IRFontUsage :=
  (* Walk all pages *)
  match walkPages (pages ir) [] with
  | inl e => inl e
  | inr fontMap =>
      (* Add default font if no fonts detected *)
      let fontMap1 :=
        if (length fontMap =? 0)%nat
        then assocSet (normalizeFamily DEFAULT_FONT) ([num 400], [VStr "normal"]) fontMap
        else fontMap in
      (* Convert to array *)
      inr (map usageOfEntry fontMap1)
  end.

(** One call [loadFont(family, weight, style)]. *)
Definition FontRequest : Type := string * JSValue * JSValue.

(** The calls of the three nested loops, in the order they are made. *)
Definition requestsOf (usage : list IRFontUsage) : list FontRequest :=
  flat_map (fun u =>
    flat_map (fun weight =>
      map (fun fontStyle => (family u, weight, fontStyle)) (styles u))
      (weights u))
    usage.

(** The fulfilled values and the rejection reasons of settled promises, each
    in the order of the promises. *)
Definition fulfilled {A} (results : list (Exception + A)) : list A :=
  omap (fun r => match r with inr v => Some v | inl _ => None end) results.

Definition rejected {A} (results : list (Exception + A)) : list Exception :=
  omap (fun r => match r with inl e => Some e | inr _ => None end) results.

Section Bulk.

(** What the promise returned by [loadFont(family, weight, style)]
    settles to.  The calls are all made before any of them is awaited,
    and [Promise.allSettled] waits for every one of them. *)
Variable loadFont : string -> JSValue -> JSValue -> Exception + LoadedFont.

Definition settle (r : FontRequest) : Exception + LoadedFont :=
  let '(fam, weight, fontStyle) := r in loadFont fam weight fontStyle.

(** Load all fonts needed for a document. *)
Definition loadFontsForDocument (ir : IRDocument) : Exception + list LoadedFont :=
  match detectFontsFromIR ir with
  | inl e => inl e
  | inr usage =>
      (* Load all fonts in parallel *)
      let results := map settle (requestsOf usage) in
      let loaded := fulfilled results in
      let errors := rejected results in
      (* If some fonts failed but we have at least one, continue with
         what we have *)
      match loaded, errors with
      | [], e :: _ => inl e
      | _, _ => inr loaded
      end
  end.

End Bulk.

End Fonts.

(* ===================================================================== *)
(** * Component trees and the primitive components
      (packages/react/src/components.tsx)                                  *)
(* ===================================================================== *)

Module React.

(** A function used as an element type.  Functions are reference values:
    an element holds the identity of its component, and the component is
    called through [callComponent]. *)
Inductive ComponentRef :=
| DocumentFn | PageFn | ViewFn | TextFn | ImageFn | LinkFn
| UserFn (name : string).

Inductive ElementType :=
| HostType (tag : string)
| FunctionType (fn : ComponentRef).

(** A renderable value, and the props of an element.  The three props the
    converter treats apart ([className], [style], [children]) are fields;
    all other props are in [attrs].  Of the iterables only arrays are
    represented. *)
Inductive ReactNode :=
| RNull
| RUndefined
| RBool (b : bool)
| RString (s : string)
| RNumber (n : JSNumber)
| RArray (items : list ReactNode)
| RElement (type : ElementType) (props : Props)
with Props :=
| mkProps (className : option string) (style : option CSSProperties)
          (attrs : gmap string JSValue) (children : ReactNode).

Definition className (p : Props) : option string := let 'mkProps c _ _ _ := p in c.
Definition style (p : Props) : option CSSProperties := let 'mkProps _ s _ _ := p in s.
Definition attrs (p : Props) : gmap string JSValue := let 'mkProps _ _ a _ := p in a.
Definition children (p : Props) : ReactNode := let 'mkProps _ _ _ c := p in c.

Definition ReactElement : Type := ElementType * Props.

Definition noProps : Props := mkProps None None ∅ RUndefined.

(** Custom element type names used internally. *)
Definition DOCUMENT : string := "paperflow-document".
Definition PAGE : string := "paperflow-page".
Definition VIEW : string := "paperflow-view".
Definition TEXT : string := "paperflow-text".
Definition IMAGE : string := "paperflow-image".
Definition LINK : string := "paperflow-link".

(** [createElement(type, props, children)] with one child argument. *)
Definition createElement (type : string) (cls : option string)
           (sty : option CSSProperties) (attributes : gmap string JSValue)
           (kids : ReactNode) : ReactNode :=
  RElement (HostType type) (mkProps cls sty attributes kids).

(** A destructuring default [k = d]: it applies when the prop is absent or
    undefined. *)
Definition withDefault (k : string) (d : JSValue) (a : gmap string JSValue)
  : gmap string JSValue :=
  if isUndefined (get a k) then <[k := d]> a else a.

Definition Document (p : Props) : ReactNode :=
  createElement DOCUMENT (className p) (style p) (attrs p) (children p).

Definition Page (p : Props) : ReactNode :=
  createElement PAGE (className p) (style p)
    (withDefault "size" (VStr "A4")
       (withDefault "margin" (num 40)
          (withDefault "orientation" (VStr "portrait") (attrs p))))
    (children p).

Definition View (p : Props) : ReactNode :=
  createElement VIEW (className p) (style p)
    (withDefault "wrap" (VBool true) (attrs p)) (children p).

Definition Text (p : Props) : ReactNode :=
  createElement TEXT (className p) (style p)
    (withDefault "wrap" (VBool true) (attrs p)) (children p).

Definition Image (p : Props) : ReactNode :=
  createElement IMAGE (className p) (style p)
    (<["src" := get (attrs p) "src"]> (withDefault "cache" (VBool true) (attrs p)))
    (children p).

Definition Link (p : Props) : ReactNode :=
  createElement LINK (className p) (style p)
    (<["href" := get (attrs p) "href"]> (attrs p)) (children p).

(** Calling the function an element has as its type. *)
Definition callComponent (user : string -> Props -> ReactNode)
           (fn : ComponentRef) (p : Props) : ReactNode :=
  match fn with
  | DocumentFn => Document p
  | PageFn => Page p
  | ViewFn => View p
  | TextFn => Text p
  | ImageFn => Image p
  | LinkFn => Link p
  | UserFn name => user name p
  end.

(** JSX: [<C className=... style=... attrs...>children</C>]. *)
Definition jsx (fn : ComponentRef) (p : Props) : ReactNode :=
  RElement (FunctionType fn) p.

End React.

(* ===================================================================== *)
(** * The Tree Converter (packages/react/src/react-to-ir.ts)               *)
(* ===================================================================== *)

Module ReactToIR.

Import IR React.

Record ConversionContext := {
  ctxFonts : list (string * list JSValue);
  ctxImages : list (string * IRImageUsage)
}.

Definition emptyContext : ConversionContext := {| ctxFonts := []; ctxImages := [] |}.

(** The outcome of a call that may not return: [None] when the evaluation
    is still running after [fuel] nested calls or loop iterations,
    otherwise the exception thrown or the value returned. *)
Abbreviation Run A := (option (Exception + A)).

(** Check if an object is a React-like element. *)
Definition isReactElement (n : ReactNode) : bool :=
  match n with RElement _ _ => true | _ => false end.

(** Get the IR node type from a React element type. *)
Definition getElementType (type : ElementType) : IRNodeType :=
  match type with
  | HostType tag =>
      if tag =? DOCUMENT then document
      else if tag =? PAGE then page
      else if tag =? VIEW then view
      else if tag =? TEXT then text
      else if tag =? IMAGE then image
      else if tag =? LINK then link
      else view
  (* Function component or class component - treat as view *)
  | FunctionType _ => view
  end.

(** Extract relevant props for an element type: every prop but [style],
    [className] and [children], when its value is not undefined. *)
Definition extractProps (p : Props) (elementType : IRNodeType) : gmap string JSValue :=
  filter (fun kv => kv.2 ≠ VUndefined) (attrs p).

(** Merge Tailwind styles with inline styles (inline takes precedence):
    the spread of [tailwindStyle] followed by the spread of [inlineStyle]. *)
Definition mergeStyles (tailwindStyle inlineStyle : CSSProperties) : CSSProperties :=
  inlineStyle ∪ tailwindStyle.

(** Convert CSS properties to IR style: the entries whose value is neither
    undefined nor null. *)
Definition convertStyle (sty : CSSProperties) : gmap string JSValue :=
  filter (fun kv => kv.2 ≠ VUndefined ∧ kv.2 ≠ VNull) sty.

Definition parseWeightTable : gmap string JSValue :=
  list_to_map [
    ("thin", num 100); ("extralight", num 200); ("light", num 300);
    ("normal", num 400); ("medium", num 500); ("semibold", num 600);
    ("bold", num 700); ("extrabold", num 800); ("black", num 900)
  ].

(** Parse font weight string to number. *)
Definition parseWeight (weight : string) : JSValue :=
  Fonts.weightOfString parseWeightTable weight.

(** The key under which a family is tracked: the first comma-separated
    part, trimmed, with the quote characters removed. *)
Definition primaryFamilyOf (fontFamily : string) : string :=
  match map (fun f => removeQuotes (trim f)) (split "," fontFamily) with
  | primaryFamily :: _ => primaryFamily
  | [] => ""
  end.

(** Track fonts used in styles. *)
Definition trackFonts (sty : CSSProperties) (context : ConversionContext)
  : Exception + ConversionContext :=
  let fontFamily := get sty "fontFamily" in
  let fontWeight := nullish (get sty "fontWeight") (num 400) in
  if truthy fontFamily then
    match fontFamily with
    | VStr familyString =>
        (* Parse font family (might be comma-separated) *)
        let primaryFamily := primaryFamilyOf familyString in
        if negb (isEmpty primaryFamily) then
          let fonts1 :=
            if assocHas primaryFamily (ctxFonts context) then ctxFonts context
            else assocSet primaryFamily [] (ctxFonts context) in
          let weights := default [] (assocGet primaryFamily fonts1) in
          match fontWeight with
          | VNum _ =>
              inr {| ctxFonts := assocSet primaryFamily (setAdd fontWeight weights) fonts1;
                     ctxImages := ctxImages context |}
          | VStr w =>
              inr {| ctxFonts := assocSet primaryFamily (setAdd (parseWeight w) weights) fonts1;
                     ctxImages := ctxImages context |}
          | _ => Fonts.typeError "weight.toLowerCase is not a function"
          end
        else inr context
    | _ => Fonts.typeError "fontFamily.split is not a function"
    end
  else inr context.

(** Track images used in the document. *)
Definition trackImage (source : JSValue) (context : ConversionContext)
  : ConversionContext :=
  let count := showNat (length (ctxImages context)) in
  let srcString :=
    match source with
    | VStr s => s
    | _ => ("async-" ++ count)%string
    end in
  if negb (assocHas srcString (ctxImages context)) then
    {| ctxFonts := ctxFonts context;
       ctxImages := assocSet srcString
                      {| id := ("img-" ++ count)%string; src := srcString; originalSrc := source |}
                      (ctxImages context) |}
  else context.

(** The loop over an array of children: every child is converted in turn,
    in the context the previous one left, and the nodes are appended. *)
Fixpoint eachChild
         (convert : ReactNode -> ConversionContext -> Run (list IRNode * ConversionContext))
         (items : list ReactNode) (context : ConversionContext)
  : Run (list IRNode * ConversionContext) :=
  match items with
  | [] => Some (inr ([], context))
  | child :: rest =>
      match convert child context with
      | None => None
      | Some (inl e) => Some (inl e)
      | Some (inr (nodes, context1)) =>
          match eachChild convert rest context1 with
          | None => None
          | Some (inl e) => Some (inl e)
          | Some (inr (more, context2)) => Some (inr (nodes ++ more, context2))
          end
      end
  end.

Definition textLeaf (content : string) : IRNode :=
  Node text {[ "content" := VStr content ]} ∅ [].

Section Converter.

(** [Number], the fraction template and [String(n)] of the platform, and
    the functions of the user's own components. *)
Variable Number_ : string -> JSNumber.
Variable percentOf : JSNumber -> JSNumber -> string.
Variable numberToString : JSNumber -> string.
Variable userComponents : string -> Props -> ReactNode.

(** Unwrap function components to get the underlying element.  The loop
    runs while the type of [current] is a function; it stops early when
    the function returns something that is not an element.  [fuel]
    bounds the number of calls. *)
Fixpoint unwrapElement (fuel : nat) (current : ReactElement) : option ReactElement :=
  match current with
  | (FunctionType fn, p) =>
      match fuel with
      | O => None
      | S fuel' =>
          match callComponent userComponents fn p with
          | RElement type' props' => unwrapElement fuel' (type', props')
          | _ => Some current
          end
      end
  | (HostType _, _) => Some current
  end.

(** The style of a node: the class-derived style with the explicit style
    merged on top. *)
Definition mergedStyleOf (p : Props) : CSSProperties :=
  let tailwindStyle :=
    match className p with
    | Some cls => if isEmpty cls then ∅ else parseTailwindClasses Number_ percentOf cls
    | None => ∅
    end in
  let inlineStyle := default ∅ (style p) in
  mergeStyles tailwindStyle inlineStyle.

(** Convert a React element to an IR node, and convert React children to
    IR nodes.  [fuel] bounds the depth of the nested calls. *)
Fixpoint convertElement (fuel : nat) (element : ReactElement)
         (context : ConversionContext) {struct fuel}
  : Run (IRNode * ConversionContext) :=
  match fuel with
  | O => None
  | S fuel' =>
      (* Unwrap function components first *)
      match unwrapElement fuel' element with
      | None => None
      | Some (type, p) =>
          (* Get the element type *)
          let elementType := getElementType type in
          (* Merge className (Tailwind) with style prop *)
          let mergedStyle := mergedStyleOf p in
          (* Track fonts used in styles *)
          match trackFonts mergedStyle context with
          | inl e => Some (inl e)
          | inr context1 =>
              (* Handle image sources *)
              let context2 :=
                if bool_decide (elementType = image) && truthy (get (attrs p) "src")
                then trackImage (get (attrs p) "src") context1
                else context1 in
              (* Convert children *)
              match convertChildren fuel' (children p) context2 with
              | None => None
              | Some (inl e) => Some (inl e)
              | Some (inr (kids, context3)) =>
                  (* Build the IR node *)
                  Some (inr (Node elementType (extractProps p elementType)
                                  (convertStyle mergedStyle) kids,
                             context3))
              end
          end
      end
  end
with convertChildren (fuel : nat) (kids : ReactNode)
                     (context : ConversionContext) {struct fuel}
  : Run (list IRNode * ConversionContext) :=
  match fuel with
  | O => None
  | S fuel' =>
      match kids with
      (* Handle null/undefined/boolean *)
      | RNull | RUndefined | RBool _ => Some (inr ([], context))
      (* Handle arrays *)
      | RArray items => eachChild (convertChildren fuel') items context
      (* Handle React elements *)
      | RElement type p =>
          match convertElement fuel' (type, p) context with
          | None => None
          | Some (inl e) => Some (inl e)
          | Some (inr (node, context1)) => Some (inr ([node], context1))
          end
      (* Handle strings and numbers as text content *)
      | RString s => Some (inr ([textLeaf s], context))
      | RNumber n => Some (inr ([textLeaf (numberToString n)], context))
      end
  end.

(** [parseFloat] and the clock of the platform. *)
Variable parseFloat_ : string -> JSNumber.
Variable now : Z.

(** Convert an IR node to a page.  A size that is null comes back from
    [resolvePageSize] as it is, and its height cannot be read. *)
Definition convertToPage (node : IRNode) : Exception + IRPage :=
  let nodeSize := get (nodeProps node) "size" in
  let nodeMargin := get (nodeProps node) "margin" in
  let orientation := get (nodeProps node) "orientation" in
  (* Resolve page size *)
  let pageSize := resolvePageSize nodeSize in
  (* Handle orientation *)
  let oriented : Exception + PageSize :=
    if bool_decide (orientation = VStr "landscape")
    then
      if bool_decide (nodeSize = VNull)
      then Fonts.typeError "Cannot read properties of null (reading 'height')"
      else inr {| width := height pageSize; height := width pageSize |}
    else inr pageSize in
  match oriented with
  | inl e => inl e
  | inr pageSize =>
      match normalizeMargin parseFloat_ nodeMargin with
      | inl e => inl e
      | inr pageMargin =>
          inr {| size := pageSize;
                 margin := pageMargin;
                 IR.children := nodeChildren node |}
      end
  end.

(** The loop that pushes the pages of the children of a document: it
    stops at the first page that throws. *)
Fixpoint convertPages (nodes : list IRNode) : Exception + list IRPage :=
  match nodes with
  | [] => inr []
  | child :: rest =>
      match convertToPage child with
      | inl e => inl e
      | inr pg =>
          match convertPages rest with
          | inl e => inl e
          | inr pgs => inr (pg :: pgs)
          end
      end
  end.

(** The pages of the document, by the type of the converted root. *)
Definition documentPages (rootNode : IRNode) : Exception + list IRPage :=
  match nodeType rootNode with
  | document =>
      (* Extract pages from children *)
      convertPages (List.filter (fun child => bool_decide (nodeType child = page))
                                (nodeChildren rootNode))
  | page =>
      (* Single page without document wrapper *)
      match convertToPage rootNode with
      | inl e => inl e
      | inr pg => inr [pg]
      end
  | _ =>
      (* Wrap content in a default page *)
      match normalizeMargin parseFloat_ (num 40) with
      | inl e => inl e
      | inr defaultMargin =>
          inr [{| size := A4; margin := defaultMargin; IR.children := [rootNode] |}]
      end
  end.

Definition defaultFontUsage : IRFontUsage :=
  {| family := "Inter"; weights := [num 400]; styles := [VStr "normal"] |}.

(** The document built from the converted root, the final context and
    the pages. *)
Definition assemble (rootNode : IRNode) (context : ConversionContext)
           (pageList : list IRPage) : IRDocument :=
  let rootProps := nodeProps rootNode in
  (* Extract document metadata *)
  let documentMetadata :=
    if bool_decide (nodeType rootNode = document)
       && (truthy (get rootProps "title") || truthy (get rootProps "author")
           || truthy (get rootProps "subject"))
    then Some {| title := get rootProps "title";
                 author := get rootProps "author";
                 subject := get rootProps "subject";
                 creator := "PaperFlow";
                 creationDate := now |}
    else None in
  (* Convert fonts map to array *)
  let documentFonts :=
    map (fun '(fam, ws) =>
           {| family := fam; weights := sortNumeric ws; styles := [VStr "normal"] |})
        (ctxFonts context) in
  (* Convert images map to array *)
  let documentImages := map snd (ctxImages context) in
  {| version := 1;
     pages := pageList;
     (* Add default font if none specified *)
     fonts := if (length documentFonts =? 0)%nat then [defaultFontUsage]
              else documentFonts;
     images := documentImages;
     metadata := documentMetadata |}.

(** Convert a React element tree to IR document. *)
Definition reactToIR (fuel : nat) (element : ReactElement) : Run IRDocument :=
  (* Convert the root element *)
  match convertElement fuel element emptyContext with
  | None => None
  | Some (inl e) => Some (inl e)
  | Some (inr (rootNode, context)) =>
      (* Extract document metadata and pages *)
      match documentPages rootNode with
      | inl e => Some (inl e)
      | inr pageList => Some (inr (assemble rootNode context pageList))
      end
  end.

End Converter.

End ReactToIR.

(* ===================================================================== *)
(** * Base64 ([btoa] and [atob] of the platform)                           *)
(* ===================================================================== *)

Module Base64.

Local Open Scope N_scope.

(** The character of a six-bit value in the alphabet A-Z a-z 0-9 + /. *)
Definition sextetChar (n : N) : ascii :=
  if n <? 26 then ascii_of_N (65 + n)
  else if n <? 52 then ascii_of_N (71 + n)
  else if n <? 62 then ascii_of_N (n - 4)
  else if n =? 62 then "+"%char
  else "/"%char.

Definition sextetOf (c : ascii) : option N :=
  let n := charCode c in
  if (65 <=? n) && (n <=? 90) then Some (n - 65)
  else if (97 <=? n) && (n <=? 122) then Some (n - 71)
  else if (48 <=? n) && (n <=? 57) then Some (n + 4)
  else if n =? 43 then Some 62
  else if n =? 47 then Some 63
  else None.

(** The six-bit groups of a binary string: three characters give four
    groups, a rest of one character two and a rest of two characters three,
    the last of them filled up with zero bits. *)
Fixpoint sextetsOfBinary (s : string) : list N :=
  match s with
  | EmptyString => []
  | String a EmptyString =>
      let a := charCode a in [a / 4; (a mod 4) * 16]
  | String a (String b EmptyString) =>
      let a := charCode a in
      let b := charCode b in
      [a / 4; (a mod 4) * 16 + b / 16; (b mod 16) * 4]
  | String a (String b (String c rest)) =>
      let a := charCode a in
      let b := charCode b in
      let c := charCode c in
      a / 4 :: (a mod 4) * 16 + b / 16 :: (b mod 16) * 4 + c / 64 :: c mod 64
        :: sextetsOfBinary rest
  end.

Definition padding (groups : nat) : string :=
  match (groups mod 4)%nat with
  | 2%nat => "=="
  | 3%nat => "="
  | _ => ""
  end.

(** [btoa(binary)] for a string of characters below 256. *)
Definition btoa (binary : string) : string :=
  let groups := sextetsOfBinary binary in
  (string_of_list_ascii (map sextetChar groups) ++ padding (length groups))%string.

(** ASCII whitespace as [atob] removes it: tab, line feed, form feed,
    carriage return and space. *)
Definition isAsciiWhitespace (c : ascii) : bool :=
  let n := charCode c in
  (n =? 9) || (n =? 10) || (n =? 12) || (n =? 13) || (n =? 32).

(** One or two equals signs at the end are removed. *)
Fixpoint stripPadding (s : string) : string :=
  match s with
  | EmptyString => EmptyString
  | String c r =>
      if Ascii.eqb c "=" && (String.eqb r "" || String.eqb r "=")
      then EmptyString
      else String c (stripPadding r)
  end.

Fixpoint sextetsOfString (s : string) : option (list N) :=
  match s with
  | EmptyString => Some []
  | String c r =>
      match sextetOf c, sextetsOfString r with
      | Some n, Some l => Some (n :: l)
      | _, _ => None
      end
  end.

(** The characters of a list of six-bit groups; a rest of two or three
    groups gives one or two characters, the bits left over are dropped. *)
Fixpoint binaryOfSextets (l : list N) : string :=
  match l with
  | a :: b :: c :: d :: rest =>
      String (ascii_of_N (a * 4 + b / 16))
        (String (ascii_of_N ((b mod 16) * 16 + c / 4))
           (String (ascii_of_N ((c mod 4) * 64 + d)) (binaryOfSextets rest)))
  | [a; b; c] =>
      String (ascii_of_N (a * 4 + b / 16))
        (String (ascii_of_N ((b mod 16) * 16 + c / 4)) EmptyString)
  | [a; b] => String (ascii_of_N (a * 4 + b / 16)) EmptyString
  | _ => EmptyString
  end.

(** [atob(data)]: the forgiving decoder; [None] when it throws. *)
Definition atob (data : string) : option string :=
  let data := filterChars (fun c => negb (isAsciiWhitespace c)) data in
  let data :=
    if (String.length data mod 4 =? 0)%nat then stripPadding data else data in
  if (String.length data mod 4 =? 1)%nat then None
  else
    match sextetsOfString data with
    | Some groups => Some (binaryOfSextets groups)
    | None => None
    end.

End Base64.

(* ===================================================================== *)
(** * Images as data URIs (packages/core/src/images/loader.ts)             *)
(* ===================================================================== *)

Module DataUri.

Import Images.

(** Get MIME type for image format. *)
Definition getMimeType (fmt : ImageFormat) : string :=
  match fmt with
  | png => "image/png"
  | jpeg => "image/jpeg"
  | webp => "image/webp"
  | gif => "image/gif"
  | svg => "image/svg+xml"
  end.

(** The binary string built from the bytes of a buffer, one character per
    byte. *)
Fixpoint binaryOfBytes (bytes : list byte) : string :=
  match bytes with
  | [] => EmptyString
  | b :: rest => String (ascii_of_byte b) (binaryOfBytes rest)
  end.

(** Convert ArrayBuffer to base64 data URI. *)
Definition toDataUri (image : LoadedImage) : string :=
  ("data:" ++ getMimeType (format image) ++ ";base64,"
     ++ Base64.btoa (binaryOfBytes (data image)))%string.

End DataUri.

(* ===================================================================== *)
(** * Values in template literals                                          *)
(* ===================================================================== *)

Module Template.

Section Conversions.

(** [String(n)] for a number, and [String(v)] for a value that is an
    object or a function. *)
Variable numberToString : JSNumber -> string.
Variable objectToString : JSValue -> string.

(** The string a value contributes to a template literal. *)
Definition toText (v : JSValue) : string :=
  match v with
  | VUndefined => "undefined"
  | VNull => "null"
  | VBool true => "true"
  | VBool false => "false"
  | VNum n => numberToString n
  | VStr s => s
  | _ => objectToString v
  end.

End Conversions.

(** [typeof v]. *)
Definition typeOf (v : JSValue) : string :=
  match v with
  | VUndefined => "undefined"
  | VNull => "object"
  | VBool _ => "boolean"
  | VNum _ => "number"
  | VStr _ => "string"
  | VSize _ _ | VEdges _ _ _ _ | VBinary _ => "object"
  | VFunction _ => "function"
  | VInherited name => if String.eqb name "__proto__" then "object" else "function"
  end.

(** [n === m] on numbers: NaN equals nothing. *)
Definition numberEq (n m : JSNumber) : bool :=
  match n, m with
  | Fin x, Fin y => Qeq_bool x y
  | Infinity s, Infinity t => Bool.eqb s t
  | _, _ => false
  end.

(** [n === v] and [s === v] for a number, or a string, and any value. *)
Definition isNumber (n : JSNumber) (v : JSValue) : bool :=
  match v with VNum m => numberEq n m | _ => false end.

Definition isString (s : string) (v : JSValue) : bool :=
  match v with VStr t => String.eqb s t | _ => false end.

End Template.

(* ===================================================================== *)
(** * Loading one font (packages/core/src/fonts/loader.ts)                 *)
(* ===================================================================== *)

Module FontLoader.

Import Fonts Template.

Inductive FontSource :=
| FontUrl (url : string)
| FontBuffer (bytes : list byte).

Record FontConfig := {
  family : string;
  weight : option JSNumber;
  style : option string;
  src : FontSource
}.

(** Google Fonts CDN base URL. *)
Definition GOOGLE_FONTS_CSS_URL : string := "https://fonts.googleapis.com/css2".

(** Built-in font mappings. *)
Definition BUILT_IN_FONTS : gmap string JSValue :=
  list_to_map [
    ("inter", VStr "Inter"); ("roboto", VStr "Roboto");
    ("open-sans", VStr "Open+Sans"); ("opensans", VStr "Open+Sans");
    ("lato", VStr "Lato"); ("poppins", VStr "Poppins");
    ("montserrat", VStr "Montserrat"); ("nunito", VStr "Nunito");
    ("raleway", VStr "Raleway"); ("ubuntu", VStr "Ubuntu");
    ("plus-jakarta-sans", VStr "Plus+Jakarta+Sans");
    ("plusjakartasans", VStr "Plus+Jakarta+Sans");
    ("dm-sans", VStr "DM+Sans"); ("dmsans", VStr "DM+Sans");
    ("source-sans-pro", VStr "Source+Sans+Pro"); ("work-sans", VStr "Work+Sans");
    ("nunito-sans", VStr "Nunito+Sans");
    ("merriweather", VStr "Merriweather");
    ("playfair-display", VStr "Playfair+Display"); ("lora", VStr "Lora");
    ("pt-serif", VStr "PT+Serif"); ("source-serif-pro", VStr "Source+Serif+Pro");
    ("crimson-text", VStr "Crimson+Text");
    ("fira-code", VStr "Fira+Code"); ("jetbrains-mono", VStr "JetBrains+Mono");
    ("source-code-pro", VStr "Source+Code+Pro"); ("roboto-mono", VStr "Roboto+Mono");
    ("ibm-plex-mono", VStr "IBM+Plex+Mono")
  ].

(** The two module-level maps, and the requests sent so far (most recent
    first). *)
Record FontWorld := {
  fontCache : gmap string (list byte);
  customFonts : gmap string (list FontConfig);
  requests : list string
}.

Definition emptyFontWorld : FontWorld :=
  {| fontCache := ∅; customFonts := ∅; requests := [] |}.

(** Clear the font cache. *)
Definition clearFontCache (w : FontWorld) : FontWorld :=
  {| fontCache := ∅; customFonts := customFonts w; requests := requests w |}.

(** Register a custom font for use in documents. *)
Definition registerFont (config : FontConfig) (w : FontWorld) : FontWorld :=
  let fam := normalizeFamily (family config) in
  let existing := default [] (customFonts w !! fam) in
  {| fontCache := fontCache w;
     customFonts := <[fam := existing ++ [config]]> (customFonts w);
     requests := requests w |}.

(** Find a custom font matching the criteria: an exact match, or else the
    first font registered for the family. *)
Definition findCustomFont (w : FontWorld) (fam : string) (weight style : JSValue)
  : option FontConfig :=
  match customFonts w !! fam with
  | None => None
  | Some fonts =>
      match List.find (fun f => isNumber (default (Fin 400) (FontLoader.weight f)) weight
                                && isString (default "normal" (FontLoader.style f)) style)
                      fonts with
      | Some exact => Some exact
      | None => head fonts
      end
  end.

(** Capitalize each word in a string. *)
Definition capitalizeWords (str : string) : string :=
  join " " (map (fun word => (toUpperCase (charAt0 word) ++ toLowerCase (slice 1 word))%string)
                (split " " str)).

Definition replaceChar (old new : ascii) (s : string) : string :=
  mapChars (fun c => if Ascii.eqb c old then new else c) s.

(** Whether a run of characters can be split as one character or more, a
    dot, one of the three extensions and a rest. *)
Definition hasFontExtension (run : string) : bool :=
  match run with
  | EmptyString => false
  | String _ r => includes ".woff2" r || includes ".ttf" r || includes ".otf" r
  end.

(** The first group of the leftmost match of the font URL pattern in the
    style sheet.  The pattern is the word url and an opening parenthesis,
    then the group, then a closing parenthesis; the group is one character
    or more, a dot, one of the three extensions and a rest, all of them
    characters other than the closing parenthesis.  So the group is the
    whole run between the opening and the first closing parenthesis after
    it, and the pattern matches at an opening when that run is closed and
    has an extension. *)
Fixpoint findFontUrl (css : string) : option string :=
  match css with
  | EmptyString => None
  | String _ rest =>
      if startsWith "url(" css
         && negb (isEmpty (dropWhileChars (fun c => negb (Ascii.eqb c ")")) (slice 4 css)))
         && hasFontExtension (takeWhileChars (fun c => negb (Ascii.eqb c ")")) (slice 4 css))
      then Some (takeWhileChars (fun c => negb (Ascii.eqb c ")")) (slice 4 css))
      else findFontUrl rest
  end.

Definition quote : string := String (ascii_of_N 34) EmptyString.

Section Loader.

(** [fetch], the decoding of a response body as text, the conversions of
    template literals, and [String(error)] for a caught error. *)
Variable fetch : string -> Images.FetchOutcome.
Variable decodeText : list byte -> string.
Variable numberToString : JSNumber -> string.
Variable objectToString : JSValue -> string.
Variable describeError : Exception -> string.

Abbreviation text := (toText numberToString objectToString).

Definition sent (url : string) (w : FontWorld) : FontWorld :=
  {| fontCache := fontCache w; customFonts := customFonts w;
     requests := url :: requests w |}.

Definition cached (key : string) (bytes : list byte) (w : FontWorld) : FontWorld :=
  {| fontCache := <[key := bytes]> (fontCache w); customFonts := customFonts w;
     requests := requests w |}.

(** Resolve custom font data (handle string URLs vs ArrayBuffer). *)
Definition resolveCustomFontData (config : FontConfig) (w : FontWorld)
  : (Exception + list byte) * FontWorld :=
  match src config with
  | FontBuffer bytes => (inr bytes, w)
  | FontUrl url =>
      match fetch url with
      | Images.FetchRejected msg => (inl (OtherError msg), sent url w)
      | Images.FetchResolved response =>
          if negb (Images.ok response) then
            (raise "Failed to fetch custom font from URL" FONT_FETCH_ERROR
                   [("url", VStr url);
                    ("status", num (inject_Z (Images.status response)))],
             sent url w)
          else (inr (Images.body response), sent url w)
      end
  end.

(** Load font from Google Fonts. *)
Definition loadFromGoogleFonts (fam : string) (weight style : JSValue) (w : FontWorld)
  : (Exception + list byte) * FontWorld :=
  (* Get Google Fonts identifier *)
  let googleFontName :=
    nullish (tableGet BUILT_IN_FONTS fam)
            (VStr (replaceChar " " "+" (capitalizeWords (replaceChar "-" " " fam)))) in
  (* Build the CSS URL *)
  let italic := if isString "italic" style then "ital," else "" in
  let cssUrl :=
    (GOOGLE_FONTS_CSS_URL ++ "?family=" ++ text googleFontName ++ ":" ++ italic
       ++ "wght@" ++ (if isString "italic" style then "1," else "")
       ++ text weight ++ "&display=swap")%string in
  (* Fetch CSS to get font URL *)
  let w1 := sent cssUrl w in
  match fetch cssUrl with
  | Images.FetchRejected msg => (inl (OtherError msg), w1)
  | Images.FetchResolved cssResponse =>
      if negb (Images.ok cssResponse) then
        (inl (OtherError ("Google Fonts CSS request failed: "
                            ++ showZ (Images.status cssResponse))), w1)
      else
        let css := decodeText (Images.body cssResponse) in
        (* Extract font URL from CSS *)
        match findFontUrl css with
        | None =>
            (inl (OtherError ("Could not find font URL in Google Fonts CSS. CSS content: "
                                ++ substring0 200 css)), w1)
        | Some group =>
            let fontUrl := removeQuotes group in
            (* Fetch the actual font file *)
            let w2 := sent fontUrl w1 in
            match fetch fontUrl with
            | Images.FetchRejected msg => (inl (OtherError msg), w2)
            | Images.FetchResolved fontResponse =>
                if negb (Images.ok fontResponse) then
                  (inl (OtherError ("Font file request failed: "
                                      ++ showZ (Images.status fontResponse))), w2)
                else (inr (Images.body fontResponse), w2)
            end
        end
  end.

(** Load a single font.  The two defaults apply to arguments that are
    absent or undefined. *)
Definition loadFont (fam : string) (weight style : JSValue) (w : FontWorld)
  : (Exception + LoadedFont) * FontWorld :=
  let weight := if isUndefined weight then num 400 else weight in
  let style := if isUndefined style then VStr "normal" else style in
  let normalizedFamily := normalizeFamily fam in
  let cacheKey := (normalizedFamily ++ "-" ++ text weight ++ "-" ++ text style)%string in
  let loaded (bytes : list byte) : LoadedFont :=
    {| fontFamily := normalizedFamily; fontWeight := weight; fontStyle := style;
       fontData := bytes |} in
  (* Check memory cache *)
  match fontCache w !! cacheKey with
  | Some bytes => (inr (loaded bytes), w)
  | None =>
      (* Check custom fonts first *)
      match findCustomFont w normalizedFamily weight style with
      | Some customFont =>
          match resolveCustomFontData customFont w with
          | (inl e, w1) => (inl e, w1)
          | (inr bytes, w1) => (inr (loaded bytes), cached cacheKey bytes w1)
          end
      | None =>
          (* Try to load from Google Fonts *)
          match loadFromGoogleFonts normalizedFamily weight style w with
          | (inr bytes, w1) => (inr (loaded bytes), cached cacheKey bytes w1)
          | (inl e, w1) =>
              (raise ("Failed to load font " ++ quote ++ fam ++ quote ++ " (weight: " ++ text weight
                        ++ ", style: " ++ text style ++ ")")
                     FONT_LOAD_FAILED
                     [("family", VStr fam); ("weight", weight); ("style", style);
                      ("originalError", VStr (describeError e))],
               w1)
          end
      end
  end.

End Loader.

End FontLoader.

(* ===================================================================== *)
(** * Wrapping errors (packages/core/src/errors.ts)                        *)
(* ===================================================================== *)

Module ErrorSystem.

Import Template.

(** A value caught by a catch clause: a [PaperFlowError], another instance
    of [Error] with its name and message, or any other value. *)
Inductive Caught :=
| CaughtPaperFlow (e : PaperFlowError)
| CaughtError (name message : string)
| CaughtValue (v : JSValue).

(** Type guard to check if an error is a PaperFlowError. *)
Definition isPaperFlowError (error : Caught) : bool :=
  match error with CaughtPaperFlow _ => true | _ => false end.

Section Wrapping.

Variable numberToString : JSNumber -> string.
Variable objectToString : JSValue -> string.

(** Wrap an error with PaperFlow context.  The context of the new error is
    the spread of the context given, followed by [originalError]. *)
Definition wrapError (error : Caught) (c : ErrorCode) (ctx : list (string * JSValue))
  : PaperFlowError :=
  match error with
  | CaughtPaperFlow e => e
  | CaughtError name msg =>
      {| message := msg; code := c;
         context := assocSet "originalError" (VStr name) ctx |}
  | CaughtValue v =>
      {| message := toText numberToString objectToString v; code := c;
         context := assocSet "originalError" (VStr (typeOf v)) ctx |}
  end.

End Wrapping.

End ErrorSystem.

(* ===================================================================== *)
(** * From IR to the elements given to Satori
      (packages/engine-satori/src/index.ts)                                *)
(* ===================================================================== *)

Module Satori.

Import IR.

(** The [children] prop of an element: an array of elements, a text, or
    no such prop. *)
Inductive Children (E : Type) :=
| ChildElements (elements : list E)
| ChildText (content : JSValue)
| ChildAbsent.

Arguments ChildElements {E} elements.
Arguments ChildText {E} content.
Arguments ChildAbsent {E}.

(** An element as the engine builds it: its type, its key, the props
    other than [style] and [children], the style and the children. *)
Inductive Element :=
| mkElement (type : string) (key : option nat) (props : gmap string JSValue)
            (style : gmap string JSValue) (children : Children Element).

Definition elementType (e : Element) : string := let 'mkElement t _ _ _ _ := e in t.
Definition elementKey (e : Element) : option nat := let 'mkElement _ k _ _ _ := e in k.
Definition elementProps (e : Element) : gmap string JSValue :=
  let 'mkElement _ _ p _ _ := e in p.
Definition elementStyle (e : Element) : gmap string JSValue :=
  let 'mkElement _ _ _ s _ := e in s.
Definition elementChildren (e : Element) : Children Element :=
  let 'mkElement _ _ _ _ c := e in c.

(** Convert IR style to Satori-compatible style. *)
Definition convertStyle (sty : gmap string JSValue) : gmap string JSValue :=
  filter (fun kv => kv.2 ≠ VUndefined ∧ kv.2 ≠ VNull) sty.

Definition formatName (fmt : Images.ImageFormat) : string :=
  match fmt with
  | Images.png => "png" | Images.jpeg => "jpeg" | Images.webp => "webp"
  | Images.gif => "gif" | Images.svg => "svg"
  end.

Definition mimeTypes : gmap string string :=
  list_to_map [
    ("png", "image/png"); ("jpeg", "image/jpeg"); ("jpg", "image/jpeg");
    ("webp", "image/webp"); ("gif", "image/gif"); ("svg", "image/svg+xml")
  ].

(** Convert ArrayBuffer to data URI. *)
Definition arrayBufferToDataUri (buffer : list byte) (fmt : Images.ImageFormat) : string :=
  let base64 := Base64.btoa (DataUri.binaryOfBytes buffer) in
  let mimeType := default "image/png" (mimeTypes !! formatName fmt) in
  ("data:" ++ mimeType ++ ";base64," ++ base64)%string.

(** [keys.indexOf(v)]: the position of the first key strictly equal to
    [v], or -1. *)
Fixpoint indexFrom (i : Z) (v : JSValue) (keys : list string) : Z :=
  match keys with
  | [] => (-1)%Z
  | k :: rest => if Template.isString k v then i else indexFrom (i + 1)%Z v rest
  end.

Definition indexOf (v : JSValue) (keys : list string) : Z := indexFrom 0%Z v keys.

Section Elements.

(** The images loaded for the document, by the key they were stored
    under, in the order they were stored. *)
Variable images : list (string * Images.LoadedImage).

(** Convert an IR node to a Satori element. *)
Fixpoint irNodeToSatoriElement (node : IRNode) (key : nat) : Element :=
  match node with
  | Node type props nodeStyle kids =>
      let style := convertStyle nodeStyle in
      let mapped :=
        (fix each (i : nat) (l : list IRNode) : list Element :=
           match l with
           | [] => []
           | child :: rest => irNodeToSatoriElement child i :: each (S i) rest
           end) 0%nat kids in
      match type with
      | text =>
          (* Handle text content *)
          let content := nullish (get props "content") (VStr "") in
          mkElement "span" (Some key) ∅
                    (style ∪ {[ "display" := VStr "flex" ]})
                    (match kids with
                     | [] => ChildText content
                     | _ => ChildElements mapped
                     end)
      | image =>
          let src := get props "src" in
          (* Try to get loaded image data *)
          let imageId := ("img-" ++ showZ (indexOf src (map fst images)))%string in
          (* Use data URI if we have loaded the image, otherwise use
             original src *)
          let imageSrc :=
            match assocGet imageId images with
            | Some loadedImage =>
                VStr (arrayBufferToDataUri (Images.data loadedImage)
                                           (Images.format loadedImage))
            | None => src
            end in
          mkElement "img" (Some key) {[ "src" := imageSrc ]}
                    (<["objectFit" := nullish (get style "objectFit") (VStr "contain")]> style)
                    ChildAbsent
      | link =>
          (* Links render as styled text *)
          mkElement "span" (Some key) ∅
                    (style ∪ {[ "display" := VStr "flex"; "color" := VStr "#2563eb";
                                "textDecoration" := VStr "underline" ]})
                    (ChildElements mapped)
      | _ =>
          (* Container element *)
          mkElement "div" (Some key) ∅
                    (style ∪ {[ "display" := VStr "flex";
                                "flexDirection" := VStr "column" ]})
                    (ChildElements mapped)
      end
  end.

(** Convert IR page to Satori-compatible element. *)
Definition irToSatoriElement (pg : IRPage) : Element :=
  (* Build the page container with margins *)
  let pageStyle : gmap string JSValue :=
    {[ "display" := VStr "flex"; "flexDirection" := VStr "column";
       "width" := VStr "100%"; "height" := VStr "100%";
       "paddingTop" := VNum (top (margin pg));
       "paddingRight" := VNum (right (margin pg));
       "paddingBottom" := VNum (bottom (margin pg));
       "paddingLeft" := VNum (left (margin pg));
       "backgroundColor" := VStr "white";
       "fontFamily" := VStr "Inter, sans-serif";
       "fontSize" := num 16; "color" := VStr "#000000" ]} in
  mkElement "div" None ∅ pageStyle
            (ChildElements (imap (fun index child => irNodeToSatoriElement child index)
                                 (IR.children pg))).

End Elements.

End Satori.

(* ===================================================================== *)
(** * The render function (packages/react/src/render.ts)                   *)
(* ===================================================================== *)

Module Render.

Import IR Fonts ReactToIR Template.

(** Render options.  A property of the options object is absent ([None]),
    or present with a value that may be undefined. *)
Record RenderOptions := {
  engine : option (option string);
  format : option (option string);
  fonts : option (list (string * option JSNumber * string))
}.

Definition noOptions : RenderOptions := {| engine := None; format := None; fonts := None |}.

Record RenderContext := {
  ir : IRDocument;
  loadedFonts : list LoadedFont;
  loadedImages : list (string * Images.LoadedImage)
}.

(** The data of a render result; its methods are functions of the buffer. *)
Record RenderResult := {
  buffer : list byte;
  pages : nat;
  title : JSValue;
  author : JSValue;
  createdAt : Z
}.

Definition toBase64 (r : RenderResult) : string :=
  Base64.btoa (DataUri.binaryOfBytes (buffer r)).

Definition toDataUri (r : RenderResult) : string :=
  ("data:application/pdf;base64," ++ toBase64 r)%string.

Section Rendering.

Variable Number_ : string -> JSNumber.
Variable percentOf : JSNumber -> JSNumber -> string.
Variable numberToString : JSNumber -> string.
Variable objectToString : JSValue -> string.
Variable userComponents : string -> React.Props -> React.ReactNode.
Variable parseFloat_ : string -> JSNumber.
(** The clock when the tree is converted and when the result is built. *)
Variable now : Z.
Variable nowAtResult : Z.
(** What each [loadFont] promise settles to, [fetch] and [atob], and what
    the promise of a deferred image source settles to. *)
Variable loadFont : string -> JSValue -> JSValue -> Exception + LoadedFont.
Variable fetch : string -> Images.FetchOutcome.
Variable atob : string -> option string.
Variable deferred : string -> Images.ImageSource.
(** What [render] of the Satori engine settles to. *)
Variable satoriRender : RenderContext -> Exception + list byte.
(** For a caught value that is not a PaperFlowError, known by its message:
    the name of the error, or the type of the value. *)
Variable kindOf : string -> string.

(** An image source as [loadImage] sees it. *)
Definition sourceOf (v : JSValue) : Images.ImageSource :=
  match v with
  | VStr s => Images.SrcString s
  | VBinary bytes => Images.SrcArrayBuffer bytes
  | VFunction name => deferred name
  | _ => Images.SrcOther (typeOf v) (toText numberToString objectToString v)
  end.

(** The loop over the image manifest: an image that loads is stored under
    the id of its entry, one that fails is left out. *)
Fixpoint loadImagesOf (usages : list IRImageUsage)
         (images : list (string * Images.LoadedImage)) (w : Images.World)
  : list (string * Images.LoadedImage) * Images.World :=
  match usages with
  | [] => (images, w)
  | imageUsage :: rest =>
      match Images.loadImage fetch atob (sourceOf (originalSrc imageUsage))
                             Images.noOptions w with
      | (inr loaded, w1) => loadImagesOf rest (assocSet (id imageUsage) loaded images) w1
      | (inl _, w1) => loadImagesOf rest images w1
      end
  end.

(** Get the rendering engine by name.  In the context of the error an
    array of names is written as its elements joined by commas. *)
Definition getEngine (name : string)
  : Exception + (RenderContext -> Exception + list byte) :=
  if String.eqb name "satori" then inr satoriRender
  else if String.eqb name "browser" then
    raise "Browser engine is not yet implemented" UNKNOWN_ENGINE
          [("engine", VStr name); ("available", VStr "satori")]
  else
    raise ("Unknown engine: " ++ name) UNKNOWN_ENGINE
          [("engine", VStr name); ("available", VStr "satori,browser")].

(** Create a render result with helper methods. *)
Definition createRenderResult (buf : list byte) (doc : IRDocument) : RenderResult :=
  {| buffer := buf;
     pages := length (IR.pages doc);
     title := match metadata doc with Some m => IR.title m | None => VUndefined end;
     author := match metadata doc with Some m => IR.author m | None => VUndefined end;
     createdAt := match metadata doc with
                  | Some m => creationDate m
                  | None => nowAtResult
                  end |}.

(** The body of the try block. *)
Definition attempt (fuel : nat) (element : React.ReactElement) (engineName : string)
           (w : Images.World)
  : Run RenderResult * Images.World :=
  (* 1. Convert React to IR *)
  match reactToIR Number_ percentOf numberToString userComponents parseFloat_ now
                  fuel element with
  | None => (None, w)
  | Some (inl e) => (Some (inl e), w)
  | Some (inr doc) =>
      (* Validate document *)
      if (length (IR.pages doc) =? 0)%nat then
        (Some (raise "Document has no pages" NO_PAGES
                     [("suggestion",
                       VStr "Add at least one <Page> element inside your <Document>")]),
         w)
      else
        (* 2. Load fonts *)
        match loadFontsForDocument loadFont doc with
        | inl e => (Some (inl e), w)
        | inr fontList =>
            (* 3. Load images *)
            let '(imageMap, w1) := loadImagesOf (IR.images doc) [] w in
            (* 4. Create render context *)
            let context := {| ir := doc; loadedFonts := fontList;
                              loadedImages := imageMap |} in
            (* 5. Get engine and render *)
            match getEngine engineName with
            | inl e => (Some (inl e), w1)
            | inr engineRender =>
                match engineRender context with
                | inl e => (Some (inl e), w1)
                | inr buf =>
                    (* 6. Build result *)
                    (Some (inr (createRenderResult buf doc)), w1)
                end
            end
        end
  end.

(** Render a React element to PDF. *)
Definition render (fuel : nat) (element : React.ReactElement) (options : RenderOptions)
           (w : Images.World)
  : Run RenderResult * Images.World :=
  let engineName :=
    match engine options with
    | Some (Some name) => name
    | _ => "satori"
    end in
  match attempt fuel element engineName w with
  | (Some (inl (OtherError msg)), w1) =>
      (Some (raise ("Render failed: " ++ msg) RENDER_FAILED
                   [("originalError", VStr (kindOf msg))]),
       w1)
  | outcome => outcome
  end.

(** Simple render that returns just the buffer. *)
Definition renderToBuffer (fuel : nat) (element : React.ReactElement) (w : Images.World)
  : Run (list byte) * Images.World :=
  match render fuel element noOptions w with
  | (Some (inr result), w1) => (Some (inr (buffer result)), w1)
  | (Some (inl e), w1) => (Some (inl e), w1)
  | (None, w1) => (None, w1)
  end.

End Rendering.

End Render.

(* ===================================================================== *)
(** * The client class (packages/paperflow/src/index.ts)                   *)
(* ===================================================================== *)

Module Client.

Import Render.

Record PaperFlowConfig := {
  apiKey : option string;
  engine : option string
}.

Record RenderResponse := {
  data : option RenderResult;
  error : option PaperFlowError
}.

Section PaperFlow.

(** [render] of the react package, and, for a caught value that is not a
    PaperFlowError, the context entry that holds it. *)
Variable renderFn : React.ReactElement -> RenderOptions -> Images.World
                    -> ReactToIR.Run RenderResult * Images.World.
Variable caughtValue : string -> JSValue.

Variable config : PaperFlowConfig.

(** The spread of the options over the engine of the configuration. *)
Definition mergedOptions (options : RenderOptions) : RenderOptions :=
  {| Render.engine := match Render.engine options with
                      | Some given => Some given
                      | None => Some (engine config)
                      end;
     format := format options;
     fonts := fonts options |}.

(** Create a PDF from a React element. *)
Definition createPdf (element : React.ReactElement) (options : RenderOptions)
           (w : Images.World)
  : ReactToIR.Run RenderResponse * Images.World :=
  match renderFn element (mergedOptions options) w with
  | (None, w1) => (None, w1)
  | (Some (inr result), w1) => (Some (inr {| data := Some result; error := None |}), w1)
  | (Some (inl (Thrown err)), w1) =>
      (Some (inr {| data := None; error := Some err |}), w1)
  | (Some (inl (OtherError msg)), w1) =>
      (Some (inr {| data := None;
                    error := Some {| message := msg; code := RENDER_FAILED;
                                     context := [("originalError", caughtValue msg)] |} |}),
       w1)
  end.

(** Render a PDF directly (convenience method): the error of the response
    is thrown when there is one, otherwise its data is returned as it is. *)
Definition renderPdf (element : React.ReactElement) (options : RenderOptions)
           (w : Images.World)
  : ReactToIR.Run (option RenderResult) * Images.World :=
  match createPdf element options w with
  | (None, w1) => (None, w1)
  | (Some (inl e), w1) => (Some (inl e), w1)
  | (Some (inr response), w1) =>
      match error response with
      | Some err => (Some (inl (Thrown err)), w1)
      | None => (Some (inr (data response)), w1)
      end
  end.

End PaperFlow.

End Client.

(* ===================================================================== *)
(** * Vocabulary of the properties                                         *)
(* ===================================================================== *)

Import IR React ReactToIR.

(** ** Sample trees *)

Module Samples.

(** Closed stand-ins for the platform parameters, for evaluating the
    converter on trees that do not consult them. *)
Definition anyNumber : string -> JSNumber := fun _ => NaN.
Definition anyPercent : JSNumber -> JSNumber -> string := fun _ _ => "NaN%".
Definition anyString : JSNumber -> string := fun _ => "NaN".
Definition noComponents : string -> Props -> ReactNode := fun _ _ => RNull.

(** [<Document><Page><Text>Hello</Text></Page></Document>] *)
Definition helloTree : ReactElement :=
  (FunctionType DocumentFn,
   mkProps None None ∅
     (jsx PageFn (mkProps None None ∅
        (jsx TextFn (mkProps None None ∅ (RString "Hello")))))).

(** [const Loop = (props) => <Loop {...props} />]: a component that
    always returns another composite element, and [<Loop />]. *)
Definition loopComponents : string -> Props -> ReactNode :=
  fun name p => RElement (FunctionType (UserFn name)) p.

Definition loopElement : ReactElement := (FunctionType (UserFn "Loop"), noProps).

(** The same [Loop] beside components that return a view with the props
    they were given. *)
Definition mixedComponents : string -> Props -> ReactNode :=
  fun name p =>
    if String.eqb name "Loop" then RElement (FunctionType (UserFn "Loop")) p
    else jsx ViewFn p.

(** A page with two texts, each with its own font family:

    [<Document><Page>
       <Text style={{fontFamily: f1}}>a</Text>
       <Text style={{fontFamily: f2}}>b</Text>
     </Page></Document>] *)
Definition styledText (fontFamily content : string) : ReactNode :=
  jsx TextFn (mkProps None (Some {[ "fontFamily" := VStr fontFamily ]}) ∅ (RString content)).

Definition twoFontTree (f1 f2 : string) : ReactElement :=
  (FunctionType DocumentFn,
   mkProps None None ∅
     (jsx PageFn (mkProps None None ∅
        (RArray [styledText f1 "a"; styledText f2 "b"])))).

(** An IR document with one page and two texts set in Inter, the second
    one bold. *)
Definition interText (weight : JSValue) (content : string) : IRNode :=
  Node text ∅ {[ "fontFamily" := VStr "Inter"; "fontWeight" := weight ]}
       [textLeaf content].

Definition interDocument : IRDocument :=
  {| version := 1;
     pages := [{| size := A4;
                  margin := uniformMargin (Fin 40);
                  IR.children := [interText (num 400) "a"; interText (VStr "bold") "b"] |}];
     fonts := [{| family := "Inter"; weights := [num 400; num 700];
                  styles := [VStr "normal"] |}];
     images := [];
     metadata := None |}.

(** A resolver for which only the regular weight can be loaded. *)
Definition regularOnly (fam : string) (weight fontStyle : JSValue)
  : Exception + Fonts.LoadedFont :=
  if bool_decide (weight = num 400)
  then inr {| Fonts.fontFamily := fam; Fonts.fontWeight := weight;
              Fonts.fontStyle := fontStyle; Fonts.fontData := [] |}
  else raise "Failed to load font" FONT_LOAD_FAILED [("family", VStr fam)].

End Samples.

(** ** The loop of [unwrapElement] as a relation

    [Unwraps user e r]: starting from [e], the loop leaves with [r].  It
    leaves at an element whose type is not a function, or at an element whose
    function returns something that is not an element; otherwise it goes on
    with the element returned. *)
Inductive Unwraps (user : string -> Props -> ReactNode) : ReactElement -> ReactElement -> Prop :=
| Unwraps_host tag p :
    Unwraps user (HostType tag, p) (HostType tag, p)
| Unwraps_break fn p :
    isReactElement (callComponent user fn p) = false ->
    Unwraps user (FunctionType fn, p) (FunctionType fn, p)
| Unwraps_call fn p type' props' r :
    callComponent user fn p = RElement type' props' ->
    Unwraps user (type', props') r ->
    Unwraps user (FunctionType fn, p) r.

(** A chain of calls that has no end: a set of elements each of which is a
    composite whose function returns an element of the set. *)
Definition Endless (user : string -> Props -> ReactNode) (chain : ReactElement -> Prop)
  : Prop :=
  forall e, chain e ->
    exists fn p type' props',
      e = (FunctionType fn, p)
      /\ callComponent user fn p = RElement type' props'
      /\ chain (type', props').

(** A node of the subtree of an IR node. *)
Inductive Subnode (n : IRNode) : IRNode -> Prop :=
| Subnode_here : Subnode n n
| Subnode_child t p sty kids k :
    k ∈ kids -> Subnode n k -> Subnode n (Node t p sty kids).

(** The families of a conversion context, in the order they were met. *)
Definition familiesOf (context : ConversionContext) : list string :=
  map fst (ctxFonts context).

(** A family name as it stands once the decoration is gone: it begins and
    ends with a character that is not whitespace, and holds neither a quote
    nor a comma. *)
Definition startsTight (s : string) : bool :=
  match s with
  | String c _ => negb (isWhitespace c)
  | EmptyString => false
  end.

Definition plainChar (c : ascii) : bool := negb (isQuote c) && negb (Ascii.eqb c ",").

Definition bareFamily (name : string) : Prop :=
  startsTight name = true
  /\ startsTight (reverse name) = true
  /\ allChars plainChar name = true.

(** No style in the subtree declares a font family. *)
Fixpoint declaresNoFont (n : IRNode) : bool :=
  match n with
  | Node _ _ sty kids =>
      negb (truthy (get sty "fontFamily")) && forallb declaresNoFont kids
  end.

(** A page node that [convertToPage] can convert: its margin is not null,
    and its size is not null when it is to be turned.  The pages of a
    converted root are ready when every page node that becomes a page of
    the document is. *)
Definition pageReady (node : IRNode) : bool :=
  negb (bool_decide (get (nodeProps node) "orientation" = VStr "landscape")
        && bool_decide (get (nodeProps node) "size" = VNull))
  && negb (bool_decide (get (nodeProps node) "margin" = VNull)).

Definition pagesReady (rootNode : IRNode) : bool :=
  match nodeType rootNode with
  | document =>
      forallb pageReady
              (List.filter (fun child => bool_decide (nodeType child = page))
                           (nodeChildren rootNode))
  | page => pageReady rootNode
  | _ => true
  end.

(** An element type that runs no code of the user: a host tag or one of the
    six primitive components. *)
Definition isPrimitive (type : ElementType) : bool :=
  match type with
  | FunctionType (UserFn _) => false
  | _ => true
  end.

(** A tree of primitive elements in which no element declares a font
    family, be it through its class string or through its explicit style. *)
Fixpoint fontFree (Number_ : string -> JSNumber) (percentOf : JSNumber -> JSNumber -> string)
         (n : ReactNode) : bool :=
  match n with
  | RArray items => forallb (fontFree Number_ percentOf) items
  | RElement type p =>
      isPrimitive type
      && negb (truthy (get (mergedStyleOf Number_ percentOf p) "fontFamily"))
      && fontFreeProps Number_ percentOf p
  | _ => true
  end
with fontFreeProps (Number_ : string -> JSNumber) (percentOf : JSNumber -> JSNumber -> string)
       (p : Props) : bool :=
  match p with
  | mkProps _ _ _ kids => fontFree Number_ percentOf kids
  end.

(** A depth of nested calls that is enough to convert a tree of primitive
    elements as children. *)
Fixpoint fuelFor (n : ReactNode) : nat :=
  match n with
  | RArray items => S (fold_right (fun item acc => Nat.max (fuelFor item) acc) 0%nat items)
  | RElement _ p => 3 + fuelForProps p
  | _ => 1
  end
with fuelForProps (p : Props) : nat :=
  match p with
  | mkProps _ _ _ kids => fuelFor kids
  end.

(** A buffer begins with a signature. *)
Definition beginsWith (signature arr : list byte) : Prop :=
  take (length signature) arr = signature.

(** A style transformer, or a rule, that writes without reading: what it
    does to a style is what it does to the empty style, laid over it. *)
Definition WriteOnly (f : CSSProperties -> CSSProperties) : Prop :=
  forall sty, f sty = f ∅ ∪ sty.

Definition WriteOnlyRule (r : Rule) : Prop :=
  forall cls sty, r cls sty = (fun s => s ∪ sty) <$> r cls ∅.

(** Every family of a font map, or of a usage manifest, comes with at least
    one weight and one style. *)
Definition populated (m : Fonts.FontMap) : Prop :=
  Forall (fun entry => entry.2.1 ≠ [] ∧ entry.2.2 ≠ []) m.

Definition populatedUsage (usage : list IRFontUsage) : Prop :=
  Forall (fun u => weights u ≠ [] ∧ styles u ≠ []) usage.

(** The tokens of a class string, in order. *)
Definition classesOf (className : string) : list string :=
  List.filter (fun c => negb (isEmpty c)) (splitWhitespace className).

(* --------------------------------------------------------------------- *)
(** ** Vocabulary of the further properties                                *)
(* --------------------------------------------------------------------- *)

(** The properties of [IRStyle], in the order of the interface. *)
Definition IRStyleKeys : list string :=
  [ "display"; "flexDirection"; "flexWrap"; "justifyContent"; "alignItems";
    "alignSelf"; "flex"; "flexGrow"; "flexShrink"; "flexBasis"; "gap"; "rowGap";
    "columnGap";
    "padding"; "paddingTop"; "paddingRight"; "paddingBottom"; "paddingLeft";
    "margin"; "marginTop"; "marginRight"; "marginBottom"; "marginLeft";
    "width"; "height"; "minWidth"; "maxWidth"; "minHeight"; "maxHeight";
    "position"; "top"; "right"; "bottom"; "left"; "zIndex";
    "fontFamily"; "fontSize"; "fontWeight"; "fontStyle"; "lineHeight";
    "letterSpacing"; "textAlign"; "textDecoration"; "textTransform"; "color";
    "backgroundColor"; "backgroundImage"; "opacity";
    "borderWidth"; "borderTopWidth"; "borderRightWidth"; "borderBottomWidth";
    "borderLeftWidth"; "borderColor"; "borderTopColor"; "borderRightColor";
    "borderBottomColor"; "borderLeftColor"; "borderStyle"; "borderRadius";
    "borderTopLeftRadius"; "borderTopRightRadius"; "borderBottomLeftRadius";
    "borderBottomRightRadius";
    "overflow"; "objectFit"; "objectPosition" ].

(** The properties no block of [parseClass] can reach. *)
Definition unreachedKeys : list string :=
  [ "rowGap"; "columnGap"; "flexBasis"; "minHeight"; "maxHeight"; "backgroundImage";
    "borderTopColor"; "borderRightColor"; "borderBottomColor"; "borderLeftColor";
    "borderTopLeftRadius"; "borderTopRightRadius"; "borderBottomLeftRadius";
    "borderBottomRightRadius"; "objectPosition" ].

(** For every other property, a class that sets it. *)
Definition classFor : list (string * string) :=
  [ ("display", "flex"); ("flexDirection", "flex-row"); ("flexWrap", "flex-wrap");
    ("justifyContent", "justify-start"); ("alignItems", "items-start");
    ("alignSelf", "self-auto"); ("flex", "flex-1"); ("flexGrow", "grow");
    ("flexShrink", "shrink"); ("gap", "gap-4");
    ("padding", "p-4"); ("paddingTop", "pt-4"); ("paddingRight", "pr-4");
    ("paddingBottom", "pb-4"); ("paddingLeft", "pl-4");
    ("margin", "m-4"); ("marginTop", "mt-4"); ("marginRight", "mr-4");
    ("marginBottom", "mb-4"); ("marginLeft", "ml-4");
    ("width", "w-full"); ("height", "h-full"); ("minWidth", "min-w-full");
    ("maxWidth", "max-w-full");
    ("position", "relative"); ("top", "top-4"); ("right", "right-4");
    ("bottom", "bottom-4"); ("left", "left-4"); ("zIndex", "z-10");
    ("fontFamily", "font-sans"); ("fontSize", "text-xs"); ("fontWeight", "font-bold");
    ("fontStyle", "italic"); ("lineHeight", "leading-none");
    ("letterSpacing", "tracking-wide"); ("textAlign", "text-left");
    ("textDecoration", "underline"); ("textTransform", "uppercase");
    ("color", "text-black"); ("backgroundColor", "bg-black"); ("opacity", "opacity-50");
    ("borderWidth", "border-2"); ("borderTopWidth", "border-t");
    ("borderRightWidth", "border-r"); ("borderBottomWidth", "border-b");
    ("borderLeftWidth", "border-l"); ("borderColor", "border-black");
    ("borderStyle", "border-dashed"); ("borderRadius", "rounded");
    ("overflow", "overflow-hidden"); ("objectFit", "object-cover") ].

Definition isReachedKey (k : string) : bool :=
  existsb (String.eqb k) IRStyleKeys && negb (existsb (String.eqb k) unreachedKeys).

(** A rule that, on the empty style, writes reached properties only. *)
Definition WritesReached (r : Rule) : Prop :=
  forall cls s k, r cls ∅ = Some s -> isReachedKey k = false -> s !! k = None.

(** A character a normalized family name can hold: neither whitespace nor
    a quote, and no upper-case letter. *)
Definition familyChar (c : ascii) : bool :=
  negb (isWhitespace c) && negb (isQuote c) && Ascii.eqb (lowerChar c) c.

(** A font map, or a usage manifest, without repetition: the families are
    normalized and pairwise distinct, and no family lists a weight or a
    style twice. *)
Definition tidy (m : Fonts.FontMap) : Prop :=
  NoDup (map fst m)
  /\ Forall (fun entry => Fonts.normalizeFamily entry.1 = entry.1
                          /\ NoDup entry.2.1 /\ NoDup entry.2.2) m.

Definition tidyUsage (usage : list IRFontUsage) : Prop :=
  NoDup (map family usage)
  /\ Forall (fun u => Fonts.normalizeFamily (family u) = family u
                      /\ NoDup (weights u) /\ NoDup (styles u)) usage.

(** The fonts tracked by a conversion context: every family once, with a
    list of weights that is not empty and holds no weight twice. *)
Definition tidyTracked (fonts : list (string * list JSValue)) : Prop :=
  NoDup (map fst fonts) /\ Forall (fun entry => NoDup entry.2 /\ entry.2 <> []) fonts.

Definition isFiniteNumber (v : JSValue) : bool :=
  match v with VNum (Fin _) => true | _ => false end.

(** A list in which no element is smaller than an element before it. *)
Fixpoint ascending (l : list JSValue) : Prop :=
  match l with
  | [] => True
  | x :: rest => Forall (fun later => differenceNegative later x = false) rest
                 /\ ascending rest
  end.

(** A list in which every element is smaller than the elements before it. *)
Fixpoint descending (l : list JSValue) : Prop :=
  match l with
  | [] => True
  | x :: rest => Forall (fun later => differenceNegative later x = true) rest
                 /\ descending rest
  end.

(** A child that leaves a node: anything but null, undefined and the
    booleans. *)
Definition renders (n : ReactNode) : bool :=
  match n with
  | RNull | RUndefined | RBool _ => false
  | _ => true
  end.

(** The image table of a conversion context is numbered: the entry at
    position [i] has the id img-i and is keyed by its own source
    string, and no source string is listed twice. *)
Definition numbered (images : list (string * IRImageUsage)) : Prop :=
  NoDup (map fst images)
  /\ forall i key u, images !! i = Some (key, u) ->
                     id u = ("img-" ++ showNat i)%string /\ src u = key.

(** A key of the image map as [render] makes them: the text img- and a
    number. *)
Definition isImageId (k : string) : Prop := exists i : nat, k = ("img-" ++ showNat i)%string.

(** The page the converter wraps a loose root in. *)
Definition defaultPage (root : IRNode) : IRPage :=
  {| size := A4; margin := uniformMargin (Fin 40); IR.children := [root] |}.

(** The body of a base64 encoding: characters of the alphabet only. *)
Definition alphabetic (s : string) : Prop :=
  exists groups, Forall (fun n => (n < 64)%N) groups
                 /\ s = string_of_list_ascii (map Base64.sextetChar groups).

Definition isHttpUrl (s : string) : bool :=
  startsWith "http://" s || startsWith "https://" s.

(** ** Fixtures

    Closed stand-ins for the platform, and sample values. *)
Module Fixtures.

(** [String(n)] on the integers. *)
Definition showInteger (n : JSNumber) : string :=
  match n with
  | Fin q => showZ (Qnum q / Zpos (Qden q))
  | NaN => "NaN"
  | Infinity false => "Infinity"
  | Infinity true => "-Infinity"
  end.

Definition objectText (v : JSValue) : string := "[object Object]".

Definition describe (e : Exception) : string :=
  match e with
  | Thrown pe => ("PaperFlowError: " ++ message pe)%string
  | OtherError msg => ("Error: " ++ msg)%string
  end.

Definition asText (bytes : list byte) : string := DataUri.binaryOfBytes bytes.

(** A network that is down, and one that answers every request with the
    first bytes of a PNG file. *)
Definition offline : string -> Images.FetchOutcome :=
  fun _ => Images.FetchRejected "fetch failed".

Definition pngEverywhere : string -> Images.FetchOutcome :=
  fun _ => Images.FetchResolved
             {| Images.status := 200; Images.statusText := "OK";
                Images.body := [x89; x50; x4e; x47] |}.

Definition noAtob : string -> option string := fun _ => None.

Definition noDeferred : string -> Images.ImageSource :=
  fun _ => Images.SrcFunctionRejected (OtherError "no such source").

(** A bold Open Sans registered from a buffer. *)
Definition boldOpenSans : FontLoader.FontConfig :=
  {| FontLoader.family := "Open Sans";
     FontLoader.weight := Some (Fin 700);
     FontLoader.style := None;
     FontLoader.src := FontLoader.FontBuffer [x00; x01; x00; x00] |}.

(** A resolver for which every font can be loaded, and an engine that
    gives the first bytes of a PDF file. *)
Definition everyFont (fam : string) (weight fontStyle : JSValue)
  : Exception + Fonts.LoadedFont :=
  inr {| Fonts.fontFamily := fam; Fonts.fontWeight := weight;
         Fonts.fontStyle := fontStyle; Fonts.fontData := [] |}.

Definition pdfHeader (context : Render.RenderContext) : Exception + list byte :=
  inr [x25; x50; x44; x46].

Definition kindOfError : string -> string := fun _ => "Error".

(** [<Document />], [<View />], a landscape page, and a page with one
    image. *)
Definition emptyDocument : ReactElement := (FunctionType DocumentFn, noProps).

Definition looseView : ReactElement := (FunctionType ViewFn, noProps).

Definition landscapePage : ReactElement :=
  (FunctionType PageFn, mkProps None None {[ "orientation" := VStr "landscape" ]} RNull).


(** A string of a thousand characters. *)
Definition longPrefix : string := string_of_list_ascii (repeat "a"%char 1000).

End Fixtures.

(* ===================================================================== *)
(** * Properties                                                           *)
(* ===================================================================== *)

(* --------------------------------------------------------------------- *)
(** ** Image resolution                                                    *)
(* --------------------------------------------------------------------- *)

Section ImageProperties.

Import Images.

Variable fetch : string -> FetchOutcome.
Variable atob : string -> option string.

Lemma byteIs_true_iff arr i b : byteIs arr i b = true <-> arr !! i = Some b.
Proof.
  unfold byteIs. destruct (arr !! i) as [x|]; [|split; discriminate].
  split.
  - intros H. f_equal. now apply Byte.byte_dec_bl.
  - intros [= ->]. now apply Byte.byte_dec_lb.
Qed.

(** C9.  Format detection on a byte buffer: a buffer beginning with
    89 50 4E 47 is a PNG, with FF D8 FF a JPEG, with 52 49 46 46 and
    57 45 42 50 at offset 8 a WebP, with 47 49 46 38 a GIF; a buffer that
    matches none of these signatures and whose first hundred bytes hold
    neither of the two SVG openings raises UNKNOWN_IMAGE_FORMAT. *)
Theorem detectImageFormat_signatures :
  (forall rest, detectImageFormat (x89 :: x50 :: x4e :: x47 :: rest) = inr png) /\
  (forall rest, detectImageFormat (xff :: xd8 :: xff :: rest) = inr jpeg) /\
  (forall a b c d rest,
      detectImageFormat
        (x52 :: x49 :: x46 :: x46 :: a :: b :: c :: d :: x57 :: x45 :: x42 :: x50 :: rest)
      = inr webp) /\
  (forall rest, detectImageFormat (x47 :: x49 :: x46 :: x38 :: rest) = inr gif) /\
  (forall arr,
      ~ beginsWith [x89; x50; x4e; x47] arr ->
      ~ beginsWith [xff; xd8; xff] arr ->
      ~ (beginsWith [x52; x49; x46; x46] arr /\ beginsWith [x57; x45; x42; x50] (drop 8 arr)) ->
      ~ beginsWith [x47; x49; x46; x38] arr ->
      decodedIncludes "<?xml" (take 100 arr) = false ->
      decodedIncludes "<svg" (take 100 arr) = false ->
      exists e, detectImageFormat arr = inl (Thrown e)
                /\ code e = UNKNOWN_IMAGE_FORMAT).
Proof.
  repeat split; try reflexivity.
  intros arr Hpng Hjpeg Hwebp Hgif Hxml Hsvg.
  unfold detectImageFormat.
  assert (P : byteIs arr 0 x89 && byteIs arr 1 x50 && byteIs arr 2 x4e
              && byteIs arr 3 x47 = false).
  { apply not_true_is_false. intros H.
    repeat (apply andb_prop in H; destruct H as [H ?]).
    repeat match goal with X : byteIs _ _ _ = true |- _ => apply byteIs_true_iff in X end.
    apply Hpng. unfold beginsWith.
    destruct arr as [|a0 [|a1 [|a2 [|a3 r]]]]; simplify_eq/=; reflexivity. }
  assert (J : byteIs arr 0 xff && byteIs arr 1 xd8 && byteIs arr 2 xff = false).
  { apply not_true_is_false. intros H.
    repeat (apply andb_prop in H; destruct H as [H ?]).
    repeat match goal with X : byteIs _ _ _ = true |- _ => apply byteIs_true_iff in X end.
    apply Hjpeg. unfold beginsWith.
    destruct arr as [|a0 [|a1 [|a2 r]]]; simplify_eq/=; reflexivity. }
  assert (W : byteIs arr 0 x52 && byteIs arr 1 x49 && byteIs arr 2 x46
              && byteIs arr 3 x46 && byteIs arr 8 x57 && byteIs arr 9 x45
              && byteIs arr 10 x42 && byteIs arr 11 x50 = false).
  { apply not_true_is_false. intros H.
    repeat (apply andb_prop in H; destruct H as [H ?]).
    repeat match goal with X : byteIs _ _ _ = true |- _ => apply byteIs_true_iff in X end.
    apply Hwebp. unfold beginsWith.
    destruct arr as [|a0 [|a1 [|a2 [|a3 [|a4 [|a5 [|a6 [|a7 [|a8 [|a9 [|a10 [|a11 r]]]]]]]]]]]];
      simplify_eq/=; split; reflexivity. }
  assert (G : byteIs arr 0 x47 && byteIs arr 1 x49 && byteIs arr 2 x46
              && byteIs arr 3 x38 = false).
  { apply not_true_is_false. intros H.
    repeat (apply andb_prop in H; destruct H as [H ?]).
    repeat match goal with X : byteIs _ _ _ = true |- _ => apply byteIs_true_iff in X end.
    apply Hgif. unfold beginsWith.
    destruct arr as [|a0 [|a1 [|a2 [|a3 r]]]]; simplify_eq/=; reflexivity. }
  rewrite P, J, W, G, Hxml, Hsvg. simpl.
  eexists. split; reflexivity.
Qed.

(** A buffer of two zero bytes matches no signature. *)
Lemma detectImageFormat_unknown_witness :
  exists e, detectImageFormat [x00; x00] = inl (Thrown e)
            /\ code e = UNKNOWN_IMAGE_FORMAT.
Proof.
  destruct detectImageFormat_signatures as (_ & _ & _ & _ & H).
  apply (H [x00; x00]); try reflexivity; unfold beginsWith; simpl;
    try discriminate; intros [? ?]; discriminate.
Defined.

(** C7.  A string source that starts with neither of the two http schemes
    nor with the data scheme is rejected with LOCAL_FILE_NOT_SUPPORTED; the
    cache and the list of requests sent are left as they were, whatever
    the network would have answered. *)
Theorem loadImage_rejects_local_path (s : string) (options : ImageLoadOptions) (w : World) :
  startsWith "http://" s = false ->
  startsWith "https://" s = false ->
  startsWith "data:" s = false ->
  exists e,
    loadImage fetch atob (SrcString s) options w = (inl (Thrown e), w)
    /\ code e = LOCAL_FILE_NOT_SUPPORTED.
Proof.
  intros Hhttp Hhttps Hdata. simpl.
  rewrite Hdata, Hhttp, Hhttps. simpl.
  eexists. split; reflexivity.
Qed.

(** C10.  A data URI whose media type is image/svg+xml never matches the
    pattern of [loadFromDataUri], whatever its payload: loading it raises
    INVALID_BASE64_IMAGE without decoding anything, although
    [normalizeFormat] maps the format string svg+xml to svg. *)
Theorem loadImage_svg_data_uri_rejected (payload : string)
        (options : ImageLoadOptions) (w : World) :
  (exists e,
      loadImage fetch atob (SrcString ("data:image/svg+xml;base64," ++ payload)) options w
      = (inl (Thrown e), w)
      /\ code e = INVALID_BASE64_IMAGE)
  /\ normalizeFormat "svg+xml" = svg.
Proof.
  split; [|reflexivity].
  eexists. split; reflexivity.
Qed.

End ImageProperties.

(** The path of a file on disk is rejected. *)
Lemma loadImage_rejects_local_path_witness :
  exists e,
    Images.loadImage (fun _ => Images.FetchRejected "offline") (fun _ => None)
      (Images.SrcString "./logo.png") Images.noOptions Images.emptyWorld
    = (inl (Thrown e), Images.emptyWorld)
    /\ code e = LOCAL_FILE_NOT_SUPPORTED.
Proof.
  apply (loadImage_rejects_local_path _ _ "./logo.png"); reflexivity.
Defined.

(* --------------------------------------------------------------------- *)
(** ** The Style Resolver                                                  *)
(* --------------------------------------------------------------------- *)

Section StyleProperties.

Variable Number_ : string -> JSNumber.
Variable percentOf : JSNumber -> JSNumber -> string.

Lemma insert_union_empty (k : string) (v : JSValue) (sty : CSSProperties) :
  <[k := v]> sty = <[k := v]> ∅ ∪ sty.
Proof. now rewrite <- insert_union_l, (left_id_L ∅ (∪)). Qed.

Lemma assignDefined_union_l k v (m1 m2 : CSSProperties) :
  assignDefined k v (m1 ∪ m2) = assignDefined k v m1 ∪ m2.
Proof. unfold assignDefined. destruct (isUndefined v); [done|apply insert_union_l]. Qed.

Lemma marginBlock_union_l keys value (m1 m2 : CSSProperties) :
  marginBlock keys value (m1 ∪ m2) = marginBlock keys value m1 ∪ m2.
Proof.
  unfold marginBlock. destruct (value =? "auto")%string.
  - revert m1. induction keys as [|k keys IH]; intros m1; simpl; [done|].
    now rewrite <- IH, insert_union_l.
  - revert m1. induction keys as [|k keys IH]; intros m1; simpl; [done|].
    now rewrite <- IH, assignDefined_union_l.
Qed.

(** Every block of a rule is a chain of writes: the style it starts from
    can be laid under the result afterwards. *)
Ltac push_under :=
  repeat (rewrite <- insert_union_l || rewrite <- assignDefined_union_l
          || rewrite <- marginBlock_union_l);
  rewrite ?(left_id_L ∅ (∪)); reflexivity.

Ltac write_only_rule :=
  intros cls sty; cbv beta zeta delta [displayRule flexDirectionRule flexWrapRule
    flexGrowShrinkRule justifyContentRule alignItemsRule alignSelfRule gapRule
    paddingRule marginRule widthRule minMaxWidthRule heightRule fontSizeRule
    fontWeightRule fontStyleRule fontFamilyRule textColorRule textAlignRule
    textDecorationRule textTransformRule letterSpacingRule lineHeightRule
    backgroundColorRule borderRadiusRule borderWidthRule borderColorRule
    borderStyleRule opacityRule overflowRule positionRule positionValuesRule
    zIndexRule objectFitRule];
  repeat case_match; simplify_eq; try reflexivity;
  cbn [fmap option_fmap option_map]; f_equal; push_under.

Lemma rules_write_only : Forall WriteOnlyRule (rules Number_ percentOf).
Proof.
  unfold rules. repeat (constructor; [write_only_rule|]).
  constructor.
Qed.

Lemma firstMatch_write_only rs cls sty :
  Forall WriteOnlyRule rs ->
  firstMatch rs cls sty = (fun s => s ∪ sty) <$> firstMatch rs cls ∅.
Proof.
  induction 1 as [|r rs Hr _ IH]; simpl; [reflexivity|].
  rewrite (Hr cls sty). destruct (r cls ∅); simpl; [reflexivity|apply IH].
Qed.

(** [parseClass] never reads the style it is given. *)
Lemma parseClass_write_only cls : WriteOnly (parseClass Number_ percentOf cls).
Proof.
  intros sty. unfold parseClass.
  rewrite (firstMatch_write_only _ cls sty rules_write_only).
  destruct (firstMatch _ cls ∅); simpl; [reflexivity|].
  now rewrite (left_id_L ∅ (∪)).
Qed.

Lemma parseClass_lookup cls sty (P : string) :
  parseClass Number_ percentOf cls sty !! P
  = match parseClass Number_ percentOf cls ∅ !! P with
    | Some v => Some v
    | None => sty !! P
    end.
Proof.
  rewrite (parseClass_write_only cls sty), lookup_union.
  destruct (parseClass _ _ cls ∅ !! P), (sty !! P); reflexivity.
Qed.

Lemma parseTailwindClasses_fold className :
  parseTailwindClasses Number_ percentOf className
  = fold_left (fun sty cls => parseClass Number_ percentOf cls sty) (classesOf className) ∅.
Proof.
  unfold parseTailwindClasses, classesOf.
  destruct (isEmpty className) eqn:E; [|reflexivity].
  apply String.eqb_eq in E. subst. reflexivity.
Qed.

Lemma fold_parseClass_untouched (P : string) tokens (init : CSSProperties) :
  Forall (fun t => forall sty, parseClass Number_ percentOf t sty !! P = sty !! P) tokens ->
  fold_left (fun sty cls => parseClass Number_ percentOf cls sty) tokens init !! P = init !! P.
Proof.
  intros H. revert init. induction H as [|t ts Ht _ IH]; intros init; simpl; [reflexivity|].
  now rewrite IH, Ht.
Qed.

(** C8.  Last write wins, and tokens do not interact.  For every class
    string and every property [P]: each token either sets [P] to a value
    of its own or leaves [P] as it found it, whatever the style so far; the
    result carries for [P] the value of the last token that sets it,
    whatever the tokens before it set; and a property no token sets is
    absent from the result. *)
Theorem parseTailwindClasses_last_write_wins (className P : string) :
  (forall t,
      (exists v, forall sty, parseClass Number_ percentOf t sty !! P = Some v)
      \/ (forall sty, parseClass Number_ percentOf t sty !! P = sty !! P))
  /\ (forall before t after v,
         classesOf className = before ++ t :: after ->
         (forall sty, parseClass Number_ percentOf t sty !! P = Some v) ->
         Forall (fun t' => forall sty, parseClass Number_ percentOf t' sty !! P = sty !! P)
                after ->
         parseTailwindClasses Number_ percentOf className !! P = Some v)
  /\ (Forall (fun t => forall sty, parseClass Number_ percentOf t sty !! P = sty !! P)
             (classesOf className) ->
      parseTailwindClasses Number_ percentOf className !! P = None).
Proof.
  split; [|split].
  - intros t. destruct (parseClass Number_ percentOf t ∅ !! P) as [v|] eqn:E.
    + left. exists v. intros sty. now rewrite parseClass_lookup, E.
    + right. intros sty. now rewrite parseClass_lookup, E.
  - intros before t after v Hsplit Hset Hafter.
    rewrite parseTailwindClasses_fold, Hsplit, fold_left_app. simpl.
    now rewrite fold_parseClass_untouched.
  - intros Hnone. rewrite parseTailwindClasses_fold.
    now rewrite fold_parseClass_untouched.
Qed.

(** C4.  Style precedence.  Merging puts the explicit style on top: a
    property the explicit style map sets keeps the explicit value in the
    merged style of the node, whatever the class string sets for it. *)
Theorem explicit_style_wins :
  (forall (tailwindStyle inlineStyle : CSSProperties) (k : string) (v : JSValue),
      inlineStyle !! k = Some v ->
      mergeStyles tailwindStyle inlineStyle !! k = Some v)
  /\ (forall (p : Props) (cls : string) (explicit : CSSProperties) (k : string) (v : JSValue),
         className p = Some cls ->
         style p = Some explicit ->
         explicit !! k = Some v ->
         mergedStyleOf Number_ percentOf p !! k = Some v).
Proof.
  assert (M : forall (tailwindStyle inlineStyle : CSSProperties) k v,
             inlineStyle !! k = Some v ->
             mergeStyles tailwindStyle inlineStyle !! k = Some v).
  { intros tailwindStyle inlineStyle k v H. unfold mergeStyles.
    now apply lookup_union_Some_l. }
  split; [exact M|].
  intros p cls explicit k v Hcls Hsty Hk. unfold mergedStyleOf.
  rewrite Hsty. simpl. now apply M.
Qed.

End StyleProperties.

(** The parser on the class strings of the test suite. *)
Example parseTailwindClasses_multiple :
  parseTailwindClasses Samples.anyNumber Samples.anyPercent "flex flex-col gap-4 p-4 bg-white"
  = {[ "display" := VStr "flex"; "flexDirection" := VStr "column"; "gap" := num 16;
       "padding" := num 16; "backgroundColor" := VStr "#ffffff" ]}.
Proof. vm_compute. reflexivity. Qed.

Example parseTailwindClasses_extra_whitespace :
  parseTailwindClasses Samples.anyNumber Samples.anyPercent "  flex   gap-4  "
  = {[ "display" := VStr "flex"; "gap" := num 16 ]}.
Proof. vm_compute. reflexivity. Qed.

Example parseTailwindClasses_unknown_class :
  parseTailwindClasses Samples.anyNumber Samples.anyPercent "flex unknown-class gap-4"
  = {[ "display" := VStr "flex"; "gap" := num 16 ]}.
Proof. vm_compute. reflexivity. Qed.

(** Of two colour tokens, the second gives the colour. *)
Lemma parseTailwindClasses_last_write_wins_witness :
  parseTailwindClasses Samples.anyNumber Samples.anyPercent "text-black text-white" !! "color"
  = Some (VStr "#ffffff").
Proof.
  destruct (parseTailwindClasses_last_write_wins Samples.anyNumber Samples.anyPercent
              "text-black text-white" "color") as (_ & H & _).
  apply (H ["text-black"] "text-white" []).
  - reflexivity.
  - intros sty. rewrite parseClass_lookup. reflexivity.
  - constructor.
Defined.

(** [<Text className="text-black" style={{ color: '#ff0000' }}>]: red, not
    black. *)
Lemma explicit_style_wins_witness :
  mergedStyleOf Samples.anyNumber Samples.anyPercent
    (mkProps (Some "text-black") (Some {[ "color" := VStr "#ff0000" ]}) ∅ RNull) !! "color"
  = Some (VStr "#ff0000").
Proof.
  destruct (explicit_style_wins Samples.anyNumber Samples.anyPercent) as [_ H].
  apply (H _ "text-black" {[ "color" := VStr "#ff0000" ]}); reflexivity.
Defined.

(* --------------------------------------------------------------------- *)
(** ** Strings                                                             *)
(* --------------------------------------------------------------------- *)

Section StringFacts.

Local Open Scope string_scope.

Lemma append_cons c s t : String c s ++ t = String c (s ++ t).
Proof. reflexivity. Qed.

Lemma append_nil_l s : "" ++ s = s.
Proof. reflexivity. Qed.

Lemma append_nil_r s : s ++ "" = s.
Proof.
  induction s as [|c s IH]; [reflexivity|]. now rewrite append_cons, IH.
Qed.

Lemma append_assoc a b c : (a ++ b) ++ c = a ++ (b ++ c).
Proof.
  induction a as [|x a IH]; [reflexivity|]. now rewrite !append_cons, IH.
Qed.

Lemma revAppend_append s acc : revAppend s acc = reverse s ++ acc.
Proof.
  unfold reverse. revert acc. induction s as [|c s IH]; intros acc; simpl.
  - reflexivity.
  - rewrite (IH (String c acc)), (IH (String c "")), append_assoc. reflexivity.
Qed.

Lemma reverse_cons c s : reverse (String c s) = reverse s ++ String c "".
Proof. unfold reverse at 1. simpl. apply revAppend_append. Qed.

Lemma reverse_append a b : reverse (a ++ b) = reverse b ++ reverse a.
Proof.
  induction a as [|c a IH].
  - rewrite append_nil_l. change (reverse "") with "". now rewrite append_nil_r.
  - now rewrite append_cons, !reverse_cons, IH, append_assoc.
Qed.

Lemma reverse_involutive s : reverse (reverse s) = s.
Proof.
  induction s as [|c s IH]; [reflexivity|].
  now rewrite reverse_cons, reverse_append, IH.
Qed.

Lemma allChars_append p a b : allChars p (a ++ b) = allChars p a && allChars p b.
Proof.
  induction a as [|c a IH]; [reflexivity|].
  rewrite append_cons. simpl. now rewrite IH, andb_assoc.
Qed.

Lemma allChars_reverse p s : allChars p (reverse s) = allChars p s.
Proof.
  induction s as [|c s IH]; [reflexivity|].
  rewrite reverse_cons, allChars_append, IH. simpl.
  rewrite andb_true_r. apply andb_comm.
Qed.

Lemma allChars_impl (p q : ascii -> bool) s :
  (forall c, p c = true -> q c = true) -> allChars p s = true -> allChars q s = true.
Proof.
  intros Hpq. induction s as [|c s IH]; simpl; [reflexivity|].
  intros H. apply andb_prop in H as [H1 H2]. now rewrite (Hpq c H1), IH.
Qed.

Lemma quote_not_whitespace c : isQuote c = true -> isWhitespace c = false.
Proof. destruct c as [[|] [|] [|] [|] [|] [|] [|] [|]]; vm_compute; congruence. Qed.

Lemma quote_not_comma c : isQuote c = true -> negb (Ascii.eqb c ",") = true.
Proof. destruct c as [[|] [|] [|] [|] [|] [|] [|] [|]]; vm_compute; congruence. Qed.

Lemma whitespace_not_comma c : isWhitespace c = true -> negb (Ascii.eqb c ",") = true.
Proof. destruct c as [[|] [|] [|] [|] [|] [|] [|] [|]]; vm_compute; congruence. Qed.

Lemma plain_not_comma c : plainChar c = true -> negb (Ascii.eqb c ",") = true.
Proof. unfold plainChar. intros H. now apply andb_prop in H as [_ H]. Qed.

Lemma trimStart_whitespace ws s :
  allChars isWhitespace ws = true -> trimStart (ws ++ s) = trimStart s.
Proof.
  induction ws as [|c ws IH]; [reflexivity|].
  intros H. simpl in H. apply andb_prop in H as [H1 H2].
  rewrite append_cons. unfold trimStart in *. simpl. rewrite H1. now apply IH.
Qed.

Lemma trimStart_tight s : startsTight s = true -> trimStart s = s.
Proof.
  destruct s as [|c s]; simpl; [discriminate|].
  intros H. apply negb_true_iff in H. unfold trimStart. simpl. now rewrite H.
Qed.

Lemma startsTight_append s t : startsTight s = true -> startsTight (s ++ t) = true.
Proof. destruct s; [discriminate|]. rewrite append_cons. auto. Qed.

Lemma startsTight_quotes q s :
  allChars isQuote q = true -> startsTight s = true -> startsTight (q ++ s) = true.
Proof.
  destruct q as [|c q]; [auto|].
  intros H _. simpl in H. apply andb_prop in H as [H _].
  rewrite append_cons. simpl. now rewrite (quote_not_whitespace c H).
Qed.

Lemma trim_decorated ws1 core ws2 :
  startsTight core = true ->
  startsTight (reverse core) = true ->
  allChars isWhitespace ws1 = true ->
  allChars isWhitespace ws2 = true ->
  trim (ws1 ++ core ++ ws2) = core.
Proof.
  intros Hstart Hend H1 H2. unfold trim.
  rewrite (trimStart_whitespace _ _ H1).
  rewrite (trimStart_tight _ (startsTight_append _ ws2 Hstart)).
  rewrite reverse_append, trimStart_whitespace by now rewrite allChars_reverse.
  rewrite (trimStart_tight _ Hend). apply reverse_involutive.
Qed.

Lemma filterChars_append keep a b :
  filterChars keep (a ++ b) = filterChars keep a ++ filterChars keep b.
Proof.
  induction a as [|c a IH]; [reflexivity|].
  rewrite append_cons. simpl. destruct (keep c); now rewrite IH.
Qed.

Lemma removeQuotes_quotes q : allChars isQuote q = true -> removeQuotes q = "".
Proof.
  unfold removeQuotes. induction q as [|c q IH]; simpl; [reflexivity|].
  intros H. apply andb_prop in H as [H1 H2]. rewrite H1. simpl. now apply IH.
Qed.

Lemma removeQuotes_plain s : allChars plainChar s = true -> removeQuotes s = s.
Proof.
  unfold removeQuotes, plainChar. induction s as [|c s IH]; simpl; [reflexivity|].
  intros H. apply andb_prop in H as [H1 H2]. apply andb_prop in H1 as [H1 _].
  rewrite H1. now rewrite IH.
Qed.

(** The first field of a split: the text before the first separator. *)
Lemma splitAcc_first sep a tail : forall cur,
  allChars (fun c => negb (Ascii.eqb c sep)) a = true ->
  tail = "" \/ (exists t, tail = String sep t) ->
  exists more, splitAcc sep cur (a ++ tail) = (reverse cur ++ a) :: more.
Proof.
  induction a as [|c a IH]; intros cur Ha Htail.
  - rewrite append_nil_l, append_nil_r.
    destruct Htail as [->|[t ->]]; simpl; [eauto|].
    rewrite Ascii.eqb_refl. eauto.
  - simpl in Ha. apply andb_prop in Ha as [Hc Ha]. apply negb_true_iff in Hc.
    rewrite append_cons. simpl. rewrite Hc.
    destruct (IH (String c cur) Ha Htail) as [more ->].
    exists more. now rewrite reverse_cons, append_assoc.
Qed.

(** The key of a decorated family: whitespace around it, quotes around the
    name, and other families after a comma, all fall away. *)
Lemma primaryFamilyOf_decorated name ws1 q1 q2 ws2 tail :
  bareFamily name ->
  allChars isWhitespace ws1 = true ->
  allChars isWhitespace ws2 = true ->
  allChars isQuote q1 = true ->
  allChars isQuote q2 = true ->
  tail = "" \/ (exists t, tail = String "," t) ->
  primaryFamilyOf (ws1 ++ q1 ++ name ++ q2 ++ ws2 ++ tail) = name.
Proof.
  intros (Hstart & Hend & Hplain) Hws1 Hws2 Hq1 Hq2 Htail.
  unfold primaryFamilyOf, split.
  replace (ws1 ++ q1 ++ name ++ q2 ++ ws2 ++ tail)
    with ((ws1 ++ (q1 ++ name ++ q2) ++ ws2) ++ tail)
    by now rewrite !append_assoc.
  destruct (splitAcc_first "," (ws1 ++ (q1 ++ name ++ q2) ++ ws2) tail "") as [more ->];
    [|exact Htail|].
  { rewrite !allChars_append.
    rewrite (allChars_impl _ _ ws1 whitespace_not_comma Hws1).
    rewrite (allChars_impl _ _ ws2 whitespace_not_comma Hws2).
    rewrite (allChars_impl _ _ q1 quote_not_comma Hq1).
    rewrite (allChars_impl _ _ q2 quote_not_comma Hq2).
    now rewrite (allChars_impl _ _ name plain_not_comma Hplain). }
  rewrite append_nil_l. simpl. rewrite trim_decorated; [| | |exact Hws1|exact Hws2].
  - unfold removeQuotes. rewrite !filterChars_append.
    fold (removeQuotes q1) (removeQuotes name) (removeQuotes q2).
    now rewrite (removeQuotes_quotes _ Hq1), (removeQuotes_quotes _ Hq2),
                (removeQuotes_plain _ Hplain), append_nil_r.
  - apply startsTight_quotes; [exact Hq1|]. now apply startsTight_append.
  - rewrite !reverse_append. apply startsTight_append.
    apply startsTight_quotes; [now rewrite allChars_reverse|exact Hend].
Qed.

End StringFacts.

(* --------------------------------------------------------------------- *)
(** ** Font resolution                                                     *)
(* --------------------------------------------------------------------- *)

(** Induction on IR nodes, with the hypothesis for every child. *)
Lemma IRNode_children_ind (P : IRNode -> Prop) :
  (forall t p sty kids, Forall P kids -> P (Node t p sty kids)) ->
  forall n, P n.
Proof.
  intros H. fix IH 1. intros [t p sty kids]. apply H.
  induction kids as [|k kids IHkids]; constructor; [apply IH|exact IHkids].
Qed.

Section AssocLists.

Context {V : Type}.
Implicit Types (m : list (string * V)) (k : string) (v : V).

Lemma assocGet_assocSet_eq k v m : assocGet k (assocSet k v m) = Some v.
Proof.
  induction m as [|[k' v'] m IH]; simpl.
  - now rewrite String.eqb_refl.
  - destruct (String.eqb k k') eqn:E; simpl; rewrite ?String.eqb_refl, ?E; auto.
Qed.

Lemma assocSet_assocSet k v v' m : assocSet k v (assocSet k v' m) = assocSet k v m.
Proof.
  induction m as [|[k' w] m IH]; simpl.
  - now rewrite String.eqb_refl.
  - destruct (String.eqb k k') eqn:E; simpl; rewrite ?String.eqb_refl, ?E; congruence.
Qed.

Lemma assocSet_Forall (Q : string * V -> Prop) k v m :
  Q (k, v) -> Forall Q m -> Forall Q (assocSet k v m).
Proof.
  intros Hv. induction 1 as [|[k' v'] m Hx Hm IH]; simpl.
  - repeat constructor. exact Hv.
  - destruct (String.eqb k k'); constructor; assumption.
Qed.

Lemma assocSet_not_nil k v m : assocSet k v m ≠ [].
Proof. destruct m as [|[k' v'] m]; simpl; [|destruct (String.eqb k k')]; discriminate. Qed.

Lemma assocHas_true k m : assocHas k m = true -> exists v, assocGet k m = Some v.
Proof. unfold assocHas. destruct (assocGet k m) as [v|]; [eauto|discriminate]. Qed.

Lemma assocHas_false k m : assocHas k m = false -> assocGet k m = None.
Proof. unfold assocHas. destruct (assocGet k m); [discriminate|reflexivity]. Qed.

Lemma assocGet_None_keys k m : assocGet k m = None -> k ∉ map fst m.
Proof.
  induction m as [|[k' v'] m IH]; simpl; intros H.
  - apply not_elem_of_nil.
  - destruct (String.eqb k k') eqn:E; [discriminate|].
    apply String.eqb_neq in E. apply not_elem_of_cons. split; [exact E|now apply IH].
Qed.

Lemma assocSet_keys k v m :
  map fst (assocSet k v m)
  = if assocHas k m then map fst m else map fst m ++ [k].
Proof.
  unfold assocHas. induction m as [|[k' v'] m IH]; simpl; [reflexivity|].
  destruct (String.eqb k k') eqn:E; simpl.
  - apply String.eqb_eq in E. now subst.
  - rewrite IH. now destruct (assocGet k m).
Qed.

Lemma assocSet_keys_NoDup k v m : NoDup (map fst m) -> NoDup (map fst (assocSet k v m)).
Proof.
  intros H. rewrite assocSet_keys. destruct (assocHas k m) eqn:E; [exact H|].
  apply NoDup_app. split; [exact H|]. split.
  - intros x Hx Hk. apply list_elem_of_singleton in Hk as ->.
    now apply (assocGet_None_keys k m (assocHas_false _ _ E)).
  - apply NoDup_singleton.
Qed.

Lemma assocSet_keys_subseteq k v m : map fst m ⊆ map fst (assocSet k v m).
Proof.
  rewrite assocSet_keys. destruct (assocHas k m); [reflexivity|].
  intros x Hx. apply elem_of_app. now left.
Qed.

Lemma assocSet_keys_elem k v m : k ∈ map fst (assocSet k v m).
Proof.
  rewrite assocSet_keys. destruct (assocHas k m) eqn:E.
  - destruct (assocHas_true _ _ E) as [w Hw]. clear E.
    induction m as [|[k' v'] m IH]; simpl in *; [discriminate|].
    destruct (String.eqb k k') eqn:E'.
    + apply String.eqb_eq in E'. subst. left.
    + right. now apply IH.
  - apply elem_of_app. right. left.
Qed.

End AssocLists.

Lemma elem_of_map {A B} (f : A -> B) (l : list A) (y : B) :
  y ∈ map f l <-> exists x, y = f x /\ x ∈ l.
Proof.
  rewrite list_elem_of_In, in_map_iff. split.
  - intros (x & <- & Hx). exists x. now rewrite list_elem_of_In.
  - intros (x & -> & Hx). exists x. now rewrite <- list_elem_of_In.
Qed.

Lemma setAdd_not_nil x s : setAdd x s ≠ [].
Proof.
  unfold setAdd. case_bool_decide as H.
  - intros ->. now apply not_elem_of_nil in H.
  - destruct s; discriminate.
Qed.

(** ** Sorting

    The sort rearranges; on finite numbers it puts them in ascending
    order. *)
Section SortFacts.

Lemma runRest_le d p l : (runRest d p l <= length l)%nat.
Proof.
  revert p. induction l as [|x l IH]; intros p; simpl; [lia|].
  destruct (Bool.eqb _ d); [specialize (IH x)|]; lia.
Qed.

Lemma countAndMakeRun_Permutation l : (countAndMakeRun l).1 ≡ₚ l.
Proof.
  destruct l as [|a [|b rest]]; try reflexivity. unfold countAndMakeRun.
  destruct (differenceNegative b a); [|reflexivity]. cbn [fst].
  rewrite <- Permutation_rev. now rewrite take_drop.
Qed.

Lemma countAndMakeRun_length l :
  length (countAndMakeRun l).1 = length l.
Proof. apply Permutation_length, countAndMakeRun_Permutation. Qed.

Lemma binaryInsertionSort_Permutation rest : forall sorted,
  binaryInsertionSort sorted rest ≡ₚ sorted ++ rest.
Proof.
  induction rest as [|x rest IH]; intros sorted; simpl.
  - now rewrite app_nil_r.
  - rewrite IH.
    set (p := insertionPoint (length sorted) x sorted 0 (length sorted)).
    rewrite <- (take_drop p sorted) at 3.
    rewrite <- !app_assoc. apply Permutation_app_head. simpl.
    apply Permutation_middle.
Qed.

Lemma sortDefined_Permutation l : sortDefined l ≡ₚ l.
Proof.
  unfold sortDefined. pose proof (countAndMakeRun_Permutation l) as H.
  destruct (countAndMakeRun l) as [work run]. simpl in H.
  rewrite binaryInsertionSort_Permutation, take_drop. exact H.
Qed.

Lemma sortNumeric_Permutation l : sortNumeric l ≡ₚ l.
Proof.
  unfold sortNumeric. rewrite sortDefined_Permutation.
  induction l as [|x l IH]; [reflexivity|]. simpl.
  destruct (isUndefined x); simpl.
  - rewrite <- Permutation_middle. now constructor.
  - now constructor.
Qed.


Abbreviation finite := (fun v => isFiniteNumber v = true).

Lemma differenceNegative_Fin x y :
  (differenceNegative (num x) (num y) = true <-> (x < y)%Q)
  /\ (differenceNegative (num x) (num y) = false <-> (y <= x)%Q).
Proof.
  unfold num. simpl. unfold numberLt. rewrite negb_true_iff, negb_false_iff.
  rewrite Qle_bool_iff. split; [|reflexivity].
  split.
  - intros H. apply Qnot_le_lt. intros Hle. apply Qle_bool_iff in Hle. congruence.
  - intros H. destruct (Qle_bool y x) eqn:E; [|reflexivity].
    apply Qle_bool_iff in E. lra.
Qed.

Ltac order_facts :=
  cbv beta in *;
  repeat match goal with
         | v : JSValue |- _ =>
             match goal with
             | H : isFiniteNumber v = true |- _ =>
                 destruct v as [| | |[| |?]| | | | | |]; try discriminate H; clear H
             end
         end;
  change (fun q => VNum (Fin q)) with num in *;
  repeat match goal with
         | H : differenceNegative (VNum (Fin ?x)) (VNum (Fin ?y)) = true |- _ =>
             apply (proj1 (differenceNegative_Fin x y)) in H
         | H : differenceNegative (VNum (Fin ?x)) (VNum (Fin ?y)) = false |- _ =>
             apply (proj2 (differenceNegative_Fin x y)) in H
         | |- differenceNegative (VNum (Fin ?x)) (VNum (Fin ?y)) = true =>
             apply (proj1 (differenceNegative_Fin x y))
         | |- differenceNegative (VNum (Fin ?x)) (VNum (Fin ?y)) = false =>
             apply (proj2 (differenceNegative_Fin x y))
         end;
  try lra.

Lemma elem_of_take_list {A} (y : A) n l : y ∈ take n l -> y ∈ l.
Proof.
  intros H. assert (F : Forall (fun x => x ∈ l) l) by now apply Forall_forall.
  apply Forall_take with (n := n) in F. rewrite Forall_forall in F. now apply F.
Qed.

Lemma elem_of_drop_list {A} (y : A) n l : y ∈ drop n l -> y ∈ l.
Proof.
  intros H. assert (F : Forall (fun x => x ∈ l) l) by now apply Forall_forall.
  apply Forall_drop with (n := n) in F. rewrite Forall_forall in F. now apply F.
Qed.

Lemma below_trans p m y :
  finite p -> finite m -> finite y ->
  differenceNegative p m = true -> differenceNegative y m = false ->
  differenceNegative p y = true.
Proof. intros Hp Hm Hy H1 H2. order_facts. Qed.

Lemma not_below_trans a b c :
  finite a -> finite b -> finite c ->
  differenceNegative b a = false -> differenceNegative c b = false ->
  differenceNegative c a = false.
Proof. intros Ha Hb Hc H1 H2. order_facts. Qed.

Lemma below_chain a b c :
  finite a -> finite b -> finite c ->
  differenceNegative b a = true -> differenceNegative c b = true ->
  differenceNegative c a = true.
Proof. intros Ha Hb Hc H1 H2. order_facts. Qed.

Lemma below_asymmetric a b :
  finite a -> finite b ->
  differenceNegative a b = true -> differenceNegative b a = false.
Proof. intros Ha Hb H. order_facts. Qed.

Lemma ascending_app l1 l2 :
  ascending (l1 ++ l2)
  <-> ascending l1 /\ ascending l2
      /\ Forall (fun x => Forall (fun later => differenceNegative later x = false) l2) l1.
Proof.
  induction l1 as [|x l1 IH]; simpl.
  - split; [intros H; repeat split; [exact H|constructor]|tauto].
  - rewrite Forall_app, IH, Forall_cons. tauto.
Qed.

(** The elements of a run that goes up. *)
Lemma runRest_ascending rest : forall previous,
  finite previous -> Forall finite rest ->
  ascending (previous :: take (runRest false previous rest) rest).
Proof.
  induction rest as [|x rest IH]; intros p Hp Hrest; simpl.
  - split; [constructor|exact I].
  - apply Forall_cons in Hrest as [Hx Hrest].
    destruct (differenceNegative x p) eqn:E; simpl; [split; [constructor|exact I]|].
    specialize (IH x Hx Hrest). split; [|exact IH].
    constructor; [exact E|]. destruct IH as [IH _].
    apply Forall_forall. intros y Hy.
    rewrite Forall_forall in IH, Hrest.
    assert (Hfy : finite y) by (apply Hrest; eapply elem_of_take_list; exact Hy).
    exact (not_below_trans p x y Hp Hx Hfy E (IH y Hy)).
Qed.

Lemma runRest_descending rest : forall previous,
  finite previous -> Forall finite rest ->
  descending (previous :: take (runRest true previous rest) rest).
Proof.
  induction rest as [|x rest IH]; intros p Hp Hrest; simpl.
  - split; [constructor|exact I].
  - apply Forall_cons in Hrest as [Hx Hrest].
    destruct (differenceNegative x p) eqn:E; simpl; [|split; [constructor|exact I]].
    specialize (IH x Hx Hrest). split; [|exact IH].
    constructor; [exact E|]. destruct IH as [IH _].
    apply Forall_forall. intros y Hy.
    rewrite Forall_forall in IH, Hrest.
    assert (Hfy : finite y) by (apply Hrest; eapply elem_of_take_list; exact Hy).
    exact (below_chain p x y Hp Hx Hfy E (IH y Hy)).
Qed.

Lemma descending_rev l : Forall finite l -> descending l -> ascending (List.rev l).
Proof.
  induction l as [|x l IH]; intros Hl Hd; simpl; [exact I|].
  apply Forall_cons in Hl as [Hx Hl]. destruct Hd as [Hall Hd].
  apply ascending_app. split; [now apply IH|]. split; [split; [constructor|exact I]|].
  apply Forall_forall. intros y Hy. constructor; [|constructor].
  apply list_elem_of_In, in_rev, list_elem_of_In in Hy.
  rewrite Forall_forall in Hall, Hl.
  apply below_asymmetric; auto.
Qed.

Lemma countAndMakeRun_ascending l :
  Forall finite l ->
  ascending (take (countAndMakeRun l).2 (countAndMakeRun l).1).
Proof.
  destruct l as [|a [|b rest]]; intros Hl.
  - exact I.
  - split; [constructor|exact I].
  - apply Forall_cons in Hl as [Ha Hl]. pose proof Hl as Hbrest.
    apply Forall_cons in Hl as [Hb Hrest].
    unfold countAndMakeRun.
    destruct (differenceNegative b a) eqn:E; cbn [fst snd].
    + set (n := (2 + runRest true b rest)%nat).
      assert (Hn : length (List.rev (take n (a :: b :: rest))) = n).
      { rewrite length_rev, length_take. subst n. simpl.
        pose proof (runRest_le true b rest). lia. }
      rewrite take_app_length' by (symmetry; exact Hn).
      apply descending_rev.
      * apply Forall_take. now constructor.
      * subst n. simpl take.
        pose proof (runRest_descending rest b Hb Hrest) as [H1 H2].
        split; [|split; assumption].
        constructor; [exact E|].
        apply Forall_forall. intros y Hy. rewrite Forall_forall in H1, Hrest.
        assert (Hfy : finite y) by (apply Hrest; eapply elem_of_take_list; exact Hy).
        exact (below_chain a b y Ha Hb Hfy E (H1 y Hy)).
    + simpl take.
      pose proof (runRest_ascending rest b Hb Hrest) as [H1 H2].
      split; [|split; assumption].
      constructor; [exact E|].
      apply Forall_forall. intros y Hy. rewrite Forall_forall in H1, Hrest.
      assert (Hfy : finite y) by (apply Hrest; eapply elem_of_take_list; exact Hy).
      exact (not_below_trans a b y Ha Hb Hfy E (H1 y Hy)).
Qed.

(** The binary search ends at the place that divides the elements the
    pivot is not smaller than from the elements it is smaller than. *)
Lemma insertionPoint_divides pivot sorted :
  finite pivot -> Forall finite sorted -> ascending sorted ->
  forall rounds left right,
    (left <= right <= length sorted)%nat -> (right - left <= rounds)%nat ->
    Forall (fun x => differenceNegative pivot x = false) (take left sorted) ->
    Forall (fun x => differenceNegative pivot x = true) (drop right sorted) ->
    let p := insertionPoint rounds pivot sorted left right in
    Forall (fun x => differenceNegative pivot x = false) (take p sorted)
    /\ Forall (fun x => differenceNegative pivot x = true) (drop p sorted).
Proof.
  intros Hp Hfin Hasc.
  induction rounds as [|rounds IH]; intros left right Hlr Hrounds Hleft Hright;
    cbn [insertionPoint].
  - assert (left = right) as -> by lia. now split.
  - destruct (left <? right)%nat eqn:Hlt.
    2:{ apply Nat.ltb_ge in Hlt. assert (left = right) as -> by lia. now split. }
    apply Nat.ltb_lt in Hlt.
    set (mid := (left + (right - left) / 2)%nat).
    assert (Hmid : (left <= mid < right)%nat).
    { subst mid. split; [lia|].
      assert ((right - left) / 2 < right - left)%nat
        by (apply Nat.div_lt; lia). lia. }
    destruct (lookup_lt_is_Some_2 sorted mid) as [m Hm]; [lia|].
    fold mid. rewrite Hm. change (default VUndefined (Some m)) with m.
    assert (Hfm : finite m).
    { rewrite Forall_forall in Hfin. apply Hfin. eapply list_elem_of_lookup_2; exact Hm. }
    rewrite <- (take_drop mid sorted) in Hasc.
    apply ascending_app in Hasc as (_ & Hdrop & Hcross).
    rewrite (drop_S _ _ _ Hm) in Hdrop, Hcross.
    destruct (differenceNegative pivot m) eqn:E.
    + apply IH; [lia| |exact Hleft|].
      { assert ((right - left) / 2 < right - left)%nat by (apply Nat.div_lt; lia).
        subst mid. lia. }
      rewrite (drop_S _ _ _ Hm). constructor; [exact E|].
      destruct Hdrop as [Hlater _].
      apply Forall_forall. intros y Hy. rewrite Forall_forall in Hlater, Hfin.
      assert (Hfy : finite y).
      { apply Hfin. eapply elem_of_drop_list; exact Hy. }
      exact (below_trans pivot m y Hp Hfm Hfy E (Hlater y Hy)).
    + apply IH; [lia|lia| |exact Hright].
      replace (mid + 1)%nat with (S mid) by lia.
      rewrite (take_S_r _ _ _ Hm). apply Forall_app. split; [|constructor; [exact E|constructor]].
      apply Forall_forall. intros y Hy. rewrite Forall_forall in Hcross, Hfin.
      assert (Hfy : finite y).
      { apply Hfin. eapply elem_of_take_list; exact Hy. }
      specialize (Hcross y Hy). apply Forall_cons in Hcross as [Hym _].
      exact (not_below_trans y m pivot Hfy Hfm Hp Hym E).
Qed.

Lemma binaryInsertionSort_ascending rest : forall sorted,
  Forall finite sorted -> Forall finite rest -> ascending sorted ->
  ascending (binaryInsertionSort sorted rest).
Proof.
  induction rest as [|pivot rest IH]; intros sorted Hs Hrest Hasc; simpl; [exact Hasc|].
  apply Forall_cons in Hrest as [Hp Hrest].
  destruct (insertionPoint_divides pivot sorted Hp Hs Hasc (length sorted) 0 (length sorted))
    as [Hbefore Hafter]; [lia|lia|constructor|rewrite drop_all; constructor|].
  set (p := insertionPoint (length sorted) pivot sorted 0 (length sorted)) in *.
  apply IH; [|exact Hrest|].
  - apply Forall_app. split; [now apply Forall_take|].
    constructor; [exact Hp|now apply Forall_drop].
  - rewrite <- (take_drop p sorted) in Hasc.
    apply ascending_app in Hasc as (Ht & Hd & Hcross).
    apply ascending_app. split; [exact Ht|]. split.
    + split; [|exact Hd].
      apply Forall_forall. intros y Hy. rewrite Forall_forall in Hafter, Hs.
      apply below_asymmetric; auto. apply Hs. eapply elem_of_drop_list; exact Hy.
    + apply Forall_forall. intros x Hx. rewrite Forall_forall in Hcross, Hbefore.
      constructor; [now apply Hbefore|now apply Hcross].
Qed.

Lemma sortDefined_ascending l : Forall finite l -> ascending (sortDefined l).
Proof.
  intros Hl. unfold sortDefined.
  pose proof (countAndMakeRun_ascending l Hl) as Hrun.
  pose proof (countAndMakeRun_Permutation l) as Hperm.
  destruct (countAndMakeRun l) as [work run]. simpl in Hrun, Hperm.
  assert (Hwork : Forall finite work) by now rewrite Hperm.
  apply binaryInsertionSort_ascending;
    [now apply Forall_take|now apply Forall_drop|exact Hrun].
Qed.

Lemma sortNumeric_ascending l :
  Forall (fun v => isFiniteNumber v = true) l -> ascending (sortNumeric l).
Proof.
  intros Hl. unfold sortNumeric.
  assert (H : List.filter (fun v => negb (isUndefined v)) l = l
              /\ List.filter isUndefined l = []).
  { induction Hl as [|x l Hx _ [IH1 IH2]]; [split; reflexivity|]. simpl.
    destruct x; try discriminate Hx. simpl. now rewrite IH1. }
  destruct H as [-> ->]. rewrite app_nil_r. now apply sortDefined_ascending.
Qed.

Lemma length_sortNumeric l : length (sortNumeric l) = length l.
Proof. apply Permutation_length, sortNumeric_Permutation. Qed.

Lemma sortNumeric_not_nil l : l ≠ [] -> sortNumeric l ≠ [].
Proof.
  intros Hl Hs. destruct l; [congruence|].
  apply (f_equal length) in Hs. rewrite length_sortNumeric in Hs. discriminate.
Qed.

End SortFacts.

Section FontProperties.

Import Fonts.

(** What [visit] does to the font map when the node declares a family. *)
Lemma visit_inr sty m m' :
  visit sty m = inr m' ->
  m' = m
  \/ exists fam ws ss w st, m' = assocSet fam (setAdd w ws, setAdd st ss) m.
Proof.
  unfold visit.
  destruct (truthy (get sty "fontFamily")); [|intros [= <-]; now left].
  destruct (get sty "fontFamily") as [| | | |familyName| | | | |]; try discriminate.
  destruct (normalizeWeight (get sty "fontWeight")) as [e|w]; [discriminate|].
  destruct (assocHas (normalizeFamily familyName) m) eqn:Hhas.
  - destruct (assocHas_true _ _ Hhas) as [[ws ss] Hget]. rewrite Hget.
    intros [= <-]. right. eauto 10.
  - rewrite assocGet_assocSet_eq, assocSet_assocSet.
    intros [= <-]. right. eauto 10.
Qed.

Lemma visit_populated sty m m' :
  populated m -> visit sty m = inr m' -> populated m'.
Proof.
  intros Hm H. destruct (visit_inr _ _ _ H) as [->|(fam & ws & ss & w & st & ->)];
    [exact Hm|].
  apply assocSet_Forall; [|exact Hm].
  split; apply setAdd_not_nil.
Qed.

Lemma walk_populated n : forall m m',
  populated m -> walk n m = inr m' -> populated m'.
Proof.
  induction n as [t p sty kids IH] using IRNode_children_ind.
  intros m m' Hm. simpl.
  destruct (visit sty m) as [e|m1] eqn:Hv; [discriminate|].
  apply visit_populated in Hv; [|exact Hm].
  revert m1 Hv. induction IH as [|k kids Hk _ IHkids]; intros m1 Hm1.
  - now intros [= <-].
  - destruct (walk k m1) as [e|m2] eqn:Hw; [discriminate|].
    apply IHkids. exact (Hk _ _ Hm1 Hw).
Qed.

Lemma walkNodes_populated nodes : forall m m',
  populated m -> walkNodes nodes m = inr m' -> populated m'.
Proof.
  induction nodes as [|n nodes IH]; intros m m' Hm; simpl.
  - now intros [= <-].
  - destruct (walk n m) as [e|m1] eqn:Hw; [discriminate|].
    apply IH. exact (walk_populated _ _ _ Hm Hw).
Qed.

Lemma walkPages_populated ps : forall m m',
  populated m -> walkPages ps m = inr m' -> populated m'.
Proof.
  induction ps as [|pg ps IH]; intros m m' Hm; simpl.
  - now intros [= <-].
  - destruct (walkNodes (IR.children pg) m) as [e|m1] eqn:Hw; [discriminate|].
    apply IH. exact (walkNodes_populated _ _ _ Hm Hw).
Qed.

(** The manifest of [detectFontsFromIR] is never empty, and each of its
    families has a weight and a style. *)
Lemma detectFontsFromIR_populated ir usage :
  detectFontsFromIR ir = inr usage -> usage ≠ [] /\ populatedUsage usage.
Proof.
  unfold detectFontsFromIR.
  destruct (walkPages (pages ir) []) as [e|m] eqn:Hw; [discriminate|].
  apply walkPages_populated in Hw; [|constructor].
  intros [= <-]. split.
  - destruct m as [|x m]; simpl; discriminate.
  - assert (H : populated (if (length m =? 0)%nat
                           then assocSet (normalizeFamily DEFAULT_FONT)
                                         ([num 400], [VStr "normal"]) m
                           else m)).
    { destruct (length m =? 0)%nat; [|exact Hw].
      apply assocSet_Forall; [split; discriminate|exact Hw]. }
    unfold populatedUsage. apply Forall_fmap.
    eapply Forall_impl; [exact H|].
    intros [fam [ws ss]] [H1 H2]. simpl in *. split; [|exact H2].
    now apply sortNumeric_not_nil.
Qed.

Lemma requestsOf_not_nil usage :
  usage ≠ [] -> populatedUsage usage -> requestsOf usage ≠ [].
Proof.
  destruct usage as [|u usage]; [congruence|]. intros _ H.
  apply Forall_cons in H as [[Hw Hs] _].
  unfold requestsOf. simpl.
  destruct (weights u) as [|w ws]; [congruence|].
  destruct (styles u) as [|st ss]; [congruence|].
  simpl. discriminate.
Qed.

Lemma elem_of_requestsOf usage fam w st :
  (fam, w, st) ∈ requestsOf usage
  <-> exists u, u ∈ usage /\ fam = family u /\ w ∈ weights u /\ st ∈ styles u.
Proof.
  unfold requestsOf. rewrite !list_elem_of_In, in_flat_map. split.
  - intros (u & Hu & H). apply in_flat_map in H as (w' & Hw & H).
    apply in_map_iff in H as (st' & [= <- <- <-] & Hst).
    exists u. rewrite !list_elem_of_In. auto.
  - intros (u & Hu & -> & Hw & Hst). rewrite !list_elem_of_In in *.
    exists u. split; [exact Hu|]. apply in_flat_map. exists w. split; [exact Hw|].
    apply in_map_iff. exists st. auto.
Qed.

(** The requests in the order of the loops: family by family, weight by
    weight, style by style. *)
Lemma requestsOf_product usage :
  requestsOf usage
  = flat_map (fun u => map (fun ws => (family u, ws.1, ws.2))
                           (list_prod (weights u) (styles u)))
             usage.
Proof.
  unfold requestsOf. induction usage as [|u usage IH]; [reflexivity|].
  simpl. rewrite IH. f_equal.
  induction (weights u) as [|w ws IHw]; [reflexivity|].
  simpl. rewrite IHw, map_app, map_map. reflexivity.
Qed.

Lemma elem_of_fulfilled {A} (results : list (Exception + A)) (x : A) :
  x ∈ fulfilled results <-> inr x ∈ results.
Proof.
  unfold fulfilled. rewrite list_elem_of_omap. split.
  - intros ([e|y] & Hin & Heq); simplify_eq. exact Hin.
  - intros Hin. exists (inr x). split; [exact Hin|reflexivity].
Qed.

Lemma fulfilled_nil_all_rejected {A} (results : list (Exception + A)) :
  (forall r, r ∈ results -> exists e, r = inl e) ->
  fulfilled results = [] /\ map inl (rejected results) = results.
Proof.
  induction results as [|r results IH]; intros H; [split; reflexivity|].
  destruct (H r) as [e ->]; [left|].
  destruct IH as [IH1 IH2]; [intros r' Hr'; apply H; now right|].
  split.
  - exact IH1.
  - change (inl e :: map inl (rejected results) = inl e :: results).
    now rewrite IH2.
Qed.

(** A node that declares no font adds nothing to the font map. *)
Lemma walk_no_font n : declaresNoFont n = true -> forall m, walk n m = inr m.
Proof.
  induction n as [t p sty kids IH] using IRNode_children_ind.
  intros Hn m. simpl in Hn. apply andb_prop in Hn as [Hfam Hkids].
  apply negb_true_iff in Hfam. simpl. unfold visit. rewrite Hfam.
  induction IH as [|k kids Hk _ IHkids]; [reflexivity|].
  simpl in Hkids. apply andb_prop in Hkids as [Hk1 Hk2].
  rewrite (Hk Hk1). now apply IHkids.
Qed.

Lemma walkNodes_no_font nodes m :
  forallb declaresNoFont nodes = true -> walkNodes nodes m = inr m.
Proof.
  induction nodes as [|n nodes IH]; simpl; [reflexivity|].
  intros H. apply andb_prop in H as [H1 H2]. rewrite (walk_no_font _ H1).
  now apply IH.
Qed.

Lemma walkPages_no_font ps m :
  Forall (fun pg => forallb declaresNoFont (IR.children pg) = true) ps ->
  walkPages ps m = inr m.
Proof.
  induction 1 as [|pg ps Hpg _ IH]; simpl; [reflexivity|].
  rewrite (walkNodes_no_font _ _ Hpg). exact IH.
Qed.

Variable loadFont : string -> JSValue -> JSValue -> Exception + LoadedFont.

(** Whatever the document, a list of fonts that is returned has a font in
    it. *)
Lemma loadFontsForDocument_not_nil ir loaded :
  loadFontsForDocument loadFont ir = inr loaded -> loaded ≠ [].
Proof.
  unfold loadFontsForDocument.
  destruct (detectFontsFromIR ir) as [e|usage] eqn:Hdetect; [discriminate|].
  destruct (detectFontsFromIR_populated _ _ Hdetect) as [Hne Hpop].
  pose proof (requestsOf_not_nil usage Hne Hpop) as Hreq.
  destruct (requestsOf usage) as [|r rest]; [congruence|]. simpl.
  destruct (settle loadFont r) as [e|font] eqn:Hr.
  - change (rejected (inl e :: map (settle loadFont) rest))
      with (e :: rejected (map (settle loadFont) rest)).
    change (fulfilled (inl e :: map (settle loadFont) rest))
      with (fulfilled (map (settle loadFont) rest)).
    destruct (fulfilled (map (settle loadFont) rest)); [discriminate|].
    intros [= <-]. discriminate.
  - change (fulfilled (inr font :: map (settle loadFont) rest))
      with (font :: fulfilled (map (settle loadFont) rest)).
    intros [= <-]. discriminate.
Qed.

(** C3.  Bulk font resolution.  The manifest detected from a document is
    never empty and every family in it has a weight and a style; the
    requests are the combinations of a family of the manifest with one of
    its weights and one of its styles, family by family, weight by weight
    and style by style, and every one of them is settled.
    If at least one request succeeds, the call returns the fonts of the
    requests that succeeded, in the order of the requests, and no error;
    if every request fails, it throws the error of the first request,
    which is the one for the first family with its first weight and its
    first style. *)
Theorem loadFontsForDocument_settles (ir : IRDocument) (usage : list IRFontUsage) :
  detectFontsFromIR ir = inr usage ->
  usage ≠ []
  /\ populatedUsage usage
  /\ (forall fam weight fontStyle,
         (fam, weight, fontStyle) ∈ requestsOf usage
         <-> exists u, u ∈ usage /\ family u = fam
                       /\ weight ∈ weights u /\ fontStyle ∈ styles u)
  /\ requestsOf usage
     = flat_map (fun u => map (fun ws => (family u, ws.1, ws.2))
                              (list_prod (weights u) (styles u)))
                usage
  /\ ((exists fam weight fontStyle font,
          (fam, weight, fontStyle) ∈ requestsOf usage
          /\ loadFont fam weight fontStyle = inr font) ->
      exists loaded,
        loadFontsForDocument loadFont ir = inr loaded
        /\ loaded = fulfilled (map (settle loadFont) (requestsOf usage))
        /\ forall font,
             font ∈ loaded
             <-> exists fam weight fontStyle,
                   (fam, weight, fontStyle) ∈ requestsOf usage
                   /\ loadFont fam weight fontStyle = inr font)
  /\ ((forall fam weight fontStyle,
          (fam, weight, fontStyle) ∈ requestsOf usage ->
          exists e, loadFont fam weight fontStyle = inl e) ->
      exists u others weight weights' fontStyle styles' e0,
        usage = u :: others
        /\ weights u = weight :: weights'
        /\ styles u = fontStyle :: styles'
        /\ loadFont (family u) weight fontStyle = inl e0
        /\ loadFontsForDocument loadFont ir = inl e0).
Proof.
  intros Hdetect.
  destruct (detectFontsFromIR_populated _ _ Hdetect) as [Hne Hpop].
  split; [exact Hne|]. split; [exact Hpop|]. split.
  { intros fam weight fontStyle. rewrite elem_of_requestsOf.
    split; intros (u & Hu & Hf & Hw & Hs); exists u; auto. }
  split; [apply requestsOf_product|].
  unfold loadFontsForDocument. rewrite Hdetect.
  set (results := map (settle loadFont) (requestsOf usage)).
  assert (Hsettled : forall font,
             font ∈ fulfilled results
             <-> exists fam weight fontStyle,
                   (fam, weight, fontStyle) ∈ requestsOf usage
                   /\ loadFont fam weight fontStyle = inr font).
  { intros font. rewrite elem_of_fulfilled. subst results. rewrite elem_of_map. split.
    - intros ([[fam weight] fontStyle] & Heq & Hr). exists fam, weight, fontStyle. auto.
    - intros (fam & weight & fontStyle & Hr & Heq). exists (fam, weight, fontStyle). auto. }
  split.
  - intros (fam & weight & fontStyle & font & Hr & Hfont).
    assert (Hin : font ∈ fulfilled results) by (apply Hsettled; eauto).
    exists (fulfilled results). split; [|split; [reflexivity|exact Hsettled]].
    destruct (fulfilled results); [now apply not_elem_of_nil in Hin|reflexivity].
  - intros Hall.
    destruct usage as [|u others]; [congruence|].
    pose proof Hpop as Hu. apply Forall_cons in Hu as [[Hw Hs] _].
    destruct (weights u) as [|weight weights'] eqn:Ew; [congruence|].
    destruct (styles u) as [|fontStyle styles'] eqn:Es; [congruence|].
    assert (Hreq : exists rest, requestsOf (u :: others) = (family u, weight, fontStyle) :: rest).
    { unfold requestsOf. simpl. rewrite Ew, Es. simpl. eauto. }
    destruct Hreq as [rest Hreq].
    destruct (Hall (family u) weight fontStyle) as [e0 He0].
    { rewrite Hreq. left. }
    exists u, others, weight, weights', fontStyle, styles', e0.
    split; [reflexivity|]. split; [exact Ew|]. split; [exact Es|].
    split; [exact He0|].
    destruct (fulfilled_nil_all_rejected results) as [Hnil Hrej].
    { subst results. intros r Hr. apply elem_of_map in Hr as ([[fam w] st] & -> & Hq).
      now apply Hall. }
    rewrite Hnil. subst results. rewrite Hreq.
    change (rejected (map (settle loadFont) ((family u, weight, fontStyle) :: rest)))
      with (rejected (loadFont (family u) weight fontStyle :: map (settle loadFont) rest)).
    rewrite He0. reflexivity.
Qed.

End FontProperties.

(** Of the two weights of the sample document only the regular one loads:
    the call returns that one font. *)
Lemma loadFontsForDocument_settles_witness :
  exists loaded,
    Fonts.loadFontsForDocument Samples.regularOnly Samples.interDocument = inr loaded
    /\ length loaded = 1%nat.
Proof.
  destruct (loadFontsForDocument_settles Samples.regularOnly Samples.interDocument
              [{| family := "inter"; weights := [num 400; num 700];
                  styles := [VStr "normal"] |}] eq_refl) as (_ & _ & _ & _ & H & _).
  destruct H as (loaded & Hload & -> & _).
  - exists "inter", (num 400), (VStr "normal"). eexists. split; [left|reflexivity].
  - exists (Fonts.fulfilled
              (map (Fonts.settle Samples.regularOnly)
                   (Fonts.requestsOf
                      [{| family := "inter"; weights := [num 400; num 700];
                          styles := [VStr "normal"] |}]))).
    split; [exact Hload|reflexivity].
Defined.

(* --------------------------------------------------------------------- *)
(** ** The Tree Converter                                                  *)
(* --------------------------------------------------------------------- *)

(** Induction on renderable values, with the hypothesis for the items of an
    array and for the children of an element. *)
Lemma ReactNode_children_ind (P : ReactNode -> Prop) :
  P RNull -> P RUndefined -> (forall b, P (RBool b)) -> (forall s, P (RString s)) ->
  (forall n, P (RNumber n)) ->
  (forall items, Forall P items -> P (RArray items)) ->
  (forall type cls sty a kids, P kids -> P (RElement type (mkProps cls sty a kids))) ->
  forall n, P n.
Proof.
  intros Hnull Hundef Hbool Hstr Hnum Harr Helem. fix IH 1.
  intros [| |b|s|n|items|type [cls sty a kids]].
  - exact Hnull.
  - exact Hundef.
  - apply Hbool.
  - apply Hstr.
  - apply Hnum.
  - apply Harr. induction items as [|x items IHitems]; constructor; [apply IH|exact IHitems].
  - apply Helem. apply IH.
Qed.

Lemma fuelFor_positive n : (1 <= fuelFor n)%nat.
Proof. destruct n as [| | | | | |type [cls sty a kids]]; simpl; lia. Qed.

Section ConverterProperties.

Variable Number_ : string -> JSNumber.
Variable percentOf : JSNumber -> JSNumber -> string.
Variable numberToString : JSNumber -> string.
Variable userComponents : string -> Props -> ReactNode.
Variable parseFloat_ : string -> JSNumber.
Variable now : Z.

Abbreviation unwrap := (unwrapElement userComponents).
Abbreviation convertE := (convertElement Number_ percentOf numberToString userComponents).
Abbreviation convertC := (convertChildren Number_ percentOf numberToString userComponents).
Abbreviation merged := (mergedStyleOf Number_ percentOf).

(** *** The loop of [unwrapElement] *)

Lemma unwrapElement_sound fuel : forall e r,
  unwrap fuel e = Some r -> Unwraps userComponents e r.
Proof.
  induction fuel as [|fuel IH]; intros [[tag|fn] p] r; simpl.
  - intros [= <-]. constructor.
  - discriminate.
  - intros [= <-]. constructor.
  - destruct (callComponent userComponents fn p) as [| | | | | |type' props'] eqn:E;
      try (intros [= <-]; apply Unwraps_break; now rewrite E).
    intros H. eapply Unwraps_call; [exact E|]. now apply IH.
Qed.

Lemma unwrapElement_complete e r :
  Unwraps userComponents e r ->
  exists fuel0, forall fuel, (fuel0 <= fuel)%nat -> unwrap fuel e = Some r.
Proof.
  induction 1 as [tag p|fn p Hbreak|fn p type' props' r Hcall _ [fuel0 IH]].
  - exists 0%nat. intros [|fuel] _; reflexivity.
  - exists 1%nat. intros [|fuel] Hle; [lia|]. simpl.
    destruct (callComponent userComponents fn p); try reflexivity. discriminate.
  - exists (S fuel0). intros [|fuel] Hle; [lia|]. simpl.
    rewrite Hcall. apply IH. lia.
Qed.

(** When every component of the user returns an element whose type is
    again one of these components, the loop has no exit. *)
Lemma always_composite_diverges :
  (forall name p, exists name' p',
      userComponents name p = RElement (FunctionType (UserFn name')) p') ->
  forall fuel name p context,
    unwrap fuel (FunctionType (UserFn name), p) = None
    /\ convertE fuel (FunctionType (UserFn name), p) context = None.
Proof.
  intros Hloop.
  assert (U : forall fuel name p, unwrap fuel (FunctionType (UserFn name), p) = None).
  { induction fuel as [|fuel IH]; intros name p; simpl; [reflexivity|].
    destruct (Hloop name p) as (name' & p' & ->). apply IH. }
  intros fuel name p context. split; [apply U|].
  destruct fuel as [|fuel]; simpl; [reflexivity|]. now rewrite U.
Qed.

(** From an element of a chain without end, the loop has no exit. *)
Lemma endless_chain_diverges chain :
  Endless userComponents chain ->
  forall fuel e context,
    chain e -> unwrap fuel e = None /\ convertE fuel e context = None.
Proof.
  intros Hchain.
  assert (U : forall fuel e, chain e -> unwrap fuel e = None).
  { induction fuel as [|fuel IH]; intros e He;
      destruct (Hchain e He) as (fn & p & type' & props' & -> & Hcall & Hnext);
      simpl; [reflexivity|].
    rewrite Hcall. now apply IH. }
  intros fuel e context He. split; [now apply U|].
  destruct fuel as [|fuel]; simpl; [reflexivity|]. now rewrite (U fuel e He).
Qed.

(** C1.  The unwrap step calls the function of a composite
    element with the props it received, again and again, until it reaches
    an element whose type is not a function or a function that returns
    something other than an element; it has no depth cap and raises no
    error of its own.  A chain of calls of any length that reaches such an
    element is followed to its end; from an element whose chain of calls
    has no end, as that of a composite that always returns another
    composite, neither the loop nor the conversion ever returns, with or
    without an error, whatever the other components do. *)
Theorem unwrapElement_has_no_depth_cap :
  (forall e r,
      (exists fuel0, forall fuel, (fuel0 <= fuel)%nat -> unwrap fuel e = Some r)
      <-> Unwraps userComponents e r)
  /\ (forall chain : ReactElement -> Prop,
         Endless userComponents chain ->
         forall e, chain e ->
         forall fuel context,
           unwrap fuel e = None /\ convertE fuel e context = None).
Proof.
  split.
  - intros e r. split.
    + intros [fuel0 H]. apply (unwrapElement_sound fuel0). now apply H.
    + apply unwrapElement_complete.
  - intros chain Hchain e He fuel context. now apply (endless_chain_diverges chain).
Qed.

(** *** The runs of the converter

    Every run of [convertElement] and [convertChildren] that returns is
    built from five steps; a property of contexts and nodes that the five
    steps preserve holds of every run. *)
Section Runs.

Variable QE : ConversionContext -> IRNode -> ConversionContext -> Prop.
Variable QC : ConversionContext -> list IRNode -> ConversionContext -> Prop.

Hypothesis run_nothing : forall c, QC c [] c.
Hypothesis run_leaf : forall c content, QC c [textLeaf content] c.
Hypothesis run_element : forall c n c', QE c n c' -> QC c [n] c'.
Hypothesis run_append : forall c ns c1 ms c2,
    QC c ns c1 -> QC c1 ms c2 -> QC c (ns ++ ms) c2.
Hypothesis run_node : forall type p c c1 kids c3,
    trackFonts (merged p) c = inr c1 ->
    QC (if bool_decide (getElementType type = image) && truthy (get (attrs p) "src")
        then trackImage (get (attrs p) "src") c1 else c1) kids c3 ->
    QE c (Node (getElementType type) (extractProps p (getElementType type))
               (convertStyle (merged p)) kids) c3.

Lemma eachChild_runs convert items :
  (forall child c ns c', convert child c = Some (inr (ns, c')) -> QC c ns c') ->
  forall c ns c', eachChild convert items c = Some (inr (ns, c')) -> QC c ns c'.
Proof.
  intros Hconvert. induction items as [|child rest IH]; intros c ns c'; simpl.
  - intros [= <- <-]. apply run_nothing.
  - destruct (convert child c) as [[e|[nodes c1]]|] eqn:E1; try discriminate.
    destruct (eachChild convert rest c1) as [[e|[more c2]]|] eqn:E2; try discriminate.
    intros [= <- <-]. eapply run_append; [eapply Hconvert|eapply IH]; eassumption.
Qed.

Lemma converter_runs fuel :
  (forall element c n c', convertE fuel element c = Some (inr (n, c')) -> QE c n c')
  /\ (forall kids c ns c', convertC fuel kids c = Some (inr (ns, c')) -> QC c ns c').
Proof.
  induction fuel as [|fuel [IHe IHc]]; [split; discriminate|]. split.
  - intros element c n c'. simpl.
    destruct (unwrap fuel element) as [[type p]|]; [|discriminate].
    destruct (trackFonts (merged p) c) as [e|c1] eqn:Ht; [discriminate|].
    match goal with
    | |- context [convertC fuel _ ?c2] =>
        destruct (convertC fuel (children p) c2) as [[e|[kids c3]]|] eqn:Hc
    end; try discriminate.
    intros [= <- <-]. eapply run_node; [exact Ht|]. eapply IHc. exact Hc.
  - intros kids c ns c'. simpl.
    destruct kids as [| | |content|n|items|type p];
      try (intros [= <- <-]; first [apply run_nothing|apply run_leaf]).
    + apply eachChild_runs. exact IHc.
    + destruct (convertE fuel (type, p) c) as [[e|[node c1]]|] eqn:He; try discriminate.
      intros [= <- <-]. apply run_element. eapply IHe. exact He.
Qed.

End Runs.

(** *** Fonts tracked during the walk *)

Lemma convertStyle_truthy (sty : CSSProperties) k :
  truthy (get (convertStyle sty) k) = truthy (get sty k).
Proof.
  unfold get, convertStyle.
  destruct (filter _ sty !! k) as [v|] eqn:E.
  - apply map_lookup_filter_Some in E as [E _]. now rewrite E.
  - destruct (sty !! k) as [v|] eqn:E'; [|reflexivity]. simpl.
    destruct (decide (v = VUndefined)) as [->|H1]; [reflexivity|].
    destruct (decide (v = VNull)) as [->|H2]; [reflexivity|].
    assert (F : filter (fun kv : string * JSValue => kv.2 ≠ VUndefined ∧ kv.2 ≠ VNull)
                       sty !! k = Some v).
    { apply map_lookup_filter_Some. split; [exact E'|]. now split. }
    congruence.
Qed.

Lemma convertStyle_get_string (sty : CSSProperties) k f :
  get (convertStyle sty) k = VStr f -> get sty k = VStr f.
Proof.
  unfold get, convertStyle.
  destruct (filter _ sty !! k) as [v|] eqn:E; [|discriminate].
  apply map_lookup_filter_Some in E as [E _]. now rewrite E.
Qed.

Lemma trackFonts_untouched sty c :
  truthy (get sty "fontFamily") = false -> trackFonts sty c = inr c.
Proof. intros H. unfold trackFonts. now rewrite H. Qed.

Lemma trackImage_fonts source c : ctxFonts (trackImage source c) = ctxFonts c.
Proof. unfold trackImage. now destruct (negb _). Qed.

(** What [trackFonts] does to the list of families. *)
Lemma trackFonts_families sty c c1 :
  trackFonts sty c = inr c1 ->
  (NoDup (familiesOf c) -> NoDup (familiesOf c1))
  /\ familiesOf c ⊆ familiesOf c1
  /\ (forall f, get sty "fontFamily" = VStr f -> primaryFamilyOf f ≠ "" ->
                primaryFamilyOf f ∈ familiesOf c1).
Proof.
  unfold trackFonts, familiesOf.
  destruct (truthy (get sty "fontFamily")) eqn:Ht.
  2: { intros [= <-]. split; [auto|]. split; [reflexivity|].
       intros f Hf Hne. rewrite Hf in Ht. simpl in Ht.
       apply negb_false_iff, String.eqb_eq in Ht. subst f. now contradict Hne. }
  destruct (get sty "fontFamily") as [| | | |familyString| | | | |] eqn:Hfam;
    try discriminate.
  destruct (isEmpty (primaryFamilyOf familyString)) eqn:Hkey; simpl.
  { intros [= <-]. split; [auto|]. split; [reflexivity|].
    intros f [= <-] Hne. apply String.eqb_eq in Hkey. contradiction. }
  set (key := primaryFamilyOf familyString).
  assert (G : forall ws,
             let fonts1 := if assocHas key (ctxFonts c) then ctxFonts c
                           else assocSet key [] (ctxFonts c) in
             assocSet key ws fonts1 = assocSet key ws (ctxFonts c)).
  { intros ws. simpl. destruct (assocHas key (ctxFonts c)); [reflexivity|].
    apply assocSet_assocSet. }
  destruct (nullish (get sty "fontWeight") (num 400)); try discriminate;
    intros [= <-]; simpl; rewrite G;
    (split; [apply assocSet_keys_NoDup|]);
    (split; [apply assocSet_keys_subseteq|]);
    intros f [= <-] _; apply assocSet_keys_elem.
Qed.

Lemma declaresNoFont_children t p sty kids :
  declaresNoFont (Node t p sty kids) = true ->
  truthy (get sty "fontFamily") = false /\ forallb declaresNoFont kids = true.
Proof.
  simpl. intros H. apply andb_prop in H as [H1 H2].
  split; [now apply negb_true_iff|exact H2].
Qed.

(** A run that yields nodes without a font family leaves the families of
    the context as they were. *)
Lemma convertElement_no_font fuel element c n c' :
  convertE fuel element c = Some (inr (n, c')) ->
  declaresNoFont n = true ->
  ctxFonts c' = ctxFonts c.
Proof.
  revert element c n c'.
  apply (converter_runs
           (fun c n c' => declaresNoFont n = true -> ctxFonts c' = ctxFonts c)
           (fun c ns c' => forallb declaresNoFont ns = true -> ctxFonts c' = ctxFonts c)).
  - reflexivity.
  - reflexivity.
  - intros c n c' H Hn. apply H. simpl in Hn. now apply andb_prop in Hn as [Hn _].
  - intros c ns c1 ms c2 H1 H2 H. rewrite forallb_app in H.
    apply andb_prop in H as [Hns Hms]. rewrite (H2 Hms). exact (H1 Hns).
  - intros type p c c1 kids c3 Ht Hkids Hn.
    apply declaresNoFont_children in Hn as [Hfam Hk].
    rewrite convertStyle_truthy in Hfam.
    rewrite (trackFonts_untouched _ _ Hfam) in Ht. injection Ht as <-.
    rewrite (Hkids Hk). destruct (_ && _); [apply trackImage_fonts|reflexivity].
Qed.

(** *** The pages of a document *)

Lemma normalizeMargin_returns margin :
  margin ≠ VNull -> exists m, normalizeMargin parseFloat_ margin = inr m.
Proof. destruct margin; intros H; try congruence; simpl; eauto. Qed.

Lemma convertToPage_ready node :
  pageReady node = true ->
  exists pg, convertToPage parseFloat_ node = inr pg.
Proof.
  unfold pageReady, convertToPage. intros H.
  apply andb_prop in H as [Hsize Hmargin].
  apply negb_true_iff in Hsize, Hmargin. apply bool_decide_eq_false in Hmargin.
  destruct (normalizeMargin_returns _ Hmargin) as [m ->].
  destruct (bool_decide (get (nodeProps node) "orientation" = VStr "landscape"));
    [|eauto].
  simpl in Hsize. rewrite Hsize. eauto.
Qed.

Lemma convertToPage_not_ready node :
  pageReady node = false ->
  exists msg, convertToPage parseFloat_ node = inl (OtherError msg).
Proof.
  unfold pageReady, convertToPage. intros H.
  destruct (bool_decide (get (nodeProps node) "orientation" = VStr "landscape"));
    simpl in H.
  - destruct (bool_decide (get (nodeProps node) "size" = VNull)); [simpl; eauto|].
    simpl in H. apply negb_false_iff, bool_decide_eq_true in H. rewrite H. simpl. eauto.
  - apply negb_false_iff, bool_decide_eq_true in H. rewrite H. simpl. eauto.
Qed.

Lemma convertToPage_children node pg :
  convertToPage parseFloat_ node = inr pg -> IR.children pg = nodeChildren node.
Proof.
  unfold convertToPage.
  destruct (if bool_decide _ then _ else _) as [e|sz]; [discriminate|].
  destruct (normalizeMargin parseFloat_ _) as [e|m]; [discriminate|].
  now intros [= <-].
Qed.

Lemma convertPages_ready nodes :
  forallb pageReady nodes = true -> exists pgs, convertPages parseFloat_ nodes = inr pgs.
Proof.
  induction nodes as [|n nodes IH]; simpl; [eauto|].
  intros H. apply andb_prop in H as [Hn Hrest].
  destruct (convertToPage_ready n Hn) as [pg ->].
  destruct (IH Hrest) as [pgs ->]. eauto.
Qed.

Lemma convertPages_not_ready nodes :
  forallb pageReady nodes = false ->
  exists msg, convertPages parseFloat_ nodes = inl (OtherError msg).
Proof.
  induction nodes as [|n nodes IH]; simpl; [discriminate|].
  destruct (pageReady n) eqn:Hn; simpl.
  - intros Hrest. destruct (convertToPage_ready n Hn) as [pg ->].
    destruct (IH Hrest) as [msg ->]. eauto.
  - intros _. destruct (convertToPage_not_ready n Hn) as [msg ->]. eauto.
Qed.

(** The pages are built when the page nodes are ready, and only then; what
    is thrown otherwise is the TypeError of the first page that is not. *)
Lemma documentPages_ready root :
  pagesReady root = true -> exists pgs, documentPages parseFloat_ root = inr pgs.
Proof.
  unfold pagesReady, documentPages. destruct (nodeType root); try (simpl; eauto).
  - apply convertPages_ready.
  - intros H. destruct (convertToPage_ready root H) as [pg ->]. eauto.
Qed.

Lemma documentPages_not_ready root :
  pagesReady root = false ->
  exists msg, documentPages parseFloat_ root = inl (OtherError msg).
Proof.
  unfold pagesReady, documentPages. destruct (nodeType root); try discriminate.
  - apply convertPages_not_ready.
  - intros H. destruct (convertToPage_not_ready root H) as [msg ->]. eauto.
Qed.

Lemma convertPages_no_font nodes : forall pgs,
  Forall (fun n => forallb declaresNoFont (nodeChildren n) = true) nodes ->
  convertPages parseFloat_ nodes = inr pgs ->
  Forall (fun pg => forallb declaresNoFont (IR.children pg) = true) pgs.
Proof.
  induction nodes as [|n nodes IH]; intros pgs Hn; simpl.
  - intros [= <-]. constructor.
  - apply Forall_cons in Hn as [Hn Hrest].
    destruct (convertToPage parseFloat_ n) as [e|pg] eqn:E; [discriminate|].
    destruct (convertPages parseFloat_ nodes) as [e|rest]; [discriminate|].
    intros [= <-]. constructor; [|now apply IH].
    now rewrite (convertToPage_children _ _ E).
Qed.

Lemma documentPages_no_font root pgs :
  declaresNoFont root = true ->
  documentPages parseFloat_ root = inr pgs ->
  Forall (fun pg => forallb declaresNoFont (IR.children pg) = true) pgs.
Proof.
  destruct root as [t p sty kids]. intros Hroot.
  pose proof (declaresNoFont_children _ _ _ _ Hroot) as [_ Hkids].
  unfold documentPages. simpl nodeType. simpl nodeChildren.
  destruct t.
  - apply convertPages_no_font. clear Hroot.
    induction kids as [|k kids IH]; simpl; [constructor|].
    simpl in Hkids. apply andb_prop in Hkids as [Hk Hrest].
    destruct (bool_decide (nodeType k = page)); simpl; [constructor|]; auto.
    destruct k as [t' p' sty' kids']. simpl.
    now apply declaresNoFont_children in Hk as [_ Hk].
  - destruct (convertToPage parseFloat_ _) as [e|pg] eqn:E; [discriminate|].
    intros [= <-]. constructor; [|constructor].
    now rewrite (convertToPage_children _ _ E).
  - simpl. intros [= <-]. constructor; [|constructor].
    cbn [IR.children forallb]. now rewrite Hroot.
  - simpl. intros [= <-]. constructor; [|constructor].
    cbn [IR.children forallb]. now rewrite Hroot.
  - simpl. intros [= <-]. constructor; [|constructor].
    cbn [IR.children forallb]. now rewrite Hroot.
  - simpl. intros [= <-]. constructor; [|constructor].
    cbn [IR.children forallb]. now rewrite Hroot.
Qed.

(** *** Trees of primitive elements *)

Lemma convertElement_S fuel element c :
  convertE (S fuel) element c
  = match unwrap fuel element with
    | None => None
    | Some (type, p) =>
        match trackFonts (merged p) c with
        | inl e => Some (inl e)
        | inr c1 =>
            match convertC fuel (children p)
                    (if bool_decide (getElementType type = image)
                        && truthy (get (attrs p) "src")
                     then trackImage (get (attrs p) "src") c1 else c1) with
            | None => None
            | Some (inl e) => Some (inl e)
            | Some (inr (kids, c3)) =>
                Some (inr (Node (getElementType type) (extractProps p (getElementType type))
                                (convertStyle (merged p)) kids, c3))
            end
        end
    end.
Proof. reflexivity. Qed.

Lemma unwrapElement_host fuel tag p :
  unwrap fuel (HostType tag, p) = Some (HostType tag, p).
Proof. destruct fuel; reflexivity. Qed.

(** A primitive element unwraps in one call, to an element with the same
    class string, explicit style and children. *)
Lemma unwrapElement_primitive fuel type p :
  isPrimitive type = true ->
  exists type' p',
    unwrap (S (S fuel)) (type, p) = Some (type', p')
    /\ className p' = className p /\ style p' = style p /\ children p' = children p.
Proof.
  destruct type as [tag|fn]; intros Hprim.
  - exists (HostType tag), p. now rewrite unwrapElement_host.
  - destruct fn; try discriminate;
      eexists _, _; (split; [reflexivity|]); repeat split.
Qed.

Lemma mergedStyleOf_ext p p' :
  className p' = className p -> style p' = style p -> merged p' = merged p.
Proof. unfold mergedStyleOf. now intros -> ->. Qed.

Lemma convertElement_fontFree fuel type p c :
  isPrimitive type = true ->
  truthy (get (merged p) "fontFamily") = false ->
  (forall c1, exists kids c3,
      convertC (S (S fuel)) (children p) c1 = Some (inr (kids, c3))
      /\ forallb declaresNoFont kids = true) ->
  exists node c',
    convertE (S (S (S fuel))) (type, p) c = Some (inr (node, c'))
    /\ declaresNoFont node = true.
Proof.
  intros Hprim Hfam Hkids.
  destruct (unwrapElement_primitive fuel type p Hprim)
    as (type' & p' & Hunwrap & Hcls & Hsty & Hchildren).
  rewrite convertElement_S, Hunwrap, (mergedStyleOf_ext _ _ Hcls Hsty).
  rewrite (trackFonts_untouched _ _ Hfam), Hchildren.
  match goal with
  | |- context [convertC _ _ ?c2] => destruct (Hkids c2) as (kids & c3 & -> & Hno)
  end.
  eexists _, _. split; [reflexivity|].
  simpl. now rewrite convertStyle_truthy, Hfam, Hno.
Qed.

(** The children of a tree of primitive elements that declares no font
    convert, with the fuel of [fuelFor] or more, to nodes that declare no
    font: no call is left running and nothing is thrown. *)
Lemma convertChildren_fontFree n :
  fontFree Number_ percentOf n = true ->
  forall fuel c,
    (fuelFor n <= fuel)%nat ->
    exists nodes c',
      convertC fuel n c = Some (inr (nodes, c'))
      /\ forallb declaresNoFont nodes = true.
Proof.
  induction n as [| |b|s|x|items IH|type cls sty a kids IH] using ReactNode_children_ind;
    intros Hfree fuel c Hfuel.
  1-5: destruct fuel as [|fuel]; [simpl in Hfuel; lia|];
       eexists _, _; split; [reflexivity|vm_compute; reflexivity].
  - destruct fuel as [|fuel]; [simpl in Hfuel; lia|].
    change (convertC (S fuel) (RArray items) c) with (eachChild (convertC fuel) items c).
    simpl in Hfree, Hfuel. apply le_S_n in Hfuel.
    revert c. induction IH as [|item items Hitem _ IHitems]; intros c.
    + eexists _, _. split; reflexivity.
    + simpl in Hfree, Hfuel. apply andb_prop in Hfree as [Hf1 Hf2].
      destruct (Hitem Hf1 fuel c) as (nodes & c1 & E1 & N1); [lia|].
      destruct (IHitems Hf2) with (c := c1) as (more & c2 & E2 & N2); [lia|].
      simpl. rewrite E1, E2. eexists _, _. split; [reflexivity|].
      now rewrite forallb_app, N1, N2.
  - simpl in Hfree, Hfuel.
    apply andb_prop in Hfree as [Hfree Hkids]. apply andb_prop in Hfree as [Hprim Hfam].
    apply negb_true_iff in Hfam.
    pose proof (fuelFor_positive kids) as Hpos.
    destruct fuel as [|[|[|[|fuel]]]]; try lia.
    destruct (convertElement_fontFree fuel type (mkProps cls sty a kids) c Hprim Hfam)
      as (node & c' & E & N).
    { intros c1. apply (IH Hkids). lia. }
    change (convertC (S (S (S (S fuel)))) (RElement type (mkProps cls sty a kids)) c)
      with (match convertE (S (S (S fuel))) (type, mkProps cls sty a kids) c with
            | None => None
            | Some (inl e) => Some (inl e)
            | Some (inr (node, c1)) => Some (inr ([node], c1))
            end).
    rewrite E. eexists _, _. split; [reflexivity|]. simpl. now rewrite N.
Qed.

(** C6.  Default font guarantee.  When no style of the converted tree
    declares a font family and the page nodes can be converted, the
    document lists the one default font Inter at weight 400; font
    detection on that document finds no family and adds the default one;
    and bulk resolution resolves exactly that one font: it returns the
    list holding it, which is the list handed to the engine, when the font
    loads, and throws the error of that request when it does not.  When a
    page node cannot be converted there is no document: the conversion
    throws a TypeError.  Every tree of primitive elements that declares no
    font does convert, given fuel for its depth, to a root without a font.
    A list returned by bulk resolution is never empty, whatever the
    document. *)
Theorem default_font_guarantee :
  (forall fuel element rootNode context,
      convertE fuel element emptyContext = Some (inr (rootNode, context)) ->
      declaresNoFont rootNode = true ->
      (pagesReady rootNode = true ->
       exists doc,
         reactToIR Number_ percentOf numberToString userComponents parseFloat_ now
                   fuel element
         = Some (inr doc)
         /\ fonts doc = [defaultFontUsage]
         /\ Fonts.detectFontsFromIR doc
            = inr [{| family := "inter"; weights := [num 400];
                      styles := [VStr "normal"] |}]
         /\ forall loadFont,
              Fonts.loadFontsForDocument loadFont doc
              = match loadFont "inter" (num 400) (VStr "normal") with
                | inr font => inr [font]
                | inl e => inl e
                end)
      /\ (pagesReady rootNode = false ->
          exists msg,
            reactToIR Number_ percentOf numberToString userComponents parseFloat_ now
                      fuel element
            = Some (inl (OtherError msg))))
  /\ (forall type p fuel,
         fontFree Number_ percentOf (RElement type p) = true ->
         (3 + fuelFor (children p) <= fuel)%nat ->
         exists rootNode context,
           convertE fuel (type, p) emptyContext = Some (inr (rootNode, context))
           /\ declaresNoFont rootNode = true)
  /\ (forall loadFont ir loaded,
         Fonts.loadFontsForDocument loadFont ir = inr loaded -> loaded ≠ []).
Proof.
  split; [|split].
  - intros fuel element rootNode context Hrun Hno. split.
    + intros Hready. destruct (documentPages_ready rootNode Hready) as [pgs Hpgs].
      exists (assemble now rootNode context pgs).
      assert (Hfonts : ctxFonts context = []).
      { exact (convertElement_no_font _ _ _ _ _ Hrun Hno). }
      assert (Hdetect : Fonts.detectFontsFromIR (assemble now rootNode context pgs)
                        = inr [{| family := "inter"; weights := [num 400];
                                  styles := [VStr "normal"] |}]).
      { unfold Fonts.detectFontsFromIR. cbn [assemble pages].
        rewrite (walkPages_no_font _ _ (documentPages_no_font rootNode pgs Hno Hpgs)).
        reflexivity. }
      split; [unfold reactToIR; now rewrite Hrun, Hpgs|].
      split; [unfold assemble; simpl; now rewrite Hfonts|].
      split; [exact Hdetect|].
      intros loadFont. unfold Fonts.loadFontsForDocument.
      rewrite Hdetect. simpl.
      now destruct (loadFont "inter" (num 400) (VStr "normal")).
    + intros Hnot. destruct (documentPages_not_ready rootNode Hnot) as [msg Hmsg].
      exists msg. unfold reactToIR. now rewrite Hrun, Hmsg.
  - intros type [cls sty a kids] fuel Hfree Hfuel. simpl in Hfree, Hfuel.
    apply andb_prop in Hfree as [Hfree Hkids]. apply andb_prop in Hfree as [Hprim Hfam].
    apply negb_true_iff in Hfam.
    destruct fuel as [|[|[|fuel]]]; try lia.
    apply convertElement_fontFree; [exact Hprim|exact Hfam|].
    intros c1. apply (convertChildren_fontFree kids Hkids). simpl. lia.
  - intros loadFont ir loaded. apply loadFontsForDocument_not_nil.
Qed.

(** Along a run the families stay pairwise distinct, none is dropped, and
    the key of every family declared in the nodes returned is among them. *)
Lemma convertElement_families fuel element c n c' :
  convertE fuel element c = Some (inr (n, c')) ->
  NoDup (familiesOf c) ->
  NoDup (familiesOf c')
  /\ familiesOf c ⊆ familiesOf c'
  /\ (forall sub f,
         Subnode sub n -> get (nodeStyle sub) "fontFamily" = VStr f ->
         primaryFamilyOf f ≠ "" -> primaryFamilyOf f ∈ familiesOf c').
Proof.
  revert element c n c'.
  apply (converter_runs
           (fun c n c' =>
              NoDup (familiesOf c) ->
              NoDup (familiesOf c')
              /\ familiesOf c ⊆ familiesOf c'
              /\ (forall sub f,
                     Subnode sub n -> get (nodeStyle sub) "fontFamily" = VStr f ->
                     primaryFamilyOf f ≠ "" -> primaryFamilyOf f ∈ familiesOf c'))
           (fun c ns c' =>
              NoDup (familiesOf c) ->
              NoDup (familiesOf c')
              /\ familiesOf c ⊆ familiesOf c'
              /\ (forall n sub f,
                     n ∈ ns -> Subnode sub n ->
                     get (nodeStyle sub) "fontFamily" = VStr f ->
                     primaryFamilyOf f ≠ "" -> primaryFamilyOf f ∈ familiesOf c'))).
  - intros c Hc. split; [exact Hc|]. split; [reflexivity|].
    intros n sub f Hn. now apply not_elem_of_nil in Hn.
  - intros c content Hc. split; [exact Hc|]. split; [reflexivity|].
    intros n sub f Hn Hsub Hf. apply list_elem_of_singleton in Hn as ->.
    inversion Hsub as [|t p sty kids k Hk]; subst.
    + discriminate Hf.
    + now apply not_elem_of_nil in Hk.
  - intros c n c' H Hc. destruct (H Hc) as (H1 & H2 & H3).
    split; [exact H1|]. split; [exact H2|].
    intros n' sub f Hn. apply list_elem_of_singleton in Hn as ->. apply H3.
  - intros c ns c1 ms c2 Hns Hms Hc.
    destruct (Hns Hc) as (N1 & S1 & M1). destruct (Hms N1) as (N2 & S2 & M2).
    split; [exact N2|]. split; [now transitivity (familiesOf c1)|].
    intros n sub f Hn Hsub Hf Hkey. apply elem_of_app in Hn as [Hn|Hn].
    + apply S2. eapply M1; eassumption.
    + eapply M2; eassumption.
  - intros type p c c1 kids c3 Ht Hkids Hc.
    destruct (trackFonts_families _ _ _ Ht) as (N1 & S1 & M1).
    assert (E : familiesOf (if bool_decide (getElementType type = image)
                               && truthy (get (attrs p) "src")
                            then trackImage (get (attrs p) "src") c1 else c1)
                = familiesOf c1).
    { unfold familiesOf. destruct (_ && _); [now rewrite trackImage_fonts|reflexivity]. }
    rewrite E in Hkids. destruct (Hkids (N1 Hc)) as (N3 & S3 & M3).
    split; [exact N3|]. split; [now transitivity (familiesOf c1)|].
    intros sub f Hsub Hf Hkey.
    inversion Hsub as [|t' p' sty' kids' k Hk Hsubk]; subst.
    + apply S3, M1; [|exact Hkey]. now apply convertStyle_get_string.
    + eapply M3; eassumption.
Qed.

(** C2.  The font-usage list of a converted document is keyed by
    the first comma-separated part of the declared family, trimmed and with
    the quote characters removed: its families are pairwise distinct, and
    every node that declares a family is covered by the one entry that has
    the key of that family.  Whitespace around a declaration, quotes around
    the name and further families after a comma do not change the key, so
    two nodes whose families differ only in these share one entry. *)
Theorem font_usage_keyed_by_primary_family (fuel : nat) (element : ReactElement)
        (rootNode : IRNode) (context : ConversionContext) (pageList : list IRPage) :
  convertE fuel element emptyContext = Some (inr (rootNode, context)) ->
  let doc := assemble now rootNode context pageList in
  NoDup (map family (fonts doc))
  /\ (forall node f,
         Subnode node rootNode ->
         get (nodeStyle node) "fontFamily" = VStr f ->
         primaryFamilyOf f ≠ "" ->
         primaryFamilyOf f ∈ map family (fonts doc))
  /\ (forall name ws1 q1 q2 ws2 tail,
         bareFamily name ->
         allChars isWhitespace ws1 = true ->
         allChars isWhitespace ws2 = true ->
         allChars isQuote q1 = true ->
         allChars isQuote q2 = true ->
         tail = "" \/ (exists t, tail = String "," t) ->
         primaryFamilyOf (ws1 ++ q1 ++ name ++ q2 ++ ws2 ++ tail) = name).
Proof.
  intros Hrun doc.
  destruct (convertElement_families _ _ _ _ _ Hrun) as (N & _ & M); [constructor|].
  assert (F : ctxFonts context ≠ [] -> map family (fonts doc) = familiesOf context).
  { intros Hne. subst doc. unfold assemble, familiesOf. simpl.
    destruct (ctxFonts context) as [|x l] eqn:E; [congruence|]. simpl.
    f_equal; [now destruct x|]. rewrite map_map. apply map_ext. now intros [fam ws]. }
  destruct (ctxFonts context) as [|x l] eqn:E.
  - split; [|split].
    + subst doc. unfold assemble. simpl. rewrite E. simpl. apply NoDup_singleton.
    + intros node f Hsub Hf Hkey. exfalso.
      specialize (M node f Hsub Hf Hkey). unfold familiesOf in M. rewrite E in M.
      now apply not_elem_of_nil in M.
    + intros. now apply primaryFamilyOf_decorated.
  - rewrite F by discriminate. split; [exact N|]. split; [exact M|].
    intros. now apply primaryFamilyOf_decorated.
Qed.

(** C5.  End to end.  The tree of a document holding one page
    holding the text Hello converts, with any fuel from seven on, to a
    document with exactly one page; the page has exactly one child, of kind
    text; that child carries the prop wrap and no content of its own, and
    has exactly one child in turn: the text leaf with content Hello. *)
Theorem hello_document_converts (n : nat) :
  exists doc pg child,
    reactToIR Number_ percentOf numberToString userComponents parseFloat_ now
              (7 + n) Samples.helloTree
    = Some (inr doc)
    /\ pages doc = [pg]
    /\ IR.children pg = [child]
    /\ nodeType child = text
    /\ nodeProps child = {[ "wrap" := VBool true ]}
    /\ nodeProps child !! "content" = None
    /\ nodeChildren child = [Node text {[ "content" := VStr "Hello" ]} ∅ []].
Proof.
  eexists _, _, _.
  split; [vm_compute; reflexivity|].
  split; [vm_compute; reflexivity|].
  split; [vm_compute; reflexivity|].
  split; [vm_compute; reflexivity|].
  split; [vm_compute; reflexivity|].
  split; vm_compute; reflexivity.
Qed.

End ConverterProperties.

(* --------------------------------------------------------------------- *)
(** ** The converter on the sample trees                                   *)
(* --------------------------------------------------------------------- *)

(** The value of a closed run, by evaluation. *)
Ltac evaluated_run fuel tree :=
  let run := constr:(convertElement Samples.anyNumber Samples.anyPercent Samples.anyString
                                    Samples.noComponents fuel tree emptyContext) in
  let v := eval vm_compute in run in
  lazymatch v with
  | Some (inr (?root, ?ctx)) =>
      assert (run = Some (inr (root, ctx))) by (vm_compute; reflexivity)
  end.

(** The pages of a converted root, by evaluation. *)
Ltac evaluated_pages root k :=
  let v := eval vm_compute in (documentPages Samples.anyNumber root) in
  lazymatch v with
  | inr ?pageList => k pageList
  end.

(** With the component that returns itself, beside components that
    return a view, no fuel is enough. *)
Lemma unwrapElement_has_no_depth_cap_witness :
  convertElement Samples.anyNumber Samples.anyPercent Samples.anyString
                 Samples.mixedComponents 1000 Samples.loopElement emptyContext
  = None.
Proof.
  destruct (unwrapElement_has_no_depth_cap Samples.anyNumber Samples.anyPercent
              Samples.anyString Samples.mixedComponents) as [_ H].
  apply (H (fun e => e.1 = FunctionType (UserFn "Loop"))); [|reflexivity].
  intros [type p] He. simpl in He. subst type.
  exists (UserFn "Loop"), p, (FunctionType (UserFn "Loop")), p.
  split; [reflexivity|]. split; reflexivity.
Defined.

(** The conversion of [<Loop />] neither returns nor throws: there is no
    depth at which it stops with an error. *)
Lemma self_returning_component_never_stops :
  ~ exists fuel outcome,
      reactToIR Samples.anyNumber Samples.anyPercent Samples.anyString
                Samples.loopComponents Samples.anyNumber 0 fuel Samples.loopElement
      = Some outcome.
Proof.
  intros (fuel & outcome & H). unfold reactToIR in H.
  destruct (always_composite_diverges Samples.anyNumber Samples.anyPercent
              Samples.anyString Samples.loopComponents) with
    (fuel := fuel) (name := "Loop") (p := noProps) (context := emptyContext) as [_ E].
  - intros name p. unfold Samples.loopComponents. eauto.
  - unfold Samples.loopElement in H. rewrite E in H. discriminate.
Qed.

(** Two texts set in Inter and in inter: the loader's normalization gives
    both the same name, the converter gives each its own entry.  The same
    holds for one and for two spaces inside a name. *)
Lemma case_and_inner_space_variants_tracked_apart :
  (Fonts.normalizeFamily "Inter" = Fonts.normalizeFamily "inter"
   /\ exists doc,
       reactToIR Samples.anyNumber Samples.anyPercent Samples.anyString
                 Samples.noComponents Samples.anyNumber 0 12
                 (Samples.twoFontTree "Inter" "inter")
       = Some (inr doc)
       /\ map family (fonts doc) = ["Inter"; "inter"])
  /\ (Fonts.normalizeFamily "Open Sans" = Fonts.normalizeFamily "Open  Sans"
      /\ exists doc,
          reactToIR Samples.anyNumber Samples.anyPercent Samples.anyString
                    Samples.noComponents Samples.anyNumber 0 12
                    (Samples.twoFontTree "Open Sans" "Open  Sans")
          = Some (inr doc)
          /\ map family (fonts doc) = ["Open Sans"; "Open  Sans"]).
Proof.
  split; (split; [reflexivity|]); eexists; (split; [vm_compute; reflexivity|]);
    vm_compute; reflexivity.
Qed.

(** Inter, and Inter in quotes with whitespace around and a fallback after
    it: one entry. *)
Lemma font_usage_keyed_by_primary_family_witness :
  exists doc,
    reactToIR Samples.anyNumber Samples.anyPercent Samples.anyString
              Samples.noComponents Samples.anyNumber 0 12
              (Samples.twoFontTree "Inter" "  'Inter' , sans-serif")
    = Some (inr doc)
    /\ NoDup (map family (fonts doc))
    /\ map family (fonts doc) = ["Inter"].
Proof.
  evaluated_run 12%nat (Samples.twoFontTree "Inter" "  'Inter' , sans-serif").
  match goal with
  | E : _ = Some (inr (?root, ?ctx)) |- _ =>
      evaluated_pages root ltac:(fun pageList =>
        destruct (font_usage_keyed_by_primary_family Samples.anyNumber Samples.anyPercent
                    Samples.anyString Samples.noComponents 0
                    12 _ root ctx pageList E) as (Hnodup & _ & _);
        exists (assemble 0 root ctx pageList))
  end.
  split; [vm_compute; reflexivity|]. split; [exact Hnodup|vm_compute; reflexivity].
Defined.

(** The hello document declares no font: its font list is the default
    one, and with a loader for which the regular weight loads, bulk
    resolution returns the one font Inter at weight 400. *)
Lemma default_font_guarantee_witness :
  exists doc,
    reactToIR Samples.anyNumber Samples.anyPercent Samples.anyString
              Samples.noComponents Samples.anyNumber 0 12 Samples.helloTree
    = Some (inr doc)
    /\ fonts doc = [defaultFontUsage]
    /\ Fonts.loadFontsForDocument Samples.regularOnly doc
       = inr [{| Fonts.fontFamily := "inter"; Fonts.fontWeight := num 400;
                 Fonts.fontStyle := VStr "normal"; Fonts.fontData := [] |}].
Proof.
  evaluated_run 12%nat Samples.helloTree.
  destruct (default_font_guarantee Samples.anyNumber Samples.anyPercent
              Samples.anyString Samples.noComponents Samples.anyNumber 0) as (Hruns & _ & _).
  match goal with
  | E : _ = Some (inr (?root, ?ctx)) |- _ =>
      destruct (Hruns 12%nat _ root ctx E) as [Hready _]; [vm_compute; reflexivity|]
  end.
  destruct Hready as (doc & Hdoc & Hfonts & _ & Hload); [vm_compute; reflexivity|].
  exists doc. split; [exact Hdoc|]. split; [exact Hfonts|].
  rewrite Hload. reflexivity.
Defined.

(** The child of the page of the hello document has no content of its own,
    however deep the conversion may go. *)
Lemma hello_page_child_has_no_content :
  ~ exists fuel doc pg child,
      reactToIR Samples.anyNumber Samples.anyPercent Samples.anyString
                Samples.noComponents Samples.anyNumber 0 fuel Samples.helloTree
      = Some (inr doc)
      /\ pages doc = [pg]
      /\ IR.children pg = [child]
      /\ nodeType child = text
      /\ nodeProps child !! "content" = Some (VStr "Hello").
Proof.
  intros (fuel & doc & pg & child & H & Hpages & Hchild & _ & Hcontent).
  assert (nodeProps child !! "content" = None); [|congruence]. clear Hcontent.
  do 7 (destruct fuel as [|fuel]; [vm_compute in H; try discriminate H|]);
    try (vm_compute in H);
    injection H as <-; vm_compute in Hpages; injection Hpages as <-;
    vm_compute in Hchild; injection Hchild as <-; vm_compute; reflexivity.
Qed.

(* ===================================================================== *)
(** * Further properties                                                   *)
(* ===================================================================== *)

(* --------------------------------------------------------------------- *)
(** ** Facts shared by the sections below                                  *)
(* --------------------------------------------------------------------- *)

Section SharedFacts.

Lemma assocGet_elem {V} k (v : V) m : assocGet k m = Some v -> (k, v) ∈ m.
Proof.
  induction m as [|[k' v'] m IH]; simpl; [discriminate|].
  destruct (String.eqb k k') eqn:E.
  - apply String.eqb_eq in E. intros [= <-]. subst. left.
  - intros H. right. now apply IH.
Qed.
Lemma setAdd_NoDup x s : NoDup s -> NoDup (setAdd x s).
Proof.
  intros H. unfold setAdd. case_bool_decide as Hx; [exact H|].
  apply NoDup_app. split; [exact H|]. split; [|apply NoDup_singleton].
  intros y Hy Hy'. apply list_elem_of_singleton in Hy'. now subst.
Qed.

Lemma filterChars_all p s : allChars p s = true -> filterChars p s = s.
Proof.
  induction s as [|c s IH]; simpl; [reflexivity|].
  intros H. apply andb_prop in H as [-> H]. now rewrite IH.
Qed.

Lemma prefix_cons a p c s :
  String.prefix (String a p) (String c s) = if ascii_dec a c then String.prefix p s else false.
Proof. reflexivity. Qed.

Lemma startsWith_append p q : forall s,
  startsWith (p ++ q)%string s = true -> startsWith p s = true.
Proof.
  unfold startsWith. induction p as [|c p IH]; intros s; [now destruct s|].
  destruct s as [|c' s]; simpl; [discriminate|].
  destruct (ascii_dec c c'); [apply IH|discriminate].
Qed.

Lemma startsWith_own_prefix p s : startsWith p (p ++ s)%string = true.
Proof.
  unfold startsWith. induction p as [|c p IH]; [now destruct s|].
  rewrite append_cons. simpl. now destruct (ascii_dec c c).
Qed.

End SharedFacts.
(* --------------------------------------------------------------------- *)
(** ** Class strings                                                       *)
(* --------------------------------------------------------------------- *)

Section ClassStrings.

Abbreviation nonEmpty := (fun c : string => negb (isEmpty c)).

Variable Number_ : string -> JSNumber.
Variable percentOf : JSNumber -> JSNumber -> string.

Lemma splitWsAcc_run_start b :
  List.filter nonEmpty (splitWsAcc true "" b) = List.filter nonEmpty (splitWsAcc false "" b).
Proof.
  destruct b as [|c r]; [reflexivity|]. simpl.
  destruct (isWhitespace c); reflexivity.
Qed.

Lemma splitWsAcc_separator a c b : forall inRun cur,
  isWhitespace c = true ->
  (inRun = true -> cur = "") ->
  List.filter nonEmpty (splitWsAcc inRun cur (a ++ String c b)%string)
  = List.filter nonEmpty (splitWsAcc inRun cur a)
    ++ List.filter nonEmpty (splitWsAcc false "" b).
Proof.
  induction a as [|x a IH]; intros inRun cur Hc Hinv.
  - rewrite append_nil_l. simpl. rewrite Hc.
    destruct inRun.
    + rewrite (Hinv eq_refl). simpl. apply splitWsAcc_run_start.
    + simpl. rewrite splitWsAcc_run_start.
      destruct (nonEmpty (reverse cur)); reflexivity.
  - rewrite append_cons. simpl. destruct (isWhitespace x).
    + destruct inRun.
      * now apply IH.
      * simpl. rewrite IH by auto.
        destruct (nonEmpty (reverse cur)); reflexivity.
    + apply IH; [exact Hc|discriminate].
Qed.

Lemma classesOf_separator a c b :
  isWhitespace c = true ->
  classesOf (a ++ String c b)%string = classesOf a ++ classesOf b.
Proof.
  intros Hc. unfold classesOf, splitWhitespace.
  now apply (splitWsAcc_separator a c b false "").
Qed.

Lemma classesOf_leading ws b :
  allChars isWhitespace ws = true -> classesOf (ws ++ b)%string = classesOf b.
Proof.
  induction ws as [|c ws IH]; simpl; intros H; [now rewrite append_nil_l|].
  apply andb_prop in H as [Hc Hws].
  rewrite append_cons.
  change (String c (ws ++ b)%string) with ("" ++ String c (ws ++ b))%string.
  rewrite classesOf_separator by exact Hc. simpl. now apply IH.
Qed.

Lemma fold_parseClass_over tokens : forall init : CSSProperties,
  fold_left (fun sty cls => parseClass Number_ percentOf cls sty) tokens init
  = fold_left (fun sty cls => parseClass Number_ percentOf cls sty) tokens ∅ ∪ init.
Proof.
  induction tokens as [|t ts IH]; intros init; simpl.
  - now rewrite (left_id_L ∅ (∪)).
  - rewrite IH, (IH (parseClass _ _ t ∅)).
    rewrite (parseClass_write_only Number_ percentOf t init).
    now rewrite (assoc_L (∪)).
Qed.

(** X1.  Class strings compose.  Two class strings joined by whitespace give
    the style of the second laid over the style of the first: where both set
    a property the second decides, and every other property is kept. *)
Theorem parseTailwindClasses_concat (a sep b : string) :
  sep <> "" ->
  allChars isWhitespace sep = true ->
  parseTailwindClasses Number_ percentOf (a ++ sep ++ b)%string
  = parseTailwindClasses Number_ percentOf b ∪ parseTailwindClasses Number_ percentOf a.
Proof.
  intros Hne Hws. destruct sep as [|c sep]; [contradiction|].
  simpl in Hws. apply andb_prop in Hws as [Hc Hsep].
  rewrite !parseTailwindClasses_fold, append_cons.
  rewrite classesOf_separator by exact Hc.
  rewrite classesOf_leading by exact Hsep.
  rewrite fold_left_app. apply fold_parseClass_over.
Qed.

End ClassStrings.
(** The classes [flex p-4] and [p-8], joined by two spaces. *)
Lemma parseTailwindClasses_concat_witness :
  parseTailwindClasses Samples.anyNumber Samples.anyPercent "flex p-4  p-8"
  = parseTailwindClasses Samples.anyNumber Samples.anyPercent "p-8"
    ∪ parseTailwindClasses Samples.anyNumber Samples.anyPercent "flex p-4".
Proof.
  apply (parseTailwindClasses_concat Samples.anyNumber Samples.anyPercent
           "flex p-4" "  " "p-8"); [discriminate|reflexivity].
Defined.

(* --------------------------------------------------------------------- *)
(** ** The properties the Style Resolver writes                            *)
(* --------------------------------------------------------------------- *)

Section StyleKeys.

Variable Number_ : string -> JSNumber.
Variable percentOf : JSNumber -> JSNumber -> string.


Ltac unreached Hk :=
  repeat first
    [ rewrite lookup_empty; reflexivity
    | rewrite lookup_insert_ne;
      [| let E := fresh in intros E; rewrite <- E in Hk; vm_compute in Hk; discriminate Hk ]
    | progress (unfold assignDefined, marginBlock; simpl fold_left)
    | case_match ].

Ltac writes_reached :=
  intros cls s k Hr Hk; revert Hr;
  cbv beta zeta delta [displayRule flexDirectionRule flexWrapRule
    flexGrowShrinkRule justifyContentRule alignItemsRule alignSelfRule gapRule
    paddingRule marginRule widthRule minMaxWidthRule heightRule fontSizeRule
    fontWeightRule fontStyleRule fontFamilyRule textColorRule textAlignRule
    textDecorationRule textTransformRule letterSpacingRule lineHeightRule
    backgroundColorRule borderRadiusRule borderWidthRule borderColorRule
    borderStyleRule opacityRule overflowRule positionRule positionValuesRule
    zIndexRule objectFitRule];
  repeat case_match; intros Hr; simplify_eq; unreached Hk.

(** The blocks for the classes gap-x- and gap-y- stand behind the block
    for gap-, which takes every class they would take. *)

Lemma startsWith_gap cls :
  startsWith "gap-" cls = false ->
  startsWith "gap-x-" cls = false /\ startsWith "gap-y-" cls = false.
Proof.
  intros H. split; apply not_true_is_false; intros E.
  - apply (startsWith_append "gap-" "x-") in E. congruence.
  - apply (startsWith_append "gap-" "y-") in E. congruence.
Qed.

Lemma gapRule_writes_reached : WritesReached gapRule.
Proof.
  intros cls s k Hr Hk. revert Hr. unfold gapRule.
  destruct (startsWith "gap-" cls) eqn:E.
  - intros Hr; simplify_eq; unreached Hk.
  - destruct (startsWith_gap cls E) as [-> ->]. discriminate.
Qed.

Lemma rules_write_reached : Forall WritesReached (rules Number_ percentOf).
Proof.
  unfold rules.
  repeat (constructor; [first [exact gapRule_writes_reached|writes_reached]|]).
  constructor.
Qed.

Lemma parseClass_unreached cls k :
  isReachedKey k = false -> parseClass Number_ percentOf cls ∅ !! k = None.
Proof.
  intros Hk. unfold parseClass.
  generalize rules_write_reached. generalize (rules Number_ percentOf).
  induction 1 as [|r rs Hr _ IH]; simpl; [apply lookup_empty|].
  destruct (r cls ∅) as [s|] eqn:E; simpl; [|exact IH].
  now apply (Hr cls).
Qed.

Lemma classFor_sets :
  Forall (fun '(k, cls) => is_Some (parseTailwindClasses Number_ percentOf cls !! k))
         classFor.
Proof.
  unfold classFor.
  repeat (constructor; [eexists; vm_compute; reflexivity|]).
  constructor.
Qed.

Lemma classFor_complete k :
  isReachedKey k = true -> exists cls, (k, cls) ∈ classFor.
Proof.
  unfold isReachedKey. intros H. apply andb_prop in H as [Hin Hout].
  apply existsb_exists in Hin as (x & Hx & E). apply String.eqb_eq in E. subst x.
  revert Hout. unfold IRStyleKeys in Hx. simpl in Hx.
  repeat (destruct Hx as [<-|Hx];
          [first [discriminate
                 |intros _; eexists; apply list_elem_of_In; vm_compute; tauto]|]).
  contradiction.
Qed.

(** X2.  The properties class strings can set.  Some class string sets a
    property exactly when it is a property of [IRStyle] other than fifteen
    of them; among those out of reach are [columnGap] and [rowGap], for
    which [parseClass] has blocks that no class gets to. *)
Theorem parseTailwindClasses_keys (k : string) :
  (exists className, is_Some (parseTailwindClasses Number_ percentOf className !! k))
  <-> k ∈ IRStyleKeys /\ k ∉ unreachedKeys.
Proof.
  split.
  - intros (className & v & Hv).
    destruct (isReachedKey k) eqn:Hk.
    + unfold isReachedKey in Hk. apply andb_prop in Hk as [Hin Hout].
      split.
      * apply existsb_exists in Hin as (x & Hx & E). apply String.eqb_eq in E. subst x.
        now apply list_elem_of_In.
      * intros Hmem. apply negb_true_iff in Hout.
        apply list_elem_of_In in Hmem.
        assert (existsb (String.eqb k) unreachedKeys = true); [|congruence].
        apply existsb_exists. exists k. split; [exact Hmem|apply String.eqb_refl].
    + rewrite parseTailwindClasses_fold in Hv.
      rewrite fold_parseClass_untouched in Hv; [now rewrite lookup_empty in Hv|].
      apply Forall_forall. intros t _ sty.
      rewrite parseClass_lookup. now rewrite parseClass_unreached.
  - intros [Hin Hout].
    assert (Hk : isReachedKey k = true).
    { unfold isReachedKey. apply andb_true_intro. split.
      - apply existsb_exists. exists k. split; [now apply list_elem_of_In|apply String.eqb_refl].
      - apply negb_true_iff, not_true_is_false. intros H.
        apply existsb_exists in H as (x & Hx & E). apply String.eqb_eq in E. subst x.
        apply Hout. now apply list_elem_of_In. }
    destruct (classFor_complete k Hk) as [cls Hcls].
    exists cls. pose proof classFor_sets as F.
    rewrite Forall_forall in F. exact (F _ Hcls).
Qed.

End StyleKeys.

(* --------------------------------------------------------------------- *)
(** ** Font detection                                                      *)
(* --------------------------------------------------------------------- *)

Section FamilyNames.

Import Fonts.

Local Open Scope string_scope.

Lemma lowerChar_facts c :
  Ascii.eqb (lowerChar (lowerChar c)) (lowerChar c) = true
  /\ isQuote (lowerChar c) = isQuote c.
Proof.
  destruct c as [[] [] [] [] [] [] [] []]; vm_compute; split; reflexivity.
Qed.

Lemma allChars_filterChars p s : allChars p (filterChars p s) = true.
Proof.
  induction s as [|c s IH]; simpl; [reflexivity|].
  destruct (p c) eqn:E; simpl; [now rewrite E|exact IH].
Qed.

Lemma allChars_dropWhileChars p q s :
  allChars p s = true -> allChars p (dropWhileChars q s) = true.
Proof.
  induction s as [|c s IH]; simpl; [reflexivity|].
  intros H. destruct (q c); [|exact H].
  apply andb_prop in H as [_ H]. now apply IH.
Qed.

Lemma allChars_trim p s : allChars p s = true -> allChars p (trim s) = true.
Proof.
  intros H. unfold trim, trimStart.
  rewrite allChars_reverse. apply allChars_dropWhileChars.
  rewrite allChars_reverse. now apply allChars_dropWhileChars.
Qed.

Lemma allChars_hyphenateRuns p s : forall inRun,
  p "-"%char = true ->
  allChars p s = true ->
  allChars (fun c => negb (isWhitespace c) && p c) (hyphenateRuns inRun s) = true.
Proof.
  induction s as [|c s IH]; intros inRun Hp H; simpl; [reflexivity|].
  simpl in H. apply andb_prop in H as [Hc Hs].
  destruct (isWhitespace c) eqn:E.
  - destruct inRun; simpl; rewrite ?Hp; simpl; now apply IH.
  - simpl. rewrite E, Hc. simpl. now apply IH.
Qed.

Lemma normalizeFamily_chars family :
  allChars familyChar (normalizeFamily family) = true.
Proof.
  unfold normalizeFamily, replaceWhitespaceRuns.
  eapply allChars_impl;
    [|apply (allChars_hyphenateRuns
               (fun c => negb (isQuote c) && Ascii.eqb (lowerChar c) c)); [reflexivity|]].
  - intros c H. unfold familyChar. cbv beta in H. now rewrite andb_assoc in H.
  - apply allChars_trim. unfold toLowerCase, removeQuotes.
    induction family as [|c s IH]; simpl; [reflexivity|].
    destruct (isQuote c) eqn:E; simpl; [exact IH|].
    destruct (lowerChar_facts c) as [-> ->]. rewrite E. simpl. exact IH.
Qed.


Lemma mapChars_fixed f s :
  allChars (fun c => Ascii.eqb (f c) c) s = true -> mapChars f s = s.
Proof.
  induction s as [|c s IH]; simpl; [reflexivity|].
  intros H. apply andb_prop in H as [Hc H]. apply Ascii.eqb_eq in Hc.
  now rewrite Hc, IH.
Qed.

Lemma dropWhileChars_none p s :
  allChars (fun c => negb (p c)) s = true -> dropWhileChars p s = s.
Proof.
  destruct s as [|c s]; simpl; [reflexivity|].
  intros H. apply andb_prop in H as [Hc _]. apply negb_true_iff in Hc. now rewrite Hc.
Qed.

Lemma trim_none s :
  allChars (fun c => negb (isWhitespace c)) s = true -> trim s = s.
Proof.
  intros H. unfold trim, trimStart.
  rewrite (dropWhileChars_none _ s H).
  rewrite dropWhileChars_none by now rewrite allChars_reverse.
  apply reverse_involutive.
Qed.

Lemma hyphenateRuns_none s :
  allChars (fun c => negb (isWhitespace c)) s = true -> hyphenateRuns false s = s.
Proof.
  induction s as [|c s IH]; simpl; [reflexivity|].
  intros H. apply andb_prop in H as [Hc H]. apply negb_true_iff in Hc.
  now rewrite Hc, IH.
Qed.

Lemma normalizeFamily_fixed s :
  allChars familyChar s = true -> normalizeFamily s = s.
Proof.
  intros H. unfold normalizeFamily, replaceWhitespaceRuns, removeQuotes, toLowerCase.
  assert (Hq : allChars (fun c => negb (isQuote c)) s = true).
  { eapply allChars_impl; [|exact H]. intros c Hc. unfold familyChar in Hc.
    apply andb_prop in Hc as [Hc _]. now apply andb_prop in Hc as [_ Hc]. }
  assert (Hl : allChars (fun c => Ascii.eqb (lowerChar c) c) s = true).
  { eapply allChars_impl; [|exact H]. intros c Hc. unfold familyChar in Hc.
    now apply andb_prop in Hc as [_ Hc]. }
  assert (Hw : allChars (fun c => negb (isWhitespace c)) s = true).
  { eapply allChars_impl; [|exact H]. intros c Hc. unfold familyChar in Hc.
    apply andb_prop in Hc as [Hc _]. now apply andb_prop in Hc as [Hc _]. }
  rewrite (filterChars_all _ s Hq), (mapChars_fixed _ s Hl), (trim_none s Hw).
  now apply hyphenateRuns_none.
Qed.

(** X3.  Family normalization is idempotent: normalizing a name twice is
    normalizing it once, and a normalized name holds no whitespace, no quote
    and no upper-case letter. *)
Theorem normalizeFamily_idempotent (family : string) :
  normalizeFamily (normalizeFamily family) = normalizeFamily family
  /\ allChars familyChar (normalizeFamily family) = true.
Proof.
  split; [apply normalizeFamily_fixed|]; apply normalizeFamily_chars.
Qed.

End FamilyNames.

Section FontDetection.

Import Fonts.



Lemma visit_tidy sty m m' : tidy m -> visit sty m = inr m' -> tidy m'.
Proof.
  intros [Hkeys Hall]. unfold visit.
  destruct (truthy (get sty "fontFamily")); [|intros [= <-]; now split].
  destruct (get sty "fontFamily") as [| | | |familyName| | | | |]; try discriminate.
  destruct (normalizeWeight (get sty "fontWeight")) as [e|w]; [discriminate|].
  set (key := normalizeFamily familyName).
  assert (Hkey : normalizeFamily key = key)
    by apply normalizeFamily_fixed, normalizeFamily_chars.
  destruct (assocHas key m) eqn:Hhas.
  - destruct (assocHas_true _ _ Hhas) as [[ws ss] Hget]. rewrite Hget.
    intros [= <-]. split; [now apply assocSet_keys_NoDup|].
    apply assocSet_Forall; [|exact Hall].
    apply assocGet_elem in Hget. rewrite Forall_forall in Hall.
    destruct (Hall _ Hget) as (_ & Hws & Hss). simpl in *.
    split; [exact Hkey|]. split; now apply setAdd_NoDup.
  - rewrite assocGet_assocSet_eq, assocSet_assocSet.
    intros [= <-]. split; [now apply assocSet_keys_NoDup|].
    apply assocSet_Forall; [|exact Hall]. simpl.
    split; [exact Hkey|]. split; apply setAdd_NoDup; constructor.
Qed.

Lemma walk_tidy n : forall m m', tidy m -> walk n m = inr m' -> tidy m'.
Proof.
  induction n as [t p sty kids IH] using IRNode_children_ind.
  intros m m' Hm. simpl.
  destruct (visit sty m) as [e|m1] eqn:Hv; [discriminate|].
  apply visit_tidy in Hv; [|exact Hm].
  revert m1 Hv. induction IH as [|k kids Hk _ IHkids]; intros m1 Hm1.
  - now intros [= <-].
  - destruct (walk k m1) as [e|m2] eqn:Hw; [discriminate|].
    apply IHkids. exact (Hk _ _ Hm1 Hw).
Qed.

Lemma walkNodes_tidy nodes : forall m m',
  tidy m -> walkNodes nodes m = inr m' -> tidy m'.
Proof.
  induction nodes as [|n nodes IH]; intros m m' Hm; simpl.
  - now intros [= <-].
  - destruct (walk n m) as [e|m1] eqn:Hw; [discriminate|].
    apply IH. exact (walk_tidy _ _ _ Hm Hw).
Qed.

Lemma walkPages_tidy ps : forall m m',
  tidy m -> walkPages ps m = inr m' -> tidy m'.
Proof.
  induction ps as [|pg ps IH]; intros m m' Hm; simpl.
  - now intros [= <-].
  - destruct (walkNodes (IR.children pg) m) as [e|m1] eqn:Hw; [discriminate|].
    apply IH. exact (walkNodes_tidy _ _ _ Hm Hw).
Qed.



Lemma detectFontsFromIR_tidy ir usage :
  detectFontsFromIR ir = inr usage -> tidyUsage usage.
Proof.
  unfold detectFontsFromIR.
  destruct (walkPages (pages ir) []) as [e|m] eqn:Hw; [discriminate|].
  apply walkPages_tidy in Hw; [|split; constructor].
  intros [= <-].
  assert (H : tidy (if (length m =? 0)%nat
                    then assocSet (normalizeFamily DEFAULT_FONT)
                                  ([num 400], [VStr "normal"]) m
                    else m)).
  { destruct (length m =? 0)%nat; [|exact Hw]. destruct Hw as [Hk Ha].
    split; [now apply assocSet_keys_NoDup|].
    apply assocSet_Forall; [|exact Ha]. simpl.
    split; [reflexivity|]. split; apply NoDup_singleton. }
  destruct H as [Hk Ha]. split.
  - rewrite map_map.
    erewrite map_ext; [exact Hk|]. now intros [fam [ws ss]].
  - apply Forall_fmap. eapply Forall_impl; [exact Ha|].
    intros [fam [ws ss]] (H1 & H2 & H3). simpl in *.
    split; [exact H1|]. split; [|exact H3].
    now rewrite sortNumeric_Permutation.
Qed.

Lemma requestsOf_NoDup usage : tidyUsage usage -> NoDup (requestsOf usage).
Proof.
  intros [Hk Ha]. induction usage as [|u usage IH]; [constructor|].
  apply NoDup_cons in Hk as [Hu Hk]. apply Forall_cons in Ha as [(_ & Hw & Hs) Ha].
  change (requestsOf (u :: usage))
    with (flat_map (fun weight => map (fun fontStyle => (family u, weight, fontStyle))
                                      (styles u)) (weights u)
          ++ requestsOf usage).
  apply NoDup_app. split; [|split; [|now apply IH]].
  - clear -Hw Hs. induction Hw as [|w ws Hnew _ IHw]; simpl; [constructor|].
    apply NoDup_app. split; [|split; [|exact IHw]].
    + apply NoDup_fmap_2; [|exact Hs]. intros x y [= ->]. reflexivity.
    + intros [[f w'] st] H1 H2.
      apply list_elem_of_In, in_map_iff in H1 as (st' & [= <- <- <-] & _).
      apply list_elem_of_In, in_flat_map in H2 as (w'' & Hw'' & H2).
      apply in_map_iff in H2 as (st'' & [= <- <-] & _).
      apply Hnew. now apply list_elem_of_In.
  - intros [[f w] st] H1 H2.
    apply list_elem_of_In, in_flat_map in H1 as (w' & _ & H1).
    apply in_map_iff in H1 as (st' & [= <- <- <-] & _).
    apply elem_of_requestsOf in H2 as (u' & Hu' & Hf & _).
    apply Hu. rewrite Hf. apply elem_of_map. eauto.
Qed.

(** X4.  Font detection removes repetition: the families of the manifest are
    normalized and pairwise distinct, no family lists a weight or a style
    twice, and so the bulk loader asks for no font twice. *)
Theorem detectFontsFromIR_deduplicates (ir : IRDocument) (usage : list IRFontUsage) :
  detectFontsFromIR ir = inr usage ->
  NoDup (map family usage)
  /\ Forall (fun u => normalizeFamily (family u) = family u
                      /\ NoDup (weights u) /\ NoDup (styles u)) usage
  /\ NoDup (requestsOf usage).
Proof.
  intros H. apply detectFontsFromIR_tidy in H.
  split; [apply H|]. split; [apply H|]. now apply requestsOf_NoDup.
Qed.

End FontDetection.

(** The document with two texts in Inter: two requests, regular and bold. *)
Lemma detectFontsFromIR_deduplicates_witness :
  NoDup (Fonts.requestsOf [{| family := "inter"; weights := [num 400; num 700];
                              styles := [VStr "normal"] |}]).
Proof.
  apply (detectFontsFromIR_deduplicates Samples.interDocument).
  vm_compute. reflexivity.
Defined.

(* --------------------------------------------------------------------- *)
(** ** Children                                                            *)
(* --------------------------------------------------------------------- *)

Section ChildrenProperties.

Variable Number_ : string -> JSNumber.
Variable percentOf : JSNumber -> JSNumber -> string.
Variable numberToString : JSNumber -> string.
Variable userComponents : string -> Props -> ReactNode.

Abbreviation unwrap := (unwrapElement userComponents).
Abbreviation convertE := (convertElement Number_ percentOf numberToString userComponents).
Abbreviation convertC := (convertChildren Number_ percentOf numberToString userComponents).

Lemma eachChild_app convert l1 l2 c :
  eachChild convert (l1 ++ l2) c
  = match eachChild convert l1 c with
    | None => None
    | Some (inl e) => Some (inl e)
    | Some (inr (ns, c1)) =>
        match eachChild convert l2 c1 with
        | None => None
        | Some (inl e) => Some (inl e)
        | Some (inr (ms, c2)) => Some (inr (ns ++ ms, c2))
        end
    end.
Proof.
  revert c. induction l1 as [|x l1 IH]; intros c; simpl.
  - destruct (eachChild convert l2 c) as [[e|[ms c2]]|]; reflexivity.
  - destruct (convert x c) as [[e|[ns c1]]|]; try reflexivity.
    rewrite IH. destruct (eachChild convert l1 c1) as [[e|[ns' c1']]|]; try reflexivity.
    destruct (eachChild convert l2 c1') as [[e|[ms c2]]|]; try reflexivity.
    now rewrite app_assoc.
Qed.

Lemma eachChild_mono (convert convert' : ReactNode -> ConversionContext -> _) items :
  (forall x c r, convert x c = Some r -> convert' x c = Some r) ->
  forall c r, eachChild convert items c = Some r -> eachChild convert' items c = Some r.
Proof.
  intros Hle. induction items as [|x items IH]; intros c r; simpl; [auto|].
  destruct (convert x c) as [[e|[ns c1]]|] eqn:E; [| |discriminate].
  - rewrite (Hle _ _ _ E). auto.
  - rewrite (Hle _ _ _ E).
    destruct (eachChild convert items c1) as [[e|[ms c2]]|] eqn:E'; [| |discriminate];
      rewrite (IH _ _ E'); auto.
Qed.

Lemma unwrapElement_mono fuel : forall e r,
  unwrap fuel e = Some r -> unwrap (S fuel) e = Some r.
Proof.
  induction fuel as [|fuel IH]; intros [[tag|fn] p] r H.
  - exact H.
  - discriminate H.
  - exact H.
  - change (match callComponent userComponents fn p with
            | RElement type' props' => unwrap (S fuel) (type', props')
            | _ => Some (FunctionType fn, p)
            end = Some r).
    change (match callComponent userComponents fn p with
            | RElement type' props' => unwrap fuel (type', props')
            | _ => Some (FunctionType fn, p)
            end = Some r) in H.
    destruct (callComponent userComponents fn p); auto.
Qed.

(** More fuel does not change what a run returns. *)
Lemma converter_mono fuel :
  (forall e c r, convertE fuel e c = Some r -> convertE (S fuel) e c = Some r)
  /\ (forall k c r, convertC fuel k c = Some r -> convertC (S fuel) k c = Some r).
Proof.
  induction fuel as [|fuel [IHe IHc]]; [split; discriminate|]. split.
  - intros e c r. rewrite (convertElement_S _ _ _ _ (S fuel)), (convertElement_S _ _ _ _ fuel).
    destruct (unwrap fuel e) as [[type p]|] eqn:U; [|discriminate].
    rewrite (unwrapElement_mono _ _ _ U).
    destruct (trackFonts _ c) as [err|c1]; [auto|].
    match goal with
    | |- context [convertC fuel ?k ?c2] =>
        destruct (convertC fuel k c2) as [res|] eqn:K; [|discriminate]
    end.
    now rewrite (IHc _ _ _ K).
  - intros k c r.
    destruct k as [| | |s|n|items|type p];
      try (simpl; intros H; exact H).
    + change (eachChild (convertC fuel) items c = Some r ->
              eachChild (convertC (S fuel)) items c = Some r).
      apply eachChild_mono. exact IHc.
    + change (match convertE fuel (type, p) c with
              | None => None
              | Some (inl e) => Some (inl e)
              | Some (inr (node, c1)) => Some (inr ([node], c1))
              end = Some r ->
              match convertE (S fuel) (type, p) c with
              | None => None
              | Some (inl e) => Some (inl e)
              | Some (inr (node, c1)) => Some (inr ([node], c1))
              end = Some r).
      destruct (convertE fuel (type, p) c) as [res|] eqn:E; [|discriminate].
      now rewrite (IHe _ _ _ E).
Qed.

Lemma eachChild_skip convert items :
  (forall x c, renders x = false -> convert x c = Some (inr ([], c))) ->
  forall c, eachChild convert items c = eachChild convert (List.filter renders items) c.
Proof.
  intros Hskip. induction items as [|x items IH]; intros c; simpl; [reflexivity|].
  destruct (renders x) eqn:R; simpl.
  - destruct (convert x c) as [[e|[ns c1]]|]; try reflexivity. now rewrite IH.
  - rewrite (Hskip _ _ R), IH.
    now destruct (eachChild convert (List.filter renders items) c) as [[e|[ms c2]]|].
Qed.

(** X5.  Null, undefined and boolean entries of an array of children leave
    no trace: the array converts as the array without them, to the same
    nodes, the same context or the same error. *)
Theorem convertChildren_skips_empty (fuel : nat) (items : list ReactNode)
        (c : ConversionContext) :
  convertC (S (S fuel)) (RArray items) c
  = convertC (S (S fuel)) (RArray (List.filter renders items)) c.
Proof.
  change (eachChild (convertC (S fuel)) items c
          = eachChild (convertC (S fuel)) (List.filter renders items) c).
  apply eachChild_skip. intros [| | | | | |] c'; try discriminate; reflexivity.
Qed.

(** X6.  An array nested in an array of children converts as its entries
    spliced in place: what the flat array returns, with or without an error,
    the nested one returns with one more level of calls. *)
Theorem convertChildren_flattens (fuel : nat) (before inner after : list ReactNode)
        (c : ConversionContext) r :
  convertC fuel (RArray (before ++ inner ++ after)) c = Some r ->
  convertC (S fuel) (RArray (before ++ RArray inner :: after)) c = Some r.
Proof.
  destruct fuel as [|fuel]; [intros H; inversion H|].
  change (eachChild (convertC fuel) (before ++ inner ++ after) c = Some r ->
          eachChild (convertC (S fuel)) (before ++ [RArray inner] ++ after) c = Some r).
  rewrite !eachChild_app.
  destruct (eachChild (convertC fuel) before c) as [[e|[ns c1]]|] eqn:B; [| |discriminate].
  - rewrite (eachChild_mono _ (convertC (S fuel)) _ (proj2 (converter_mono fuel)) _ _ B). auto.
  - rewrite (eachChild_mono _ (convertC (S fuel)) _ (proj2 (converter_mono fuel)) _ _ B).
    rewrite !eachChild_app.
    change (eachChild (convertC (S fuel)) [RArray inner] c1)
      with (match eachChild (convertC fuel) inner c1 with
            | None => None
            | Some (inl e) => Some (inl e)
            | Some (inr (nodes, context1)) => Some (inr (nodes ++ [], context1))
            end).
    destruct (eachChild (convertC fuel) inner c1) as [[e|[ms c2]]|] eqn:I;
      [auto| |discriminate].
    rewrite app_nil_r.
    destruct (eachChild (convertC fuel) after c2) as [res|] eqn:A; [|discriminate].
    now rewrite (eachChild_mono _ (convertC (S fuel)) _ (proj2 (converter_mono fuel)) _ _ A).
Qed.

End ChildrenProperties.

(** [{["a", ["b"]]}] converts as [{["a", "b"]}]. *)
Lemma convertChildren_flattens_witness :
  convertChildren Samples.anyNumber Samples.anyPercent Samples.anyString Samples.noComponents
    3 (RArray [RString "a"; RArray [RString "b"]]) emptyContext
  = Some (inr ([textLeaf "a"; textLeaf "b"], emptyContext)).
Proof.
  apply (convertChildren_flattens Samples.anyNumber Samples.anyPercent Samples.anyString
           Samples.noComponents 2 [RString "a"] [RString "b"] []).
  reflexivity.
Defined.

(* --------------------------------------------------------------------- *)
(** ** The manifests of a converted document                               *)
(* --------------------------------------------------------------------- *)

Section ImageTracking.

Variable Number_ : string -> JSNumber.
Variable percentOf : JSNumber -> JSNumber -> string.
Variable numberToString : JSNumber -> string.
Variable userComponents : string -> Props -> ReactNode.
Variable parseFloat_ : string -> JSNumber.
Variable now : Z.

Lemma assocSet_fresh {V} k (v : V) m : assocHas k m = false -> assocSet k v m = m ++ [(k, v)].
Proof.
  unfold assocHas. induction m as [|[k' v'] m IH]; simpl; [reflexivity|].
  destruct (String.eqb k k'); [discriminate|]. intros H. now rewrite IH.
Qed.

Lemma trackImage_numbered source c :
  numbered (ctxImages c) -> numbered (ctxImages (trackImage source c)).
Proof.
  intros [Hk Hn]. unfold trackImage.
  set (key := match source with VStr s => s | _ => _ end).
  destruct (assocHas key (ctxImages c)) eqn:Hhas; simpl; [now split|].
  rewrite (assocSet_fresh _ _ _ Hhas). split.
  - rewrite map_app. simpl. apply NoDup_app. split; [exact Hk|].
    split; [|apply NoDup_singleton].
    intros x Hx Hx'. apply list_elem_of_singleton in Hx'. subst x.
    apply assocHas_false, assocGet_None_keys in Hhas. contradiction.
  - intros i k u Hi.
    apply lookup_app_Some in Hi as [Hi|[Hlen Hi]]; [now apply Hn|].
    apply list_lookup_singleton_Some in Hi as [Hi [= <- <-]]. simpl.
    split; [|reflexivity]. f_equal. f_equal. lia.
Qed.

Lemma trackFonts_images sty c c1 : trackFonts sty c = inr c1 -> ctxImages c1 = ctxImages c.
Proof.
  unfold trackFonts.
  destruct (truthy (get sty "fontFamily")); [|now intros [= <-]].
  destruct (get sty "fontFamily"); try discriminate.
  destruct (negb (isEmpty _)); [|now intros [= <-]].
  destruct (nullish (get sty "fontWeight") (num 400)); try discriminate;
    now intros [= <-].
Qed.

Lemma convertElement_numbered fuel element c n c' :
  convertElement Number_ percentOf numberToString userComponents fuel element c
  = Some (inr (n, c')) ->
  numbered (ctxImages c) -> numbered (ctxImages c').
Proof.
  revert element c n c'.
  apply (converter_runs Number_ percentOf numberToString userComponents
           (fun c _ c' => numbered (ctxImages c) -> numbered (ctxImages c'))
           (fun c _ c' => numbered (ctxImages c) -> numbered (ctxImages c'))); auto.
  intros type p c c1 kids c3 Ht Hkids Hc. apply Hkids.
  apply trackFonts_images in Ht.
  destruct (_ && _); [apply trackImage_numbered|]; now rewrite Ht.
Qed.


End ImageTracking.


Section TrackedFonts.

Variable Number_ : string -> JSNumber.
Variable percentOf : JSNumber -> JSNumber -> string.
Variable numberToString : JSNumber -> string.
Variable userComponents : string -> Props -> ReactNode.
Variable parseFloat_ : string -> JSNumber.
Variable now : Z.

Lemma trackFonts_tidy sty c c1 :
  trackFonts sty c = inr c1 -> tidyTracked (ctxFonts c) -> tidyTracked (ctxFonts c1).
Proof.
  unfold trackFonts.
  destruct (truthy (get sty "fontFamily")); [|now intros [= <-]].
  destruct (get sty "fontFamily") as [| | | |familyString| | | | |]; try discriminate.
  destruct (isEmpty (primaryFamilyOf familyString)); simpl; [now intros [= <-]|].
  set (key := primaryFamilyOf familyString).
  intros H [Hk Ha].
  assert (G : forall w,
             tidyTracked
               (assocSet key
                  (setAdd w (default [] (assocGet key
                     (if assocHas key (ctxFonts c) then ctxFonts c
                      else assocSet key [] (ctxFonts c)))))
                  (if assocHas key (ctxFonts c) then ctxFonts c
                   else assocSet key [] (ctxFonts c)))).
  { intros w. destruct (assocHas key (ctxFonts c)) eqn:Hhas.
    - destruct (assocHas_true _ _ Hhas) as [ws Hget]. rewrite Hget. simpl.
      split; [now apply assocSet_keys_NoDup|].
      apply assocSet_Forall; [|exact Ha]. simpl.
      apply assocGet_elem in Hget. rewrite Forall_forall in Ha.
      destruct (Ha _ Hget) as [Hws _]. simpl in Hws.
      split; [now apply setAdd_NoDup|apply setAdd_not_nil].
    - rewrite assocGet_assocSet_eq, assocSet_assocSet. simpl.
      split; [now apply assocSet_keys_NoDup|].
      apply assocSet_Forall; [|exact Ha]. simpl.
      split; [apply setAdd_NoDup; constructor|apply setAdd_not_nil]. }
  destruct (nullish (get sty "fontWeight") (num 400)); try discriminate;
    injection H as <-; apply G.
Qed.

Lemma convertElement_tidy fuel element c n c' :
  convertElement Number_ percentOf numberToString userComponents fuel element c
  = Some (inr (n, c')) ->
  tidyTracked (ctxFonts c) -> tidyTracked (ctxFonts c').
Proof.
  revert element c n c'.
  apply (converter_runs Number_ percentOf numberToString userComponents
           (fun c _ c' => tidyTracked (ctxFonts c) -> tidyTracked (ctxFonts c'))
           (fun c _ c' => tidyTracked (ctxFonts c) -> tidyTracked (ctxFonts c'))); auto.
  intros type p c c1 kids c3 Ht Hkids Hc. apply Hkids.
  apply (trackFonts_tidy _ _ _ Ht) in Hc.
  destruct (_ && _); [now rewrite trackImage_fonts|exact Hc].
Qed.




(** X8.  The font manifest of a converted document is never empty and lists
    every family once; each family has at least one weight and no weight
    twice, the single style normal, and its weights in ascending order when
    they are all finite numbers. *)
Theorem reactToIR_fonts_tidy (fuel : nat) (element : ReactElement) (doc : IRDocument) :
  reactToIR Number_ percentOf numberToString userComponents parseFloat_ now fuel element
  = Some (inr doc) ->
  fonts doc <> []
  /\ NoDup (map family (fonts doc))
  /\ Forall (fun u => NoDup (weights u) /\ weights u <> []
                      /\ styles u = [VStr "normal"]
                      /\ (Forall (fun v => isFiniteNumber v = true) (weights u) ->
                          ascending (weights u)))
            (fonts doc).
Proof.
  unfold reactToIR.
  destruct (convertElement _ _ _ _ fuel element emptyContext) as [[e|[root c]]|] eqn:E;
    try discriminate.
  destruct (documentPages _ root) as [e|pageList]; [discriminate|].
  intros [= <-].
  apply convertElement_tidy in E as [Hk Ha]; [|split; constructor].
  unfold assemble. cbn [fonts].
  set (usage := fun '(fam, ws) =>
                  {| family := fam; weights := sortNumeric ws;
                     styles := [VStr "normal"] |}).
  assert (Hall : Forall (fun u => NoDup (weights u) /\ weights u <> []
                                  /\ styles u = [VStr "normal"]
                                  /\ (Forall (fun v => isFiniteNumber v = true) (weights u) ->
                                      ascending (weights u)))
                        (map usage (ctxFonts c))).
  { apply Forall_fmap. eapply Forall_impl; [exact Ha|].
    intros [fam ws] [Hnd Hne]. simpl in *.
    split; [now rewrite sortNumeric_Permutation|].
    split; [now apply sortNumeric_not_nil|]. split; [reflexivity|].
    intros Hfin. apply sortNumeric_ascending.
    now rewrite sortNumeric_Permutation in Hfin. }
  assert (Hfam : map family (map usage (ctxFonts c)) = map fst (ctxFonts c)).
  { rewrite map_map. apply map_ext. now intros [fam ws]. }
  destruct (length (map usage (ctxFonts c)) =? 0)%nat eqn:L.
  - split; [discriminate|]. split; [apply NoDup_singleton|].
    constructor; [|constructor]. simpl.
    split; [apply NoDup_singleton|]. split; [discriminate|]. split; [reflexivity|].
    intros _. split; constructor.
  - split.
    + intros H. rewrite H in L. discriminate L.
    + split; [now rewrite Hfam|exact Hall].
Qed.

End TrackedFonts.

(** Two texts, in Inter and in Roboto. *)
Lemma reactToIR_fonts_tidy_witness :
  exists doc,
    reactToIR Samples.anyNumber Samples.anyPercent Samples.anyString Samples.noComponents
              Samples.anyNumber 0 8 (Samples.twoFontTree "Inter" "Roboto") = Some (inr doc)
    /\ NoDup (map family (fonts doc)).
Proof.
  pose proof (reactToIR_fonts_tidy Samples.anyNumber Samples.anyPercent
                Samples.anyString Samples.noComponents Samples.anyNumber 0 8
                (Samples.twoFontTree "Inter" "Roboto")) as H.
  destruct (reactToIR _ _ _ _ _ _ 8 (Samples.twoFontTree "Inter" "Roboto"))
    as [[e|doc]|] eqn:E.
  - vm_compute in E. discriminate E.
  - exists doc. split; [reflexivity|]. now apply H.
  - vm_compute in E. discriminate E.
Defined.

(* --------------------------------------------------------------------- *)
(** ** Pages                                                               *)
(* --------------------------------------------------------------------- *)

Section PageProperties.

Variable Number_ : string -> JSNumber.
Variable percentOf : JSNumber -> JSNumber -> string.
Variable numberToString : JSNumber -> string.
Variable userComponents : string -> Props -> ReactNode.
Variable parseFloat_ : string -> JSNumber.
Variable now : Z.

Abbreviation convertE := (convertElement Number_ percentOf numberToString userComponents).
Abbreviation toIR := (reactToIR Number_ percentOf numberToString userComponents parseFloat_ now).

(** What a run of [convertElement] that returns has done at the root. *)
Lemma convertElement_root fuel element c n c' :
  convertE fuel element c = Some (inr (n, c')) ->
  exists type p kids,
    Unwraps userComponents element (type, p)
    /\ n = Node (getElementType type) (extractProps p (getElementType type))
                (convertStyle (mergedStyleOf Number_ percentOf p)) kids.
Proof.
  destruct fuel as [|fuel]; [intros H; inversion H|].
  rewrite convertElement_S.
  destruct (unwrapElement userComponents fuel element) as [[type p]|] eqn:U; [|discriminate].
  destruct (trackFonts _ c) as [e|c1]; [discriminate|].
  match goal with
  | |- context [convertChildren _ _ _ _ fuel ?k ?c2] =>
      destruct (convertChildren Number_ percentOf numberToString userComponents fuel k c2)
        as [[e|[kids c3]]|]; try discriminate
  end.
  intros [= <- <-]. exists type, p, kids. split; [|reflexivity].
  eapply unwrapElement_sound. exact U.
Qed.

(** X9.  A document without pages comes from a Document root only: any other
    root gives exactly one page, and a root that is neither a document nor a
    page sits alone in an A4 page with margins of 40 points. *)
Theorem reactToIR_pages (fuel : nat) (element : ReactElement) (doc : IRDocument) :
  toIR fuel element = Some (inr doc) ->
  exists type p,
    Unwraps userComponents element (type, p)
    /\ (getElementType type <> document -> length (pages doc) = 1%nat)
    /\ (getElementType type <> document -> getElementType type <> page ->
        exists root, pages doc = [defaultPage root]
                     /\ nodeType root = getElementType type).
Proof.
  unfold reactToIR.
  destruct (convertE fuel element emptyContext) as [[e|[root c]]|] eqn:E; try discriminate.
  destruct (documentPages parseFloat_ root) as [e|pageList] eqn:Hpages; [discriminate|].
  intros [= <-].
  destruct (convertElement_root _ _ _ _ _ E) as (type & p & kids & HU & ->).
  exists type, p. split; [exact HU|]. cbn [assemble pages].
  unfold documentPages in Hpages. cbn [nodeType] in Hpages.
  destruct (getElementType type); simpl in Hpages.
  - split; congruence.
  - split; [|congruence]. intros _.
    destruct (convertToPage parseFloat_ _) as [e|pg]; [discriminate|].
    now injection Hpages as <-.
  - injection Hpages as <-. split; [reflexivity|]. intros _ _. eexists. split; reflexivity.
  - injection Hpages as <-. split; [reflexivity|]. intros _ _. eexists. split; reflexivity.
  - injection Hpages as <-. split; [reflexivity|]. intros _ _. eexists. split; reflexivity.
  - injection Hpages as <-. split; [reflexivity|]. intros _ _. eexists. split; reflexivity.
Qed.

Lemma get_extractProps p t k : get (extractProps p t) k = get (attrs p) k.
Proof.
  unfold get, extractProps.
  destruct (filter _ (attrs p) !! k) as [v|] eqn:F.
  - apply map_lookup_filter_Some in F as [F _]. now rewrite F.
  - destruct (attrs p !! k) as [v|] eqn:A; [|reflexivity]. simpl.
    destruct (decide (v = VUndefined)) as [->|Hv]; [reflexivity|].
    assert (filter (fun kv : string * JSValue => kv.2 ≠ VUndefined) (attrs p) !! k = Some v)
      by now apply map_lookup_filter_Some.
    congruence.
Qed.

Lemma get_withDefault k d a k' :
  get (withDefault k d a) k'
  = if String.eqb k k' then (if isUndefined (get a k) then d else get a k)
    else get a k'.
Proof.
  unfold withDefault.
  destruct (String.eqb k k') eqn:E.
  - apply String.eqb_eq in E. subst k'.
    destruct (isUndefined (get a k)); [|reflexivity].
    unfold get. now rewrite lookup_insert_eq.
  - apply String.eqb_neq in E.
    destruct (isUndefined (get a k)); [|reflexivity].
    unfold get. now rewrite lookup_insert_ne.
Qed.

(** X10.  The defaults of a page.  A Page element as the root, with neither
    size nor margin, gives one A4 page with margins of 40 points, upright
    unless the orientation is landscape, in which case width and height
    change places. *)
Theorem page_defaults (fuel : nat) (p : Props) (doc : IRDocument) :
  toIR fuel (FunctionType PageFn, p) = Some (inr doc) ->
  get (attrs p) "size" = VUndefined ->
  get (attrs p) "margin" = VUndefined ->
  exists kids,
    pages doc
    = [{| size := if bool_decide (get (attrs p) "orientation" = VStr "landscape")
                  then {| width := 841.89; height := 595.28 |}
                  else {| width := 595.28; height := 841.89 |};
          margin := uniformMargin (Fin 40);
          IR.children := kids |}].
Proof.
  intros H Hsize Hmargin. unfold reactToIR in H.
  destruct (convertE fuel _ emptyContext) as [[e|[root c]]|] eqn:E; try discriminate.
  destruct (documentPages parseFloat_ root) as [e|pageList] eqn:Hpages; [discriminate|].
  injection H as <-.
  destruct fuel as [|[|fuel]]; try (inversion E; fail).
  rewrite convertElement_S in E.
  change (unwrapElement userComponents (S fuel) (FunctionType PageFn, p))
    with (unwrapElement userComponents fuel
            (HostType PAGE,
             mkProps (className p) (style p)
               (withDefault "size" (VStr "A4")
                  (withDefault "margin" (num 40)
                     (withDefault "orientation" (VStr "portrait") (attrs p))))
               (children p))) in E.
  rewrite unwrapElement_host in E.
  destruct (trackFonts _ emptyContext) as [e|c1]; [discriminate|].
  match type of E with
  | context [convertChildren _ _ _ _ ?f ?k ?c2] =>
      destruct (convertChildren Number_ percentOf numberToString userComponents f k c2)
        as [[e|[kids c3]]|]; try discriminate
  end.
  injection E as <- <-. exists kids. cbn [assemble pages].
  unfold documentPages in Hpages. cbn [nodeType getElementType] in Hpages.
  unfold convertToPage in Hpages. cbn [nodeProps nodeChildren] in Hpages.
  rewrite !get_extractProps in Hpages. cbn [attrs] in Hpages.
  rewrite !get_withDefault in Hpages. simpl String.eqb in Hpages.
  rewrite Hsize, Hmargin in Hpages. simpl in Hpages.
  destruct (get (attrs p) "orientation") as [| | | |o| | | | |] eqn:O;
    simpl in Hpages; try (now injection Hpages as <-).
  destruct (bool_decide (VStr o = VStr "landscape")); now injection Hpages as <-.
Qed.

End PageProperties.

(** [<View />] as the root: one default page around it. *)
Lemma reactToIR_pages_witness :
  exists doc root,
    reactToIR Samples.anyNumber Samples.anyPercent Samples.anyString Samples.noComponents
              Samples.anyNumber 0 8 Fixtures.looseView = Some (inr doc)
    /\ pages doc = [defaultPage root].
Proof.
  pose proof (reactToIR_pages Samples.anyNumber Samples.anyPercent
                Samples.anyString Samples.noComponents Samples.anyNumber 0 8
                Fixtures.looseView) as H.
  destruct (reactToIR _ _ _ _ _ _ 8 Fixtures.looseView) as [[e|doc]|] eqn:E.
  - vm_compute in E. discriminate E.
  - destruct (H doc eq_refl) as (type & p & HU & _ & Hloose).
    inversion HU as [| |fn p0 type' props' r Hcall Hrest]; subst.
    + discriminate.
    + vm_compute in Hcall. injection Hcall as <- <-.
      inversion Hrest; subst.
      destruct Hloose as (root & Hpages & _); [discriminate|discriminate|].
      exists doc, root. split; [reflexivity|exact Hpages].
  - vm_compute in E. discriminate E.
Defined.

(** [<Page orientation="landscape" />]: 841.89 by 595.28 points. *)
Lemma page_defaults_witness :
  exists doc kids,
    reactToIR Samples.anyNumber Samples.anyPercent Samples.anyString Samples.noComponents
              Samples.anyNumber 0 8 Fixtures.landscapePage = Some (inr doc)
    /\ pages doc = [{| size := {| width := 841.89; height := 595.28 |};
                       margin := uniformMargin (Fin 40);
                       IR.children := kids |}].
Proof.
  pose proof (page_defaults Samples.anyNumber Samples.anyPercent
                Samples.anyString Samples.noComponents Samples.anyNumber 0 8
                (mkProps None None {[ "orientation" := VStr "landscape" ]} RNull)) as H.
  destruct (reactToIR _ _ _ _ _ _ 8 Fixtures.landscapePage) as [[e|doc]|] eqn:E.
  - vm_compute in E. discriminate E.
  - destruct (H doc E eq_refl eq_refl) as [kids Hpages].
    exists doc, kids. split; [reflexivity|exact Hpages].
  - vm_compute in E. discriminate E.
Defined.

(* --------------------------------------------------------------------- *)
(** ** Images                                                              *)
(* --------------------------------------------------------------------- *)

Section ImageIds.

Import Images.

Lemma substring0_prefix p : forall n rest,
  String.length p = n -> substring0 n (p ++ rest)%string = p.
Proof.
  induction p as [|c p IH]; intros n rest <-.
  - reflexivity.
  - rewrite append_cons. cbn [String.length substring0]. f_equal. now apply IH.
Qed.

(** X11.  An image id is computed from a prefix of the source.  Two strings
    that agree on their first thousand characters get the same id, and so do
    two buffers of the same length that agree on their first hundred bytes. *)
Theorem generateImageId_reads_prefix :
  (forall p a b : string,
      String.length p = 1000%nat ->
      generateImageIdOfString (p ++ a)%string = generateImageIdOfString (p ++ b)%string)
  /\ (forall p a b : list byte,
         length p = 100%nat -> length a = length b ->
         generateImageIdOfBuffer (p ++ a) = generateImageIdOfBuffer (p ++ b)).
Proof.
  split.
  - intros p a b Hp. unfold generateImageIdOfString, hashOfString.
    now rewrite !(substring0_prefix p 1000) by exact Hp.
  - intros p a b Hp Hab. unfold generateImageIdOfBuffer, hashOfBytes.
    rewrite !length_app, Hab.
    now rewrite !take_app_length' by (symmetry; exact Hp).
Qed.

End ImageIds.

(** Two strings of a thousand and one characters that differ in the last. *)
Lemma generateImageId_reads_prefix_witness :
  Images.generateImageIdOfString (Fixtures.longPrefix ++ "x")%string
  = Images.generateImageIdOfString (Fixtures.longPrefix ++ "y")%string.
Proof.
  destruct generateImageId_reads_prefix as [H _].
  apply (H Fixtures.longPrefix "x" "y"). vm_compute. reflexivity.
Defined.

(** *** Base64 *)

Section Base64Facts.

Import Base64.
Local Open Scope N_scope.

Local Ltac Zify.zify_post_hook ::= Z.to_euclidean_division_equations.

Lemma string_ind3 (P : string -> Prop) :
  P "" ->
  (forall a, P (String a "")) ->
  (forall a b, P (String a (String b ""))) ->
  (forall a b c rest, P rest -> P (String a (String b (String c rest)))) ->
  forall s, P s.
Proof.
  intros H0 H1 H2 H3. fix IH 1. intros [|a [|b [|c rest]]].
  - exact H0.
  - apply H1.
  - apply H2.
  - apply H3, IH.
Qed.

Lemma sextetChar_facts n :
  n < 64 ->
  match sextetOf (sextetChar n) with Some m => m =? n | None => false end
  && negb (isAsciiWhitespace (sextetChar n))
  && negb (isLineTerminator (sextetChar n))
  && negb (Ascii.eqb (sextetChar n) "=") = true.
Proof.
  intros Hn.
  assert (H : forallb (fun n =>
                match sextetOf (sextetChar n) with Some m => m =? n | None => false end
                && negb (isAsciiWhitespace (sextetChar n))
                && negb (isLineTerminator (sextetChar n))
                && negb (Ascii.eqb (sextetChar n) "="))
                (map N.of_nat (seq 0 64)) = true) by (vm_compute; reflexivity).
  rewrite forallb_forall in H. apply H.
  apply in_map_iff. exists (N.to_nat n). split; [apply N2Nat.id|].
  apply in_seq. lia.
Qed.

Lemma sextetsOfBinary_bound s : Forall (fun n => n < 64) (sextetsOfBinary s).
Proof.
  induction s as [|a|a b|a b c rest IH] using string_ind3; cbn [sextetsOfBinary].
  - constructor.
  - pose proof (N_ascii_bounded a). unfold charCode.
    repeat (constructor; [lia|]). constructor.
  - pose proof (N_ascii_bounded a). pose proof (N_ascii_bounded b). unfold charCode.
    repeat (constructor; [lia|]). constructor.
  - pose proof (N_ascii_bounded a). pose proof (N_ascii_bounded b).
    pose proof (N_ascii_bounded c). unfold charCode.
    repeat (constructor; [lia|]). exact IH.
Qed.

Lemma ascii_of_N_code a n : n = N_of_ascii a -> ascii_of_N n = a.
Proof. intros ->. apply ascii_N_embedding. Qed.

Lemma binaryOfSextets_sextetsOfBinary s : binaryOfSextets (sextetsOfBinary s) = s.
Proof.
  induction s as [|a|a b|a b c rest IH] using string_ind3; cbn [sextetsOfBinary binaryOfSextets].
  - reflexivity.
  - pose proof (N_ascii_bounded a). unfold charCode.
    f_equal. apply ascii_of_N_code. lia.
  - pose proof (N_ascii_bounded a). pose proof (N_ascii_bounded b). unfold charCode.
    f_equal; [apply ascii_of_N_code; lia|].
    f_equal. apply ascii_of_N_code. lia.
  - pose proof (N_ascii_bounded a). pose proof (N_ascii_bounded b).
    pose proof (N_ascii_bounded c). unfold charCode. rewrite IH.
    f_equal; [apply ascii_of_N_code; lia|].
    f_equal; [apply ascii_of_N_code; lia|].
    f_equal. apply ascii_of_N_code. lia.
Qed.

Lemma sextetsOfBinary_length s :
  exists k r, length (sextetsOfBinary s) = (4 * k + r)%nat /\ (r = 0 \/ r = 2 \/ r = 3)%nat.
Proof.
  induction s as [|a|a b|a b c rest (k & r & IH & Hr)] using string_ind3;
    cbn [sextetsOfBinary length].
  - exists 0%nat, 0%nat. auto.
  - exists 0%nat, 2%nat. auto.
  - exists 0%nat, 3%nat. auto.
  - exists (S k), r. split; [lia|exact Hr].
Qed.

Lemma mod_4_rest k r : (r < 4 -> (4 * k + r) mod 4 = r)%nat.
Proof.
  intros Hr. rewrite Nat.add_comm, Nat.mul_comm, Nat.Div0.mod_add.
  now apply Nat.mod_small.
Qed.

Lemma length_string_of_list_ascii l : String.length (string_of_list_ascii l) = length l.
Proof. induction l as [|c l IH]; simpl; [reflexivity|now rewrite IH]. Qed.

Lemma string_length_append (a b : string) :
  String.length (a ++ b)%string = (String.length a + String.length b)%nat.
Proof. induction a as [|c a IH]; [reflexivity|]. rewrite append_cons. simpl. now rewrite IH. Qed.


Lemma alphabetic_all (p : ascii -> bool) s :
  (forall n, n < 64 -> p (sextetChar n) = true) ->
  alphabetic s -> allChars p s = true.
Proof.
  intros Hp (groups & Hb & ->). induction Hb as [|n groups Hn _ IH]; simpl; [reflexivity|].
  now rewrite (Hp n Hn).
Qed.

Lemma stripPadding_alphabetic s pad :
  alphabetic s -> pad = "" \/ pad = "=" \/ pad = "==" ->
  stripPadding (s ++ pad)%string = s.
Proof.
  intros (groups & Hb & ->) Hpad.
  induction Hb as [|n groups Hn _ IH]; simpl string_of_list_ascii.
  - rewrite append_nil_l. destruct Hpad as [->|[->| ->]]; reflexivity.
  - rewrite append_cons. cbn [stripPadding].
    pose proof (sextetChar_facts n Hn) as F.
    apply andb_prop in F as [_ F]. apply negb_true_iff in F. rewrite F. simpl.
    now rewrite IH.
Qed.

Lemma sextetsOfString_alphabet groups :
  Forall (fun n => n < 64) groups ->
  sextetsOfString (string_of_list_ascii (map sextetChar groups)) = Some groups.
Proof.
  induction 1 as [|n groups Hn _ IH]; simpl; [reflexivity|].
  pose proof (sextetChar_facts n Hn) as F.
  repeat (apply andb_prop in F as [F _]).
  destruct (sextetOf (sextetChar n)) as [m|]; [|discriminate].
  apply N.eqb_eq in F. subst m. now rewrite IH.
Qed.


Lemma padding_cases n : padding n = "" \/ padding n = "=" \/ padding n = "==".
Proof.
  unfold padding. destruct (n mod 4)%nat as [|[|[|[|m]]]]; auto.
Qed.

(** Decoding an encoding gives the string back. *)
Lemma atob_btoa binary : atob (btoa binary) = Some binary.
Proof.
  unfold atob, btoa.
  set (groups := sextetsOfBinary binary).
  set (body := string_of_list_ascii (map sextetChar groups)).
  assert (Hbody : alphabetic body) by (exists groups; split; [apply sextetsOfBinary_bound|reflexivity]).
  assert (Hws : allChars (fun c => negb (isAsciiWhitespace c)) (body ++ padding (length groups))%string = true).
  { rewrite allChars_append. apply andb_true_intro. split.
    - apply alphabetic_all; [|exact Hbody]. intros n Hn.
      pose proof (sextetChar_facts n Hn) as F.
      apply andb_prop in F as [F _]. apply andb_prop in F as [F _].
      now apply andb_prop in F as [_ F].
    - destruct (padding_cases (length groups)) as [->|[->| ->]]; reflexivity. }
  rewrite (filterChars_all _ _ Hws).
  destruct (sextetsOfBinary_length binary) as (k & r & Hlen & Hr). fold groups in Hlen.
  assert (Hblen : String.length body = length groups)
    by (unfold body; now rewrite length_string_of_list_ascii, length_map).
  assert (Htotal : (String.length (body ++ padding (length groups))%string mod 4 =? 0)%nat = true).
  { rewrite string_length_append, Hblen, Hlen. apply Nat.eqb_eq.
    unfold padding. rewrite (mod_4_rest k r) by lia.
    destruct Hr as [->|[->| ->]]; simpl String.length.
    - replace (4 * k + 0 + 0)%nat with (4 * k + 0)%nat by lia. apply mod_4_rest. lia.
    - replace (4 * k + 2 + 2)%nat with (4 * S k + 0)%nat by lia. apply mod_4_rest. lia.
    - replace (4 * k + 3 + 1)%nat with (4 * S k + 0)%nat by lia. apply mod_4_rest. lia. }
  rewrite Htotal, (stripPadding_alphabetic _ _ Hbody (padding_cases _)).
  assert (Hone : (String.length body mod 4 =? 1)%nat = false).
  { rewrite Hblen, Hlen. apply Nat.eqb_neq. rewrite (mod_4_rest k r) by lia. lia. }
  rewrite Hone. unfold body, groups.
  rewrite (sextetsOfString_alphabet _ (sextetsOfBinary_bound binary)).
  now rewrite binaryOfSextets_sextetsOfBinary.
Qed.

Lemma btoa_payload binary :
  isEmpty (btoa binary) = isEmpty binary
  /\ allChars (fun c => negb (isLineTerminator c)) (btoa binary) = true.
Proof.
  split.
  - destruct binary as [|a [|b [|c rest]]]; reflexivity.
  - unfold btoa. rewrite allChars_append. apply andb_true_intro. split.
    + apply alphabetic_all.
      * intros n Hn. pose proof (sextetChar_facts n Hn) as F.
        apply andb_prop in F as [F _]. now apply andb_prop in F as [_ F].
      * eexists. split; [apply sextetsOfBinary_bound|reflexivity].
    + destruct (padding_cases (length (sextetsOfBinary binary))) as [->|[->| ->]]; reflexivity.
Qed.

End Base64Facts.

(** *** Data URIs *)

Section DataUriProperties.

Import Images DataUri.

Variable fetch : string -> FetchOutcome.


Lemma matchDataUri_mime fmt payload :
  matchDataUri ("data:" ++ getMimeType fmt ++ ";base64," ++ payload)%string
  = match fmt with
    | svg => None
    | _ => if negb (isEmpty payload)
              && allChars (fun c => negb (isLineTerminator c)) payload
           then Some (Satori.formatName fmt, payload)
           else None
    end.
Proof. destruct fmt, payload; reflexivity. Qed.


Lemma bytesOfString_binaryOfBytes bytes : bytesOfString (binaryOfBytes bytes) = bytes.
Proof.
  induction bytes as [|b bytes IH]; simpl; [reflexivity|].
  unfold byteOfChar. now rewrite byte_of_ascii_of_byte, IH.
Qed.

(** X12.  Round trip through a data URI.  An image that is not an SVG and
    holds at least one byte, written as a data URI and loaded again, comes
    back with the same bytes and the same format; an SVG, or an image
    without bytes, gives a URI the loader rejects. *)
Theorem toDataUri_round_trip (image : LoadedImage) (options : ImageLoadOptions) (w : World) :
  (format image <> svg -> data image <> [] ->
   loadImage fetch Base64.atob (SrcString (toDataUri image)) options w
   = (inr {| id := generateImageIdOfString (toDataUri image);
             data := data image;
             format := format image |}, w))
  /\ (format image = svg \/ data image = [] ->
      exists e,
        loadImage fetch Base64.atob (SrcString (toDataUri image)) options w
        = (inl (Thrown e), w)
        /\ code e = INVALID_BASE64_IMAGE).
Proof.
  assert (Hdata : loadImage fetch Base64.atob (SrcString (toDataUri image)) options w
                  = (loadFromDataUri Base64.atob (toDataUri image), w)).
  { cbn [loadImage]. unfold toDataUri at 1. now rewrite startsWith_own_prefix. }
  rewrite Hdata. unfold loadFromDataUri, toDataUri. rewrite matchDataUri_mime.
  destruct (btoa_payload (binaryOfBytes (data image))) as [Hempty Hlines].
  rewrite Hempty, Hlines, andb_true_r.
  split.
  - intros Hfmt Hbytes.
    destruct (data image) as [|b bytes] eqn:D; [contradiction|].
    simpl isEmpty. simpl negb. cbv iota.
    destruct (format image) eqn:F; try contradiction;
      rewrite atob_btoa, bytesOfString_binaryOfBytes; reflexivity.
  - intros [Hfmt|Hbytes].
    + rewrite Hfmt. eexists. split; reflexivity.
    + rewrite Hbytes. simpl. destruct (format image); eexists; split; reflexivity.
Qed.

End DataUriProperties.

(** The four bytes 89 50 4E 47 as a PNG. *)
Lemma toDataUri_round_trip_witness :
  Images.loadImage (fun _ => Images.FetchRejected "offline") Base64.atob
    (Images.SrcString "data:image/png;base64,iVBORw==") Images.noOptions Images.emptyWorld
  = (inr {| Images.id := Images.generateImageIdOfString "data:image/png;base64,iVBORw==";
            Images.data := [x89; x50; x4e; x47];
            Images.format := Images.png |}, Images.emptyWorld).
Proof.
  apply (toDataUri_round_trip (fun _ => Images.FetchRejected "offline")
           {| Images.id := "img_0"; Images.data := [x89; x50; x4e; x47];
              Images.format := Images.png |}); discriminate.
Defined.

(** *** The cache of URL images *)

Section ImageCache.

Import Images.

Variable fetch : string -> FetchOutcome.
Variable atob : string -> option string.


Lemma isHttpUrl_not_data url : isHttpUrl url = true -> startsWith "data:" url = false.
Proof.
  unfold isHttpUrl, startsWith. destruct url as [|c url]; [discriminate|].
  rewrite !prefix_cons.
  destruct (ascii_dec "d" c) as [<-|]; [|reflexivity].
  destruct (ascii_dec "h" "d"); [discriminate|]. discriminate.
Qed.

Lemma loadImage_url url options w :
  isHttpUrl url = true ->
  loadImage fetch atob (SrcString url) options w = loadFromUrl fetch url options w.
Proof.
  intros H. cbn [loadImage]. rewrite (isHttpUrl_not_data _ H).
  unfold isHttpUrl in H. now rewrite H.
Qed.

End ImageCache.

Section ImageCacheProperties.

Import Images.

(** X13.  The cache of URL images.  A load that succeeds leaves the image in
    the cache, and every later load of the same URL returns that image
    without a request, whatever the network would answer then; a load that
    fails sends one request and leaves the cache as it was. *)
Theorem loadImage_url_cache (fetch : string -> FetchOutcome) (atob : string -> option string)
        (url : string) (options : ImageLoadOptions) (w : World) :
  isHttpUrl url = true ->
  match loadImage fetch atob (SrcString url) options w with
  | (inr loaded, w') =>
      imageCache w' !! url = Some loaded
      /\ forall fetch' atob' options' w'',
           imageCache w'' !! url = Some loaded ->
           loadImage fetch' atob' (SrcString url) options' w'' = (inr loaded, w'')
  | (inl e, w') =>
      imageCache w' = imageCache w /\ fetched w' = url :: fetched w
  end.
Proof.
  intros Hurl. rewrite (loadImage_url _ _ _ _ _ Hurl).
  assert (Hit : forall loaded fetch' atob' options' w'',
             imageCache w'' !! url = Some loaded ->
             loadImage fetch' atob' (SrcString url) options' w'' = (inr loaded, w'')).
  { intros loaded fetch' atob' options' w'' Hc.
    rewrite (loadImage_url _ _ _ _ _ Hurl). unfold loadFromUrl. now rewrite Hc. }
  unfold loadFromUrl. destruct (imageCache w !! url) as [cached|] eqn:Hc.
  - split; [exact Hc|]. now apply Hit.
  - destruct (fetch url) as [msg|response]; [split; reflexivity|].
    destruct (negb (ok response)); [split; reflexivity|].
    destruct (detectImageFormat (body response)) as [[pe|msg]|fmt].
    + split; reflexivity.
    + split; reflexivity.
    + cbn [imageCache]. split; [apply lookup_insert_eq|]. now apply Hit.
Qed.

(** X14.  The failures of loading a string.  Every failure is a
    PaperFlowError with one of five codes, but for one case: a data URI of
    the expected shape whose payload [atob] refuses lets the error of [atob]
    through as it is. *)
Theorem loadImage_string_failures (fetch : string -> FetchOutcome)
        (atob : string -> option string)
        (s : string) (options : ImageLoadOptions) (w w' : World) (e : Exception) :
  loadImage fetch atob (SrcString s) options w = (inl e, w') ->
  (exists pe, e = Thrown pe
              /\ In (code pe) [ INVALID_BASE64_IMAGE; LOCAL_FILE_NOT_SUPPORTED;
                                IMAGE_LOAD_FAILED; UNKNOWN_IMAGE_FORMAT;
                                IMAGE_FETCH_ERROR ])
  \/ (exists formatStr base64 msg,
         matchDataUri s = Some (formatStr, base64)
         /\ atob base64 = None /\ e = OtherError msg).
Proof.
  cbn [loadImage]. destruct (startsWith "data:" s).
  - unfold loadFromDataUri.
    destruct (matchDataUri s) as [[formatStr base64]|] eqn:M.
    + destruct (atob base64) eqn:A; [discriminate|].
      intros [= <- <-]. right. eauto 10.
    + intros [= <- <-]. left. eexists. split; [reflexivity|]. simpl. auto.
  - destruct (startsWith "http://" s || startsWith "https://" s).
    + unfold loadFromUrl. destruct (imageCache w !! s); [discriminate|].
      destruct (fetch s) as [msg|response].
      * intros [= <- <-]. left. eexists. split; [reflexivity|]. simpl. auto 10.
      * destruct (negb (ok response)).
        { intros [= <- <-]. left. eexists. split; [reflexivity|]. simpl. auto 10. }
        unfold detectImageFormat.
        repeat (match goal with |- context [if ?b then _ else _] => destruct b end;
                try discriminate).
        intros [= <- <-]. left. eexists. split; [reflexivity|]. simpl. auto 10.
    + intros [= <- <-]. left. eexists. split; [reflexivity|]. simpl. auto.
Qed.

End ImageCacheProperties.

(** A PNG that was loaded once is served while the network is down. *)
Lemma loadImage_url_cache_witness :
  exists loaded w',
    Images.loadImage
      (fun _ => Images.FetchResolved
                  {| Images.status := 200; Images.statusText := "OK";
                     Images.body := [x89; x50; x4e; x47] |})
      (fun _ => None) (Images.SrcString "https://cdn.test/a.png")
      Images.noOptions Images.emptyWorld = (inr loaded, w')
    /\ Images.loadImage (fun _ => Images.FetchRejected "offline") (fun _ => None)
         (Images.SrcString "https://cdn.test/a.png") Images.noOptions w' = (inr loaded, w').
Proof.
  pose proof (loadImage_url_cache
                (fun _ => Images.FetchResolved
                            {| Images.status := 200; Images.statusText := "OK";
                               Images.body := [x89; x50; x4e; x47] |})
                (fun _ => None) "https://cdn.test/a.png" Images.noOptions
                Images.emptyWorld eq_refl) as H.
  destruct (Images.loadImage _ _ _ _ _) as [[e|loaded] w'] eqn:E.
  - vm_compute in E. discriminate E.
  - exists loaded, w'. split; [reflexivity|]. destruct H as [Hc Hit]. now apply Hit.
Defined.

(** A payload of three asterisks. *)
Lemma loadImage_string_failures_witness :
  exists formatStr base64 msg,
    Images.matchDataUri "data:image/png;base64,***" = Some (formatStr, base64)
    /\ Base64.atob base64 = None
    /\ Images.loadImage (fun _ => Images.FetchRejected "offline") Base64.atob
         (Images.SrcString "data:image/png;base64,***") Images.noOptions Images.emptyWorld
       = (inl (OtherError msg), Images.emptyWorld).
Proof.
  destruct (loadImage_string_failures (fun _ => Images.FetchRejected "offline") Base64.atob
              "data:image/png;base64,***" Images.noOptions Images.emptyWorld
              Images.emptyWorld
              (OtherError "Invalid character") eq_refl)
    as [(pe & Hpe & _)|(formatStr & base64 & msg & Hm & Ha & He)]; [discriminate Hpe|].
  exists formatStr, base64, msg. split; [exact Hm|]. split; [exact Ha|].
  rewrite <- He. reflexivity.
Defined.


(* --------------------------------------------------------------------- *)
(** ** Loading one font                                                    *)
(* --------------------------------------------------------------------- *)

Section FontLoaderProperties.

Import Fonts Template FontLoader.

Variable numberToString : JSNumber -> string.
Variable objectToString : JSValue -> string.

Lemma resolveCustomFontData_cache fetch config w r w' :
  resolveCustomFontData fetch config w = (r, w') ->
  fontCache w' = fontCache w /\ customFonts w' = customFonts w.
Proof.
  unfold resolveCustomFontData. destruct (src config) as [url|bytes].
  - destruct (fetch url) as [msg|response]; [now intros [= <- <-]|].
    destruct (negb (Images.ok response)); now intros [= <- <-].
  - now intros [= <- <-].
Qed.

Lemma loadFromGoogleFonts_cache fetch decodeText fam weight style w r w' :
  loadFromGoogleFonts fetch decodeText numberToString objectToString fam weight style w
  = (r, w') ->
  fontCache w' = fontCache w /\ customFonts w' = customFonts w.
Proof.
  unfold loadFromGoogleFonts. cbv zeta.
  match goal with |- context [fetch ?u] => generalize u; intros cssUrl end.
  destruct (fetch cssUrl) as [msg|cssResponse]; [intros [= <- <-]; split; reflexivity|].
  destruct (negb (Images.ok cssResponse)); [intros [= <- <-]; split; reflexivity|].
  destruct (findFontUrl _) as [group|]; [|intros [= <- <-]; split; reflexivity].
  destruct (fetch _) as [msg|fontResponse]; [intros [= <- <-]; split; reflexivity|].
  destruct (negb (Images.ok fontResponse)); intros [= <- <-]; split; reflexivity.
Qed.

Abbreviation effective d v := (if isUndefined v then d else v).

Abbreviation keyOf fam weight style :=
  (normalizeFamily fam ++ "-"
     ++ toText numberToString objectToString (effective (num 400) weight)
     ++ "-"
     ++ toText numberToString objectToString (effective (VStr "normal") style))%string.

(** [loadFont] by the three places a font can come from. *)
Lemma loadFont_unfold fetch decodeText describeError fam weight style w :
  loadFont fetch decodeText numberToString objectToString describeError fam weight style w
  = let loaded bytes :=
      {| fontFamily := normalizeFamily fam;
         fontWeight := effective (num 400) weight;
         fontStyle := effective (VStr "normal") style;
         fontData := bytes |} in
    match fontCache w !! keyOf fam weight style with
    | Some bytes => (inr (loaded bytes), w)
    | None =>
        match findCustomFont w (normalizeFamily fam) (effective (num 400) weight)
                             (effective (VStr "normal") style) with
        | Some customFont =>
            match resolveCustomFontData fetch customFont w with
            | (inl e, w1) => (inl e, w1)
            | (inr bytes, w1) =>
                (inr (loaded bytes), cached (keyOf fam weight style) bytes w1)
            end
        | None =>
            match loadFromGoogleFonts fetch decodeText numberToString objectToString
                    (normalizeFamily fam) (effective (num 400) weight)
                    (effective (VStr "normal") style) w with
            | (inr bytes, w1) =>
                (inr (loaded bytes), cached (keyOf fam weight style) bytes w1)
            | (inl e, w1) =>
                (raise ("Failed to load font " ++ quote ++ fam ++ quote ++ " (weight: "
                          ++ toText numberToString objectToString (effective (num 400) weight)
                          ++ ", style: "
                          ++ toText numberToString objectToString
                               (effective (VStr "normal") style) ++ ")")
                       FONT_LOAD_FAILED
                       [("family", VStr fam); ("weight", effective (num 400) weight);
                        ("style", effective (VStr "normal") style);
                        ("originalError", VStr (describeError e))],
                 w1)
            end
        end
    end.
Proof. reflexivity. Qed.

(** X15.  The font cache.  A font that was loaded is returned again, without
    a request, for every spelling of the family that normalizes to the same
    name and for as long as the cache keeps its entry, whatever the network
    would answer and whatever fonts are registered by then. *)
Theorem loadFont_cache fetch decodeText describeError
        (fam : string) (weight style : JSValue) (w w' : FontWorld) (font : LoadedFont) :
  loadFont fetch decodeText numberToString objectToString describeError fam weight style w
  = (inr font, w') ->
  fontFamily font = normalizeFamily fam
  /\ fontCache w' !! keyOf fam weight style = Some (fontData font)
  /\ forall fetch' decodeText' describeError' fam' w'',
       normalizeFamily fam' = normalizeFamily fam ->
       fontCache w'' !! keyOf fam weight style = Some (fontData font) ->
       loadFont fetch' decodeText' numberToString objectToString describeError'
                fam' weight style w''
       = (inr font, w'').
Proof.
  rewrite loadFont_unfold. cbv zeta. intros H.
  set (key := keyOf fam weight style) in *.
  assert (G : fontFamily font = normalizeFamily fam
              /\ fontWeight font = effective (num 400) weight
              /\ fontStyle font = effective (VStr "normal") style
              /\ fontCache w' !! key = Some (fontData font)).
  { revert H. destruct (fontCache w !! key) as [bytes|] eqn:C.
    - intros [= <- <-]. auto.
    - destruct (findCustomFont w _ _ _) as [customFont|].
      + destruct (resolveCustomFontData fetch customFont w) as [[e|bytes] w1];
          [discriminate|].
        intros [= <- <-]. cbn. rewrite lookup_insert_eq. auto.
      + match goal with
        | |- context [loadFromGoogleFonts ?a ?b ?c ?d ?e ?f ?g ?h] =>
            destruct (loadFromGoogleFonts a b c d e f g h) as [[err|bytes] w1]
        end; [discriminate|].
        intros [= <- <-]. cbn. rewrite lookup_insert_eq. auto. }
  destruct G as (Hfam & Hweight & Hstyle & Hkey).
  split; [exact Hfam|]. split; [exact Hkey|].
  intros fetch' decodeText' describeError' fam' w'' Hsame Hc.
  rewrite loadFont_unfold. cbv zeta. rewrite Hsame. fold key. rewrite Hc. f_equal. f_equal.
  destruct font as [f fw fs d]. simpl in *. subst. reflexivity.
Qed.

Lemma resolveCustomFontData_failure fetch config w e w' :
  resolveCustomFontData fetch config w = (inl e, w') ->
  (exists msg, e = OtherError msg)
  \/ (exists pe, e = Thrown pe /\ code pe = FONT_FETCH_ERROR).
Proof.
  unfold resolveCustomFontData.
  destruct (src config) as [url|bytes]; [|discriminate].
  destruct (fetch url) as [msg|response].
  - intros [= <- <-]. left. eauto.
  - destruct (negb (Images.ok response)); [|discriminate].
    intros [= <- <-]. right. eexists. split; reflexivity.
Qed.

(** X16.  The failures of [loadFont].  A failure leaves the cache as it was.
    When no custom font is found for the family, it is always a
    PaperFlowError with the code FONT_LOAD_FAILED whose context names the
    family as it was given; when one is found it is never that error: it is
    what the request for the registered URL gave, the rejection as it is or
    FONT_FETCH_ERROR. *)
Theorem loadFont_failures fetch decodeText describeError
        (fam : string) (weight style : JSValue) (w w' : FontWorld) (e : Exception) :
  loadFont fetch decodeText numberToString objectToString describeError fam weight style w
  = (inl e, w') ->
  fontCache w' = fontCache w
  /\ match findCustomFont w (normalizeFamily fam) (effective (num 400) weight)
                          (effective (VStr "normal") style) with
     | None =>
         exists pe, e = Thrown pe /\ code pe = FONT_LOAD_FAILED
                    /\ assocGet "family" (context pe) = Some (VStr fam)
     | Some _ =>
         (exists msg, e = OtherError msg)
         \/ (exists pe, e = Thrown pe /\ code pe = FONT_FETCH_ERROR)
     end.
Proof.
  rewrite loadFont_unfold. cbv zeta.
  set (key := keyOf fam weight style).
  destruct (fontCache w !! key) as [bytes|]; [discriminate|].
  destruct (findCustomFont w _ _ _) as [customFont|].
  - destruct (resolveCustomFontData fetch customFont w) as [[e0|bytes] w1] eqn:R;
      [|discriminate].
    intros [= <- <-]. split.
    + apply resolveCustomFontData_cache in R. apply R.
    + apply resolveCustomFontData_failure in R. exact R.
  - match goal with
    | |- context [loadFromGoogleFonts ?a ?b ?c ?d ?e ?f ?g ?h] =>
        destruct (loadFromGoogleFonts a b c d e f g h) as [[err|bytes] w1] eqn:G
    end; [|discriminate].
    intros [= <- <-]. split.
    + apply loadFromGoogleFonts_cache in G. apply G.
    + eexists. split; [reflexivity|]. split; reflexivity.
Qed.

Lemma find_singleton {A} (p : A -> bool) x :
  match List.find p [x] with Some y => Some y | None => head [x] end = Some x.
Proof. simpl. destruct (p x); reflexivity. Qed.

(** X17.  The first font registered for a family serves every request
    for that family.  With one font registered from a buffer, as the first
    of its family, a request for any weight and any style, under any
    spelling of the family, succeeds without a request to the network and
    is labelled with the weight and style asked for.  Its bytes are the
    ones the cache holds under the key of the request, when it holds any,
    and else those of the registered font, which are then in the cache
    under that key. *)
Theorem registered_font_serves_all fetch decodeText describeError
        (config : FontConfig) (bytes : list byte)
        (fam : string) (weight style : JSValue) (w : FontWorld) :
  src config = FontBuffer bytes ->
  customFonts w !! normalizeFamily (family config) = None ->
  normalizeFamily fam = normalizeFamily (family config) ->
  exists w',
    loadFont fetch decodeText numberToString objectToString describeError
             fam weight style (registerFont config w)
    = (inr {| fontFamily := normalizeFamily fam;
              fontWeight := effective (num 400) weight;
              fontStyle := effective (VStr "normal") style;
              fontData := default bytes (fontCache w !! keyOf fam weight style) |}, w')
    /\ requests w' = requests w
    /\ fontCache w' !! keyOf fam weight style
       = Some (default bytes (fontCache w !! keyOf fam weight style)).
Proof.
  intros Hsrc Hfirst Hsame.
  rewrite loadFont_unfold. cbv zeta.
  set (key := keyOf fam weight style) in *.
  change (fontCache (registerFont config w)) with (fontCache w).
  destruct (fontCache w !! key) as [held|] eqn:Hheld; cbn [default].
  - eexists. split; [reflexivity|]. split; [reflexivity|exact Hheld].
  - unfold findCustomFont at 1. unfold registerFont at 1. cbn [customFonts].
    rewrite Hsame, Hfirst. cbn [default]. rewrite lookup_insert_eq.
    rewrite app_nil_l, find_singleton.
    unfold resolveCustomFontData. rewrite Hsrc.
    eexists. split; [reflexivity|]. split; [reflexivity|].
    cbn [cached fontCache]. apply lookup_insert_eq.
Qed.

End FontLoaderProperties.

(** Bold Open Sans is registered; the regular italic is asked for, under
    another spelling of the family, while the network is down. *)
Lemma registered_font_serves_all_witness :
  exists w',
    FontLoader.loadFont Fixtures.offline Fixtures.asText Fixtures.showInteger
      Fixtures.objectText Fixtures.describe "'open  sans'" (num 400) (VStr "italic")
      (FontLoader.registerFont Fixtures.boldOpenSans FontLoader.emptyFontWorld)
    = (inr {| Fonts.fontFamily := "open-sans"; Fonts.fontWeight := num 400;
              Fonts.fontStyle := VStr "italic";
              Fonts.fontData := [x00; x01; x00; x00] |}, w')
    /\ FontLoader.requests w' = [].
Proof.
  destruct (registered_font_serves_all Fixtures.showInteger Fixtures.objectText
              Fixtures.offline Fixtures.asText Fixtures.describe
              Fixtures.boldOpenSans [x00; x01; x00; x00] "'open  sans'" (num 400)
              (VStr "italic") FontLoader.emptyFontWorld eq_refl eq_refl eq_refl)
    as (w' & Hload & Hrequests & _).
  exists w'. split; [exact Hload|exact Hrequests].
Defined.

(** The font served above is served again once the registration is gone. *)
Lemma loadFont_cache_witness :
  exists font w',
    FontLoader.loadFont Fixtures.offline Fixtures.asText Fixtures.showInteger
      Fixtures.objectText Fixtures.describe "Open Sans" (num 700) VUndefined
      (FontLoader.registerFont Fixtures.boldOpenSans FontLoader.emptyFontWorld)
    = (inr font, w')
    /\ FontLoader.loadFont Fixtures.offline Fixtures.asText Fixtures.showInteger
         Fixtures.objectText Fixtures.describe "OPEN SANS" (num 700) VUndefined
         {| FontLoader.fontCache := FontLoader.fontCache w';
            FontLoader.customFonts := ∅;
            FontLoader.requests := [] |}
       = (inr font, {| FontLoader.fontCache := FontLoader.fontCache w';
                       FontLoader.customFonts := ∅;
                       FontLoader.requests := [] |}).
Proof.
  destruct (FontLoader.loadFont Fixtures.offline Fixtures.asText Fixtures.showInteger
              Fixtures.objectText Fixtures.describe "Open Sans" (num 700) VUndefined
              (FontLoader.registerFont Fixtures.boldOpenSans FontLoader.emptyFontWorld))
    as [[e|font] w'] eqn:E.
  - vm_compute in E. discriminate E.
  - exists font, w'. split; [reflexivity|].
    destruct (loadFont_cache Fixtures.showInteger Fixtures.objectText _ _ _ _ _ _ _ _ _ E)
      as (_ & Hkey & Hagain).
    apply Hagain; [reflexivity|exact Hkey].
Defined.

(** Inter, with nothing registered and the network down. *)
Lemma loadFont_failures_witness :
  exists pe w',
    FontLoader.loadFont Fixtures.offline Fixtures.asText Fixtures.showInteger
      Fixtures.objectText Fixtures.describe "Inter" (num 400) (VStr "normal")
      FontLoader.emptyFontWorld
    = (inl (Thrown pe), w')
    /\ code pe = FONT_LOAD_FAILED
    /\ FontLoader.fontCache w' = ∅.
Proof.
  destruct (FontLoader.loadFont Fixtures.offline Fixtures.asText Fixtures.showInteger
              Fixtures.objectText Fixtures.describe "Inter" (num 400) (VStr "normal")
              FontLoader.emptyFontWorld) as [[e|font] w'] eqn:E.
  - destruct (loadFont_failures Fixtures.showInteger Fixtures.objectText _ _ _ _ _ _ _ _ _ E)
      as (Hcache & pe & -> & Hcode & _).
    exists pe, w'. split; [reflexivity|]. split; [exact Hcode|exact Hcache].
  - vm_compute in E. discriminate E.
Defined.

(* --------------------------------------------------------------------- *)
(** ** Wrapping errors                                                     *)
(* --------------------------------------------------------------------- *)

Section WrapProperties.

Import ErrorSystem.

Variable numberToString : JSNumber -> string.
Variable objectToString : JSValue -> string.

Abbreviation wrap := (wrapError numberToString objectToString).

Lemma assocGet_assocSet_ne {V} k k' (v : V) m :
  k <> k' -> assocGet k (assocSet k' v m) = assocGet k m.
Proof.
  intros Hne. induction m as [|[k0 v0] m IH]; simpl.
  - destruct (String.eqb k k') eqn:E; [|reflexivity].
    apply String.eqb_eq in E. contradiction.
  - destruct (String.eqb k' k0) eqn:E0; simpl.
    + apply String.eqb_eq in E0. subst k0.
      destruct (String.eqb k k') eqn:E; [|reflexivity].
      apply String.eqb_eq in E. contradiction.
    + destruct (String.eqb k k0); [reflexivity|exact IH].
Qed.

(** X18.  Wrapping is absorbed by what is already wrapped: a PaperFlowError
    comes back as it is, so of two wrappings the first decides code and
    context; any other error takes the code given, keeps its message, and
    records its name as [originalError] over whatever the context held
    there, the other entries of the context staying as they are. *)
Theorem wrapError_absorbs :
  (forall error c ctx c' ctx',
      wrap (CaughtPaperFlow (wrap error c ctx)) c' ctx' = wrap error c ctx)
  /\ (forall name msg c ctx,
         code (wrap (CaughtError name msg) c ctx) = c
         /\ message (wrap (CaughtError name msg) c ctx) = msg
         /\ assocGet "originalError" (context (wrap (CaughtError name msg) c ctx))
            = Some (VStr name)
         /\ forall k, k <> "originalError" ->
                      assocGet k (context (wrap (CaughtError name msg) c ctx))
                      = assocGet k ctx).
Proof.
  split; [reflexivity|].
  intros name msg c ctx. simpl. repeat split.
  - apply assocGet_assocSet_eq.
  - intros k Hk. now apply assocGet_assocSet_ne.
Qed.

End WrapProperties.

(* --------------------------------------------------------------------- *)
(** ** The elements given to Satori                                        *)
(* --------------------------------------------------------------------- *)

Section EngineProperties.

Import Satori.


Lemma showZ_of_nat i : showZ (Z.of_nat i) = showNat i.
Proof. destruct i; reflexivity. Qed.

Lemma indexFrom_absent v keys : forall i,
  (forall s, v = VStr s -> s ∉ keys) -> indexFrom i v keys = (-1)%Z.
Proof.
  induction keys as [|k keys IH]; intros i H; simpl; [reflexivity|].
  destruct v; simpl; try (apply IH; intros ? [=]).
  destruct (String.eqb k s) eqn:E.
  - apply String.eqb_eq in E. subst. exfalso. apply (H _ eq_refl). left.
  - apply IH. intros s' [= <-] Hin. apply (H s eq_refl). now right.
Qed.

Lemma no_image_id_minus_one images :
  Forall isImageId (map fst images) ->
  assocGet ("img-" ++ showZ (-1))%string images = None (A := Images.LoadedImage).
Proof.
  intros H. destruct (assocGet _ images) as [loaded|] eqn:G; [|reflexivity].
  exfalso. apply assocGet_elem in G.
  rewrite Forall_forall in H.
  destruct (H ("img-" ++ showZ (-1))%string) as [i Hi].
  { apply elem_of_map. exists ("img-" ++ showZ (-1), loaded)%string. split; [reflexivity|exact G]. }
  assert (E : showZ (-1) = showZ (Z.of_nat i)).
  { rewrite showZ_of_nat. now injection Hi. }
  apply (inj pretty) in E. lia.
Qed.

(** X19.  Loaded images do not reach the element.  With the images stored
    under ids, as [render] stores them, an image node whose source is not
    itself one of the keys gets an element with the source of the node,
    whether or not the image was loaded. *)
Theorem image_element_keeps_src images (node : IRNode) (key : nat) :
  Forall isImageId (map fst images) ->
  nodeType node = image ->
  (forall s, get (nodeProps node) "src" = VStr s -> s ∉ map fst images) ->
  elementProps (irNodeToSatoriElement images node key) !! "src"
  = Some (get (nodeProps node) "src").
Proof.
  intros Hids Htype Hsrc. destruct node as [type props sty kids]. simpl in Htype, Hsrc.
  subst type. cbn [irNodeToSatoriElement elementProps].
  unfold indexOf. rewrite (indexFrom_absent _ _ 0%Z Hsrc).
  rewrite (no_image_id_minus_one _ Hids). apply lookup_singleton_eq.
Qed.

(** X20.  The style of a node wins over the defaults of the engine: a
    property the node sets, to a value other than undefined and null, has
    that value in the style of the element, for every type of node. *)
Theorem element_style_keeps_node_style images (node : IRNode) (key : nat) k v :
  nodeStyle node !! k = Some v ->
  v <> VUndefined -> v <> VNull ->
  elementStyle (irNodeToSatoriElement images node key) !! k = Some v.
Proof.
  intros Hk Hu Hn. destruct node as [type props sty kids]. simpl in Hk.
  assert (Hc : convertStyle sty !! k = Some v).
  { unfold convertStyle. apply map_lookup_filter_Some. auto. }
  destruct type; cbn [irNodeToSatoriElement elementStyle];
    try (now apply lookup_union_Some_l).
  destruct (decide (k = "objectFit")) as [->|Hne].
  - rewrite lookup_insert_eq. f_equal. unfold get. rewrite Hc. simpl.
    unfold nullish. destruct v; simpl; congruence.
  - rewrite lookup_insert_ne by congruence. exact Hc.
Qed.

End EngineProperties.

(** An image that was loaded and stored under img-0: the element keeps the
    URL. *)
Lemma image_element_keeps_src_witness :
  Satori.elementProps
    (Satori.irNodeToSatoriElement
       [("img-0", {| Images.id := "img_1"; Images.data := [x89; x50; x4e; x47];
                     Images.format := Images.png |})]
       (Node image {[ "src" := VStr "https://cdn.test/a.png" ]} ∅ []) 0) !! "src"
  = Some (VStr "https://cdn.test/a.png").
Proof.
  rewrite (image_element_keeps_src
             [("img-0", {| Images.id := "img_1"; Images.data := [x89; x50; x4e; x47];
                           Images.format := Images.png |})]
             (Node image {[ "src" := VStr "https://cdn.test/a.png" ]} ∅ []) 0).
  - reflexivity.
  - constructor; [exists 0%nat; reflexivity|constructor].
  - reflexivity.
  - intros s [= <-] Hin. apply list_elem_of_singleton in Hin. discriminate Hin.
Defined.

(** A view that is hidden stays hidden. *)
Lemma element_style_keeps_node_style_witness :
  Satori.elementStyle
    (Satori.irNodeToSatoriElement [] (Node view ∅ {[ "display" := VStr "none" ]} []) 0)
    !! "display"
  = Some (VStr "none").
Proof.
  apply (element_style_keeps_node_style [] (Node view ∅ {[ "display" := VStr "none" ]} []) 0);
    [reflexivity|discriminate|discriminate].
Defined.

(* --------------------------------------------------------------------- *)
(** ** Rendering                                                           *)
(* --------------------------------------------------------------------- *)

Section RenderProperties.

Import Render.

Variable Number_ : string -> JSNumber.
Variable percentOf : JSNumber -> JSNumber -> string.
Variable numberToString : JSNumber -> string.
Variable objectToString : JSValue -> string.
Variable userComponents : string -> Props -> ReactNode.
Variable parseFloat_ : string -> JSNumber.
Variable now : Z.
Variable nowAtResult : Z.

Abbreviation toIR := (reactToIR Number_ percentOf numberToString userComponents parseFloat_ now).
Abbreviation renderWith loadFont fetch atob deferred satoriRender kindOf :=
  (render Number_ percentOf numberToString objectToString userComponents parseFloat_
          now nowAtResult loadFont fetch atob deferred satoriRender kindOf).

Section Platform.

Variable loadFont : string -> JSValue -> JSValue -> Exception + Fonts.LoadedFont.
Variable fetch : string -> Images.FetchOutcome.
Variable atob : string -> option string.
Variable deferred : string -> Images.ImageSource.
Variable satoriRender : RenderContext -> Exception + list byte.
Variable kindOf : string -> string.

Abbreviation render_ := (renderWith loadFont fetch atob deferred satoriRender kindOf).
Abbreviation attempt_ :=
  (attempt Number_ percentOf numberToString objectToString userComponents parseFloat_
           now nowAtResult loadFont fetch atob deferred satoriRender).
Abbreviation imagesOf doc w :=
  (loadImagesOf numberToString objectToString fetch atob deferred (IR.images doc) [] w).

Lemma render_outcome fuel element options w :
  render_ fuel element options w
  = match attempt_ fuel element
            (match engine options with Some (Some name) => name | _ => "satori" end) w with
    | (Some (inl (OtherError msg)), w1) =>
        (Some (raise ("Render failed: " ++ msg) RENDER_FAILED
                     [("originalError", VStr (kindOf msg))]), w1)
    | outcome => outcome
    end.
Proof. reflexivity. Qed.

Lemma render_throws_PaperFlowError fuel element options w e w' :
  render_ fuel element options w = (Some (inl e), w') -> exists pe, e = Thrown pe.
Proof.
  rewrite render_outcome.
  destruct (attempt_ fuel element _ w) as [[[[pe|msg]|result]|] w1];
    intros [= <- <-] || discriminate; eauto.
Qed.

Lemma attempt_failures fuel element name w e0 w' :
  attempt_ fuel element name w = (Some (inl e0), w') ->
  toIR fuel element = Some (inl e0)
  \/ exists doc,
       toIR fuel element = Some (inr doc)
       /\ ((IR.pages doc = [] /\ exists pe, e0 = Thrown pe /\ code pe = NO_PAGES)
           \/ (IR.pages doc <> [] /\ Fonts.loadFontsForDocument loadFont doc = inl e0)
           \/ exists fontList,
                IR.pages doc <> []
                /\ Fonts.loadFontsForDocument loadFont doc = inr fontList
                /\ ((name <> "satori"
                     /\ exists pe, e0 = Thrown pe /\ code pe = UNKNOWN_ENGINE)
                    \/ (name = "satori"
                        /\ satoriRender {| ir := doc; loadedFonts := fontList;
                                           loadedImages := (imagesOf doc w).1 |}
                           = inl e0))).
Proof.
  unfold attempt.
  destruct (toIR fuel element) as [[e1|doc]|]; [| |discriminate].
  { intros [= <- <-]. now left. }
  intros H. right. exists doc. split; [reflexivity|]. revert H.
  destruct (length (IR.pages doc) =? 0)%nat eqn:P.
  { intros [= <- <-]. left. split.
    - apply Nat.eqb_eq in P. now destruct (IR.pages doc).
    - eexists. split; reflexivity. }
  assert (Hpages : IR.pages doc <> []).
  { intros Hnil. rewrite Hnil in P. discriminate. }
  destruct (Fonts.loadFontsForDocument loadFont doc) as [e1|fontList].
  { intros [= <- <-]. right. left. now split. }
  destruct (imagesOf doc w) as [imageMap w1].
  intros H. right. right. exists fontList. split; [exact Hpages|]. split; [reflexivity|].
  revert H. unfold getEngine.
  destruct (String.eqb name "satori") eqn:N.
  - apply String.eqb_eq in N.
    destruct (satoriRender _) as [e1|buf] eqn:S; [|discriminate].
    intros [= <- <-]. right. split; [exact N|first [exact S|reflexivity]].
  - apply String.eqb_neq in N.
    destruct (String.eqb name "browser");
      intros [= <- <-]; left; (split; [exact N|]); eexists; split; reflexivity.
Qed.

(** X21.  The failures of [render].  Whatever [render] throws is a
    PaperFlowError: an error thrown inside comes out as it is when it is a
    PaperFlowError, and as RENDER_FAILED with its message after the words
    Render failed otherwise.  The error thrown inside is that of the
    conversion; or NO_PAGES, for a document without pages; or that of
    loading the fonts; or UNKNOWN_ENGINE, for an engine other than satori;
    or what the Satori engine throws on the document, the fonts that were
    loaded and the images that could be loaded. *)
Theorem render_failures fuel element options w e w' :
  render_ fuel element options w = (Some (inl e), w') ->
  exists pe e0,
    e = Thrown pe
    /\ (e0 = Thrown pe
        \/ exists msg, e0 = OtherError msg /\ code pe = RENDER_FAILED
                       /\ message pe = ("Render failed: " ++ msg)%string)
    /\ (toIR fuel element = Some (inl e0)
        \/ exists doc,
             toIR fuel element = Some (inr doc)
             /\ ((IR.pages doc = [] /\ code pe = NO_PAGES)
                 \/ (IR.pages doc <> []
                     /\ Fonts.loadFontsForDocument loadFont doc = inl e0)
                 \/ exists fontList,
                      IR.pages doc <> []
                      /\ Fonts.loadFontsForDocument loadFont doc = inr fontList
                      /\ ((code pe = UNKNOWN_ENGINE
                           /\ exists name,
                                engine options = Some (Some name) /\ name <> "satori")
                          \/ ((engine options = None \/ engine options = Some None
                               \/ engine options = Some (Some "satori"))
                              /\ satoriRender
                                   {| ir := doc; loadedFonts := fontList;
                                      loadedImages := (imagesOf doc w).1 |}
                                 = inl e0)))).
Proof.
  unfold render.
  destruct (attempt_ fuel element _ w) as [[[e0|result]|] w1] eqn:A; [| |discriminate].
  2:{ discriminate. }
  intros H.
  assert (R : exists pe, e = Thrown pe
                /\ (e0 = Thrown pe
                    \/ exists msg, e0 = OtherError msg /\ code pe = RENDER_FAILED
                                   /\ message pe = ("Render failed: " ++ msg)%string)).
  { destruct e0 as [pe|msg]; injection H as <- <-; eexists; split; try reflexivity.
    - now left.
    - right. exists msg. repeat split. }
  destruct R as (pe & -> & R). exists pe, e0. split; [reflexivity|]. split; [exact R|].
  apply attempt_failures in A as [A|(doc & A & C)]; [now left|].
  right. exists doc. split; [exact A|].
  destruct C as [[P (pe' & -> & C)]|[F|(fontList & P & F & C)]].
  - left. split; [exact P|]. destruct R as [[= <-]|(msg & [=] & _)]. exact C.
  - right. now left.
  - right. right. exists fontList. split; [exact P|]. split; [exact F|].
    destruct C as [[N (pe' & -> & C)]|[N S]].
    + left. destruct R as [[= <-]|(msg & [=] & _)]. split; [exact C|].
      destruct (engine options) as [[name|]|]; try (now contradiction N).
      exists name. split; [reflexivity|exact N].
    + right. split; [|exact S].
      destruct (engine options) as [[name|]|]; auto.
      right. right. now rewrite N.
Qed.

Lemma reactToIR_ids fuel element doc i u :
  toIR fuel element = Some (inr doc) ->
  IR.images doc !! i = Some u -> id u = ("img-" ++ showNat i)%string.
Proof.
  unfold reactToIR.
  destruct (convertElement _ _ _ _ fuel element emptyContext) as [[e|[root c]]|] eqn:E;
    try discriminate.
  destruct (documentPages _ root) as [e|pageList]; [discriminate|].
  intros [= <-]. simpl.
  apply convertElement_numbered in E as [Hk Hn];
    [|split; [constructor|]; intros j k v H; inversion H].
  intros Hi. change (map snd (ctxImages c)) with (snd <$> ctxImages c) in Hi.
  apply list_lookup_fmap_Some in Hi as ([k u'] & -> & Hi).
  now destruct (Hn _ _ _ Hi).
Qed.

Lemma loadImagesOf_keys usages : forall images w images' w',
  loadImagesOf numberToString objectToString fetch atob deferred usages images w
  = (images', w') ->
  map fst images' ⊆ map fst images ++ map id usages.
Proof.
  induction usages as [|u usages IH]; intros images w images' w'; simpl.
  - intros [= <- <-]. rewrite app_nil_r. reflexivity.
  - destruct (Images.loadImage fetch atob _ Images.noOptions w) as [[e|loaded] w1].
    + intros H. apply IH in H. intros k Hk. apply H in Hk.
      apply elem_of_app in Hk as [Hk|Hk]; apply elem_of_app; [now left|right].
      now right.
    + intros H. apply IH in H. intros k Hk. apply H in Hk.
      apply elem_of_app in Hk as [Hk|Hk]; apply elem_of_app; [|right; now right].
      rewrite assocSet_keys in Hk. destruct (assocHas (id u) images); [now left|].
      apply elem_of_app in Hk as [Hk|Hk]; [now left|].
      apply list_elem_of_singleton in Hk. subst. right. left.
Qed.

(** X22.  What a render that returns has gone through: the tree was
    converted to a document with one page or more, the fonts settled to a
    list that is not empty, the engine is Satori and gave the buffer of the
    result, and the result reports the number of pages of the document.  The
    images given to the engine are stored under ids of the image manifest,
    each the text img- and a number. *)
Theorem render_result fuel element options w result w' :
  render_ fuel element options w = (Some (inr result), w') ->
  exists doc fontList imageMap,
    toIR fuel element = Some (inr doc)
    /\ pages result = length (IR.pages doc) /\ (1 <= pages result)%nat
    /\ Fonts.loadFontsForDocument loadFont doc = inr fontList /\ fontList <> []
    /\ (engine options = None \/ engine options = Some None
        \/ engine options = Some (Some "satori"))
    /\ satoriRender {| ir := doc; loadedFonts := fontList; loadedImages := imageMap |}
       = inr (buffer result)
    /\ map fst imageMap ⊆ map id (IR.images doc)
    /\ Forall isImageId (map fst imageMap).
Proof.
  rewrite render_outcome. unfold attempt.
  destruct (toIR fuel element) as [[e|doc]|] eqn:E.
  - destruct e; discriminate.
  - destruct (length (IR.pages doc) =? 0)%nat eqn:P; [discriminate|].
    destruct (Fonts.loadFontsForDocument loadFont doc) as [e|fontList] eqn:F.
    { destruct e; discriminate. }
    destruct (loadImagesOf _ _ _ _ _ (IR.images doc) [] w) as [imageMap w1] eqn:L.
    unfold getEngine.
    set (name := match engine options with Some (Some name) => name | _ => "satori" end).
    destruct (String.eqb name "satori") eqn:N.
    2: { destruct (String.eqb name "browser"); discriminate. }
    destruct (satoriRender _) as [e|buf] eqn:S; [destruct e; discriminate|].
    intros [= <- <-]. exists doc, fontList, imageMap.
    apply Nat.eqb_neq in P.
    split; [reflexivity|]. split; [reflexivity|]. split; [simpl; lia|].
    split; [exact F|].
    split; [eapply loadFontsForDocument_not_nil; exact F|].
    split.
    { apply String.eqb_eq in N. unfold name in N.
      destruct (engine options) as [[n|]|]; subst; auto. }
    split; [exact S|].
    apply loadImagesOf_keys in L. split; [exact L|].
    apply Forall_forall. intros k Hk. apply L in Hk. simpl in Hk.
    apply elem_of_map in Hk as (u & -> & Hu).
    apply list_elem_of_lookup in Hu as [i Hi].
    exists i. eapply reactToIR_ids; eassumption.
  - discriminate.
Qed.

End Platform.

(** X23.  A document without pages is refused before anything is loaded: the
    error is NO_PAGES whatever the fonts, the network, the engine and the
    options, and the image cache and the list of requests stay as they were. *)
Theorem render_no_pages fuel element doc :
  toIR fuel element = Some (inr doc) ->
  IR.pages doc = [] ->
  forall loadFont fetch atob deferred satoriRender kindOf options w,
  exists pe,
    renderWith loadFont fetch atob deferred satoriRender kindOf fuel element options w
    = (Some (inl (Thrown pe)), w)
    /\ code pe = NO_PAGES.
Proof.
  intros E P loadFont fetch atob deferred satoriRender kindOf options w.
  rewrite render_outcome. unfold attempt. rewrite E, P. simpl.
  eexists. split; reflexivity.
Qed.


(** X24.  The convenience method of the client is the render function on the
    merged options: the same result, the same error, the same effects.  The
    branch of [createPdf] that wraps a foreign error is never taken, since
    [render] throws nothing but PaperFlowErrors.  The engine of the
    configuration counts only when the options have no engine property at
    all. *)
Theorem renderPdf_is_render loadFont fetch atob deferred satoriRender kindOf
        caughtValue (config : Client.PaperFlowConfig) fuel element options w :
  Client.renderPdf (renderWith loadFont fetch atob deferred satoriRender kindOf fuel)
                   caughtValue config element options w
  = match renderWith loadFont fetch atob deferred satoriRender kindOf fuel element
            (Client.mergedOptions config options) w with
    | (Some (inr result), w') => (Some (inr (Some result)), w')
    | (Some (inl e), w') => (Some (inl e), w')
    | (None, w') => (None, w')
    end
  /\ engine (Client.mergedOptions config options)
     = match engine options with
       | Some given => Some given
       | None => Some (Client.engine config)
       end.
Proof.
  split; [|reflexivity].
  unfold Client.renderPdf, Client.createPdf.
  destruct (renderWith loadFont fetch atob deferred satoriRender kindOf fuel element
              (Client.mergedOptions config options) w)
    as [[[[pe|msg]|result]|] w'] eqn:R; try reflexivity.
  apply render_throws_PaperFlowError in R as [pe Hpe]. discriminate Hpe.
Qed.

End RenderProperties.

(** [<Document />]: no page, so NO_PAGES, with the fonts at hand and an
    engine that would render. *)
Lemma render_no_pages_witness :
  exists pe,
    Render.render Samples.anyNumber Samples.anyPercent Samples.anyString Fixtures.objectText
      Samples.noComponents Samples.anyNumber 0 0 Fixtures.everyFont Fixtures.pngEverywhere
      Fixtures.noAtob Fixtures.noDeferred Fixtures.pdfHeader Fixtures.kindOfError
      8 Fixtures.emptyDocument Render.noOptions Images.emptyWorld
    = (Some (inl (Thrown pe)), Images.emptyWorld)
    /\ code pe = NO_PAGES.
Proof.
  pose proof (render_no_pages Samples.anyNumber Samples.anyPercent Samples.anyString
                Fixtures.objectText Samples.noComponents Samples.anyNumber 0 0
                8 Fixtures.emptyDocument) as H.
  destruct (reactToIR Samples.anyNumber Samples.anyPercent Samples.anyString
              Samples.noComponents Samples.anyNumber 0 8 Fixtures.emptyDocument)
    as [[e|doc]|] eqn:E.
  - vm_compute in E. discriminate E.
  - apply (H doc eq_refl).
    vm_compute in E. injection E as <-. reflexivity.
  - vm_compute in E. discriminate E.
Defined.

(** The hello tree with the browser engine: UNKNOWN_ENGINE, a
    PaperFlowError. *)
Lemma render_failures_witness :
  exists pe w',
    Render.render Samples.anyNumber Samples.anyPercent Samples.anyString Fixtures.objectText
      Samples.noComponents Samples.anyNumber 0 0 Fixtures.everyFont Fixtures.pngEverywhere
      Fixtures.noAtob Fixtures.noDeferred Fixtures.pdfHeader Fixtures.kindOfError
      8 Samples.helloTree
      {| Render.engine := Some (Some "browser"); Render.format := None;
         Render.fonts := None |}
      Images.emptyWorld
    = (Some (inl (Thrown pe)), w').
Proof.
  destruct (Render.render Samples.anyNumber Samples.anyPercent Samples.anyString
              Fixtures.objectText Samples.noComponents Samples.anyNumber 0 0
              Fixtures.everyFont Fixtures.pngEverywhere Fixtures.noAtob Fixtures.noDeferred
              Fixtures.pdfHeader Fixtures.kindOfError 8 Samples.helloTree
              {| Render.engine := Some (Some "browser"); Render.format := None;
                 Render.fonts := None |}
              Images.emptyWorld) as [[[e|result]|] w'] eqn:E.
  - destruct (render_failures _ _ _ _ _ _ _ _ _ _ _ _ _ _ _ _ _ _ _ _ E)
      as (pe & e0 & -> & _).
    exists pe, w'. reflexivity.
  - vm_compute in E. discriminate E.
  - vm_compute in E. discriminate E.
Defined.

(** The hello tree with the defaults: one page. *)
Lemma render_result_witness :
  exists result w',
    Render.render Samples.anyNumber Samples.anyPercent Samples.anyString Fixtures.objectText
      Samples.noComponents Samples.anyNumber 0 0 Fixtures.everyFont Fixtures.pngEverywhere
      Fixtures.noAtob Fixtures.noDeferred Fixtures.pdfHeader Fixtures.kindOfError
      8 Samples.helloTree Render.noOptions Images.emptyWorld
    = (Some (inr result), w')
    /\ (1 <= Render.pages result)%nat.
Proof.
  destruct (Render.render Samples.anyNumber Samples.anyPercent Samples.anyString
              Fixtures.objectText Samples.noComponents Samples.anyNumber 0 0
              Fixtures.everyFont Fixtures.pngEverywhere Fixtures.noAtob Fixtures.noDeferred
              Fixtures.pdfHeader Fixtures.kindOfError 8 Samples.helloTree
              Render.noOptions Images.emptyWorld) as [[[e|result]|] w'] eqn:E.
  - vm_compute in E. discriminate E.
  - exists result, w'. split; [reflexivity|].
    destruct (render_result _ _ _ _ _ _ _ _ _ _ _ _ _ _ _ _ _ _ _ _ E)
      as (doc & fontList & imageMap & _ & _ & Hpages & _).
    exact Hpages.
  - vm_compute in E. discriminate E.
Defined.
